(** * The client page loader of next.js (packages/next/client/page-loader.js)

    A shallow embedding of the page loader: route normalisation, asset paths,
    data hrefs for dynamic routes, the page cache with its register events,
    and prefetching.  Strings are byte strings (UTF-8), JavaScript objects used
    as maps are finite maps (the build manifest, which is read under a name
    that need not begin with a slash, with the properties every object
    inherits), and the browser (document, promises, pending promise
    reactions) is an explicit state that every method threads. *)

From Stdlib Require Import Ascii Bool Arith Lia.
From stdpp Require Import gmap strings list.

(** ** JavaScript values and strings *)

Module Js.

(** The values the loader passes around without looking inside them: page
    modules, thrown values and [Error] objects.  [JObject id dflt] is an object
    whose [default] property is [dflt] ([JUndefined] when it has none). *)
Inductive JsVal :=
| JUndefined
| JNull
| JBool (b : bool)
| JNum (n : Z)
| JStr (s : string)
| JObject (id : nat) (dflt : JsVal)
| JError (message : string) (code : option string)
| JTypeError.

#[export] Instance JsVal_eq_dec : EqDecision JsVal.
Proof. solve_decision. Defined.

(** ToBoolean. *)
Definition truthy (v : JsVal) : bool :=
  match v with
  | JUndefined | JNull => false
  | JBool b => b
  | JNum n => negb (n =? 0)%Z
  | JStr s => negb (String.eqb s "")
  | JObject _ _ | JError _ _ | JTypeError => true
  end.

(** What evaluating an expression gives: a value, or a thrown value. *)
Inductive completion (A : Type) :=
| Return (a : A)
| Throw (e : JsVal).
Arguments Return {A} a.
Arguments Throw {A} e.

Definition is_throw {A} (c : completion A) : bool :=
  match c with Throw _ => true | Return _ => false end.

Definition bind {A B} (c : completion A) (f : A -> completion B) : completion B :=
  match c with
  | Return a => f a
  | Throw e => Throw e
  end.

(** [mod.default]: a TypeError on [undefined] and [null]. *)
Definition get_default (v : JsVal) : completion JsVal :=
  match v with
  | JUndefined | JNull => Throw JTypeError
  | JObject _ d => Return d
  | _ => Return JUndefined
  end.

(** The double quote character, for messages that quote a route. *)
Definition dq : string := String "034"%char "".

(** [s.startsWith(p)], returning what follows the prefix. *)
Fixpoint stripPrefix (p s : string) : option string :=
  match p with
  | "" => Some s
  | String c p' =>
      match s with
      | String d s' => if Ascii.eqb c d then stripPrefix p' s' else None
      | "" => None
      end
  end.

Definition startsWith (s p : string) : bool :=
  match stripPrefix p s with Some _ => true | None => false end.

(** [s.endsWith(suf)]: some tail of [s] is [suf]. *)
Fixpoint endsWith (s suf : string) : bool :=
  String.eqb s suf ||
  match s with
  | "" => false
  | String _ s' => endsWith s' suf
  end.

(** [s.replace(pat, repl)] for a string pattern: the first occurrence only.
    The replacement is taken literally, which is what JavaScript does when it
    holds no dollar sign. *)
Fixpoint replace_first (s pat repl : string) : string :=
  match stripPrefix pat s with
  | Some rest => repl +:+ rest
  | None =>
      match s with
      | "" => ""
      | String c s' => String c (replace_first s' pat repl)
      end
  end.

(** [l.join(sep)]. *)
Definition join (sep : string) (l : list string) : string :=
  String.concat sep l.

End Js.
Export Js.

(** ** Regular expressions

    The fragment the loader's regular expressions are written in: characters,
    sequence, alternation and the two anchors (no [m] flag: the anchors are
    the ends of the input).  Matching is by backtracking, leftmost first, the
    first alternative first, as in JavaScript. *)

Module Regex.

Inductive regex :=
| Eps
| Chr (c : ascii)
| Cat (r1 r2 : regex)
| Alt (r1 r2 : regex)
| Bol
| Eol.

(** [lit "abc"] is the expression [/abc/]. *)
Fixpoint lit (s : string) : regex :=
  match s with
  | "" => Eps
  | String c s' => Cat (Chr c) (lit s')
  end.

(** Match [r] at the head of [s]; [atStart] says whether that is index 0 of
    the input.  The continuation receives what is left. *)
Fixpoint rmatch (r : regex) (atStart : bool) (s : string)
    (k : bool -> string -> option string) : option string :=
  match r with
  | Eps => k atStart s
  | Chr c =>
      match s with
      | String d s' => if Ascii.eqb c d then k false s' else None
      | "" => None
      end
  | Cat r1 r2 => rmatch r1 atStart s (fun b s' => rmatch r2 b s' k)
  | Alt r1 r2 =>
      match rmatch r1 atStart s k with
      | Some rest => Some rest
      | None => rmatch r2 atStart s k
      end
  | Bol => if atStart then k atStart s else None
  | Eol => match s with "" => k atStart s | _ => None end
  end.

(** [r.exec(s)]: the leftmost match, as the text before it and the text
    after it. *)
Fixpoint search (r : regex) (atStart : bool) (s : string) : option (string * string) :=
  match rmatch r atStart s (fun _ rest => Some rest) with
  | Some rest => Some ("", rest)
  | None =>
      match s with
      | "" => None
      | String c s' =>
          match search r false s' with
          | Some (before, after) => Some (String c before, after)
          | None => None
          end
      end
  end.

(** [r.test(s)]. *)
Definition test (r : regex) (s : string) : bool :=
  match search r true s with Some _ => true | None => false end.

(** [s.replace(r, repl)] for an expression without the [g] flag and a
    replacement without dollar signs. *)
Definition replace (r : regex) (s repl : string) : string :=
  match search r true s with
  | Some (before, after) => before +:+ repl +:+ after
  | None => s
  end.

End Regex.
Export Regex.

(** ** Routes *)

(** [/\/$/] *)
Definition reTrailingSlash : regex := Cat (Chr "/") Eol.

(** [/^\/index(\/|$)/] *)
Definition reIndex : regex := Cat Bol (Cat (lit "/index") (Alt (Chr "/") Eol)).

Definition invalidRouteError (route : string) : JsVal :=
  JError ("Route name should start with a " +:+ dq +:+ "/" +:+ dq +:+ ", got "
          +:+ dq +:+ route +:+ dq) None.

Definition normalizeRoute (route : string) : completion string :=
  match route with
  | String "/" _ =>
      if String.eqb route "/" then Return route
      else Return (replace reTrailingSlash route "")
  | _ => Throw (invalidRouteError route)
  end.

Definition getAssetPath (route : string) : string :=
  if String.eqb route "/" then "/index"
  else if test reIndex route then "/index" +:+ route
  else route.

Definition pageLoadError (route : string) : JsVal :=
  JError ("Error loading " +:+ route) (Some "PAGE_LOAD_ERROR").

(** ** URI encoding

    [encodeURIComponent] and [encodeURI] on UTF-8 byte strings: a byte outside
    the unescaped set becomes a percent sign and two upper-case hexadecimal
    digits.  A byte string stands for a well-formed string; a string with a
    lone surrogate, for which the two functions throw a URIError, is none. *)

Module Uri.

Fixpoint inString (c : ascii) (s : string) : bool :=
  match s with
  | "" => false
  | String d s' => Ascii.eqb c d || inString c s'
  end.

Definition isAlnum (c : ascii) : bool :=
  let n := nat_of_ascii c in
  ((48 <=? n) && (n <=? 57)) || ((65 <=? n) && (n <=? 90)) || ((97 <=? n) && (n <=? 122)).

Definition uriMark : string := "-_.!~*'()".
Definition uriReserved : string := ";/?:@&=+$,#".

Definition hexDigit (n : nat) : ascii :=
  match String.get n "0123456789ABCDEF" with
  | Some c => c
  | None => "0"%char
  end.

Definition percentEncode (c : ascii) : string :=
  let n := nat_of_ascii c in
  String "%" (String (hexDigit (n / 16)) (String (hexDigit (n mod 16)) "")).

Fixpoint encodeWith (unescaped : ascii -> bool) (s : string) : string :=
  match s with
  | "" => ""
  | String c s' =>
      (if unescaped c then String c "" else percentEncode c) +:+ encodeWith unescaped s'
  end.

Definition encodeURIComponent : string -> string :=
  encodeWith (fun c => isAlnum c || inString c uriMark).

Definition encodeURI : string -> string :=
  encodeWith (fun c => isAlnum c || inString c uriMark || inString c uriReserved).

End Uri.
Export Uri.

(** ** Data hrefs of dynamic routes *)

(** [dynamicGroups[param]]: what the route expression says about a parameter. *)
Record Group := { repeat : bool; optional : bool }.

(** A parameter value: one string, or an array of strings. *)
Inductive ParamValue :=
| PStr (s : string)
| PArr (l : list string).

(** What [parse] returns, as far as the loader reads it. *)
Record UrlObject := { pathname : string; query : gmap string ParamValue }.

(** The imports of page-loader.js that are not part of it: [parse] of the url
    module and the router utilities.  [groups re] lists [re.groups] in the
    order of [Object.keys]; a matcher that answers [false] is [None].  The
    parameters a matcher answers and the query of a parsed href are maps from
    names to values: they are taken to hold the properties they were given
    and no others, so that [param in dynamicMatches] is a lookup. *)
Class RouterUtils := {
  RouteRegex : Type;
  parse : string -> UrlObject;
  isDynamicRoute : string -> bool;
  getRouteRegex : string -> RouteRegex;
  groups : RouteRegex -> list (string * Group);
  getRouteMatcher : RouteRegex -> string -> option (gmap string ParamValue);
}.

Section DataHref.
Context `{RouterUtils}.
Variables (assetPrefix buildId : string).

Definition getHrefForSlug (path : string) : string :=
  assetPrefix +:+ "/_next/data/" +:+ buildId +:+ getAssetPath path +:+ ".json".

(** The text a group stands for in the route: [[param]], [[...param]] or
    [[[...param]]]. *)
Definition replaced (param : string) (g : Group) : string :=
  let r := "[" +:+ (if repeat g then "..." else "") +:+ param +:+ "]" in
  if optional g then "[" +:+ r +:+ "]" else r.

(** The text it is replaced with.  A single value of a repeated group is
    wrapped in an array; an array given to [encodeURIComponent] is converted
    to a string first, its elements joined with commas. *)
Definition replacement (g : Group) (value : ParamValue) : string :=
  if repeat g then
    join "/" (map encodeURIComponent
                (match value with PArr l => l | PStr v => [v] end))
  else
    encodeURIComponent (match value with PStr v => v | PArr l => join "," l end).

(** [Object.keys(dynamicGroups).every(...)]: the answer of [every] and the
    value [interpolatedRoute] is left with. *)
Fixpoint everyGroup (dynamicGroups : list (string * Group))
    (dynamicMatches : gmap string ParamValue) (interpolatedRoute : string)
    : bool * string :=
  match dynamicGroups with
  | [] => (true, interpolatedRoute)
  | (param, g) :: rest =>
      match dynamicMatches !! param with
      | None => (false, interpolatedRoute)
      | Some value =>
          let r := replace_first interpolatedRoute (replaced param g) (replacement g value) in
          if String.eqb r "" then (false, r) else everyGroup rest dynamicMatches r
      end
  end.

(** The matches of the dynamic route against [asPathname], else the query. *)
Definition dynamicMatchesOf (route asPathname : string)
    (query : gmap string ParamValue) : gmap string ParamValue :=
  match getRouteMatcher (getRouteRegex route) asPathname with
  | Some m => m
  | None => query
  end.

(** [interpolatedRoute] when the block of the dynamic route is left. *)
Definition interpolateRoute (route asPathname : string)
    (query : gmap string ParamValue) : string :=
  let '(ok, r) :=
    everyGroup (groups (getRouteRegex route))
      (dynamicMatchesOf route asPathname query) route in
  if ok then r else "".

(** The empty string is the falsy answer. *)
Definition getDataHref (href asPath : string) : completion string :=
  let hrefUrl := parse href in
  let asUrl := parse asPath in
  bind (normalizeRoute (pathname hrefUrl)) (fun route =>
    if isDynamicRoute route then
      let interpolatedRoute := interpolateRoute route (pathname asUrl) (query hrefUrl) in
      Return (if String.eqb interpolatedRoute "" then ""
              else getHrefForSlug interpolatedRoute)
    else Return (getHrefForSlug route)).

End DataHref.

(** ** The router utilities, from their description

    is-dynamic, route-regex and route-matcher of next-server/lib/router/utils
    are imported by page-loader.js and are not part of it.  [getDataHref] is
    stated over any [RouterUtils]; this instance is for the examples. *)

Module SpecRouter.

(** [s.split(c)] *)
Fixpoint splitOn (c : ascii) (s : string) : list string :=
  match s with
  | "" => [""]
  | String d s' =>
      let r := splitOn c s' in
      if Ascii.eqb d c then "" :: r
      else match r with
           | x :: xs => String d x :: xs
           | [] => [String d ""]
           end
  end.

(** The segments of a path that starts with a slash. *)
Definition segments (path : string) : list string :=
  match splitOn "/" path with
  | "" :: l => l
  | l => l
  end.

Fixpoint stripSuffix (s suf : string) : option string :=
  if String.eqb s suf then Some ""
  else match s with
       | "" => None
       | String c s' =>
           match stripSuffix s' suf with
           | Some t => Some (String c t)
           | None => None
           end
       end.

(** Modelled from the spec: a segment of a route pattern, a literal text or
    a parameter with what the route's groups say about it. *)
Inductive Segment :=
| Literal (s : string)
| Param (name : string) (g : Group).

Definition between (l r s : string) : option string :=
  match stripPrefix l s with
  | Some t => stripSuffix t r
  | None => None
  end.

(** Modelled from the spec: a segment in brackets is a parameter; three dots
    make it a repeated one, double brackets an optional one. *)
Definition parseSegment (s : string) : Segment :=
  match between "[[..." "]]" s with
  | Some n => Param n {| repeat := true; optional := true |}
  | None =>
      match between "[..." "]" s with
      | Some n => Param n {| repeat := true; optional := false |}
      | None =>
          match between "[" "]" s with
          | Some n => Param n {| repeat := false; optional := false |}
          | None => Literal s
          end
      end
  end.

Definition isParameter (s : Segment) : bool :=
  match s with Param _ _ => true | Literal _ => false end.

(** Modelled from the spec: the groups of a route, from its parameter names
    to whether they repeat and whether they are optional. *)
Fixpoint groupsOf (p : list Segment) : list (string * Group) :=
  match p with
  | [] => []
  | Literal _ :: p' => groupsOf p'
  | Param n g :: p' => (n, g) :: groupsOf p'
  end.

(** Modelled from the spec: the parameter values of a concrete path, one
    segment for a plain parameter and the array of the remaining segments for
    a repeated one; no match when a literal segment differs or a segment is
    missing. *)
Fixpoint matchSegments (p : list Segment) (path : list string)
    : option (gmap string ParamValue) :=
  match p with
  | [] => match path with [] => Some ∅ | _ => None end
  | Literal l :: p' =>
      match path with
      | x :: xs => if String.eqb l x then matchSegments p' xs else None
      | [] => None
      end
  | Param n g :: p' =>
      if repeat g then
        match p', path with
        | [], [] => if optional g then Some ∅ else None
        | [], _ => Some {[ n := PArr path ]}
        | _, _ => None
        end
      else
        match path with
        | x :: xs =>
            if String.eqb x "" then None
            else match matchSegments p' xs with
                 | Some m => Some (<[ n := PStr x ]> m)
                 | None => None
                 end
        | [] => None
        end
  end.

(** [url.parse] on a plain path, one without query, fragment, scheme or
    host: the path name is the whole string and the query is empty. *)
Definition parsePlain (href : string) : UrlObject :=
  {| pathname := href; query := ∅ |}.

(** Modelled from the spec: the dynamic route matcher of
    next-server/lib/router/utils (is-dynamic, route-regex, route-matcher),
    which is not part of page-loader.js.  A route is a pattern of segments; a
    segment in brackets is a parameter, with three dots a repeated one, in
    double brackets an optional one.  The matcher extracts the parameter
    values of a concrete path: one segment for a plain parameter, the array of
    the remaining segments for a repeated one. *)
#[export] Instance specRouter : RouterUtils := {|
  RouteRegex := list Segment;
  parse := parsePlain;
  isDynamicRoute route := existsb isParameter (map parseSegment (segments route));
  getRouteRegex route := map parseSegment (segments route);
  groups := groupsOf;
  getRouteMatcher re path := matchSegments re (segments path);
|}.

End SpecRouter.

(** ** The browser and the loader's state *)

(** [process.env] and the feature tests made when the file is loaded. *)
Record Env := {
  production : bool;          (* process.env.NODE_ENV === 'production' *)
  modernBuild : bool;         (* process.env.__NEXT_MODERN_BUILD *)
  crossOrigin : option string;(* process.env.__NEXT_CROSS_ORIGIN *)
  supportsPreload : bool;     (* hasRel('preload') *)
  supportsPrefetch : bool;    (* hasRel('prefetch') *)
  hasNoModule : bool;         (* 'noModule' in document.createElement('script') *)
}.

Definition relPrefetch (env : Env) : string :=
  if supportsPreload env && negb (supportsPrefetch env) then "preload" else "prefetch".

(** A cache entry and a register event: [{ page, mod }] or [{ error }], a
    property that is not there reading as [undefined]. *)
Record PageData := { error : JsVal; page : JsVal; mod_ : JsVal }.

(** The closure [fire] of one [loadPage] call: the promise it settles and the
    value its variable [route] holds when it runs. *)
Record Listener := Fire { fire_promise : nat; fire_route : string }.

#[export] Instance Listener_eq_dec : EqDecision Listener.
Proof. solve_decision. Defined.

Inductive PromiseState :=
| Pending
| Resolved (page mod_ : JsVal)
| Rejected (e : JsVal).

#[export] Instance PromiseState_eq_dec : EqDecision PromiseState.
Proof. solve_decision. Defined.

Record LinkEl := {
  href : string; rel : string; as_ : option string; link_crossOrigin : option string }.

(** A script element; its [onerror] emits on [script_route]. *)
Record ScriptEl := {
  src : string; type_module : bool; script_crossOrigin : option string;
  script_route : string }.

(** [navigator.connection]. *)
Record Connection := { saveData : bool; effectiveType : string }.

(** The promise reactions that wait for their turn. *)
Inductive DepsUse := ForLoadPage | ForPrefetch.

Inductive Job :=
| GetDependenciesThen (route : string) (use : DepsUse)
    (* [promisedBuildManifest.then(m => ...)] of [getDependencies] *)
| InjectDependencies (deps : list string) (route : string)
    (* [.then(deps => deps.forEach(...))] of [loadPage] *)
| PrefetchDependencies (urls : list string)
    (* [.then(urls => Promise.all(urls.map(...)))] of [prefetch] *)
| PrefetchDataThen (href asPath route : string).
    (* [promisedSsgManifest.then(...)] of [prefetchData] *)

(** The fields of [this]. *)
Record PageLoader := {
  pageCache : gmap string PageData;
  pageRegisterEvents : gmap string (list Listener);
  loadingRoutes : gset string;
}.

Record Document := { links : list LinkEl; scripts : list ScriptEl }.

(** The globals the loader reads: the manifests once they are there, the
    connection, and [module.hot] ([None] when there is none) with the status
    handlers [registerPage] left there. *)
Record Window := {
  buildManifest : option (gmap string (list string));
  ssgManifest : option (gset string);
  connection : option Connection;
  hotStatus : option string;
  hotHandlers : list (string * completion JsVal);
}.

(** The promises [loadPage] returned, by number; the reactions in the order
    they were queued; and the events emitted so far. *)
Record Runtime := {
  promises : list PromiseState;
  reactions : list Job;
  emitted : list (string * PageData);
}.

Record World := {
  this : PageLoader;
  document : Document;
  window : Window;
  runtime : Runtime;
}.

Definition with_this (f : PageLoader -> PageLoader) (W : World) : World :=
  {| this := f (this W); document := document W; window := window W; runtime := runtime W |}.
Definition with_document (f : Document -> Document) (W : World) : World :=
  {| this := this W; document := f (document W); window := window W; runtime := runtime W |}.
Definition with_window (f : Window -> Window) (W : World) : World :=
  {| this := this W; document := document W; window := f (window W); runtime := runtime W |}.
Definition with_runtime (f : Runtime -> Runtime) (W : World) : World :=
  {| this := this W; document := document W; window := window W; runtime := f (runtime W) |}.

Definition set_pageCache (c : gmap string PageData) (W : World) : World :=
  with_this (fun t => {| pageCache := c; pageRegisterEvents := pageRegisterEvents t;
                         loadingRoutes := loadingRoutes t |}) W.
Definition set_events (e : gmap string (list Listener)) (W : World) : World :=
  with_this (fun t => {| pageCache := pageCache t; pageRegisterEvents := e;
                         loadingRoutes := loadingRoutes t |}) W.
Definition set_loading (l : gset string) (W : World) : World :=
  with_this (fun t => {| pageCache := pageCache t; pageRegisterEvents := pageRegisterEvents t;
                         loadingRoutes := l |}) W.
Definition set_links (l : list LinkEl) (W : World) : World :=
  with_document (fun d => {| links := l; scripts := scripts d |}) W.
Definition set_scripts (l : list ScriptEl) (W : World) : World :=
  with_document (fun d => {| links := links d; scripts := l |}) W.
Definition set_promises (l : list PromiseState) (W : World) : World :=
  with_runtime (fun r => {| promises := l; reactions := reactions r; emitted := emitted r |}) W.
Definition set_reactions (l : list Job) (W : World) : World :=
  with_runtime (fun r => {| promises := promises r; reactions := l; emitted := emitted r |}) W.
Definition set_emitted (l : list (string * PageData)) (W : World) : World :=
  with_runtime (fun r => {| promises := promises r; reactions := reactions r; emitted := l |}) W.
Definition set_buildManifest (m : option (gmap string (list string))) (W : World) : World :=
  with_window (fun w => {| buildManifest := m; ssgManifest := ssgManifest w;
                           connection := connection w; hotStatus := hotStatus w;
                           hotHandlers := hotHandlers w |}) W.
Definition set_ssgManifest (s : option (gset string)) (W : World) : World :=
  with_window (fun w => {| buildManifest := buildManifest w; ssgManifest := s;
                           connection := connection w; hotStatus := hotStatus w;
                           hotHandlers := hotHandlers w |}) W.
Definition set_connection (c : option Connection) (W : World) : World :=
  with_window (fun w => {| buildManifest := buildManifest w; ssgManifest := ssgManifest w;
                           connection := c; hotStatus := hotStatus w;
                           hotHandlers := hotHandlers w |}) W.
Definition set_hotStatus (s : option string) (W : World) : World :=
  with_window (fun w => {| buildManifest := buildManifest w; ssgManifest := ssgManifest w;
                           connection := connection w; hotStatus := s;
                           hotHandlers := hotHandlers w |}) W.
Definition set_hotHandlers (h : list (string * completion JsVal)) (W : World) : World :=
  with_window (fun w => {| buildManifest := buildManifest w; ssgManifest := ssgManifest w;
                           connection := connection w; hotStatus := hotStatus w;
                           hotHandlers := h |}) W.

(** *** The document *)

(** [document.querySelector('link[rel="R"][href^="U"]')] finds something, for
    a URL that can stand between the quotes of the selector.  An attribute
    selector with an empty prefix matches nothing. *)
Definition hasLink (r url : string) (W : World) : bool :=
  negb (String.eqb url "") &&
  existsb (fun l => String.eqb (rel l) r && startsWith (href l) url) (links (document W)).

(** [document.querySelector('script[src^="U"]')] finds something. *)
Definition hasScript (url : string) (W : World) : bool :=
  negb (String.eqb url "") &&
  existsb (fun s => startsWith (src s) url) (scripts (document W)).

(** *** Promises and the event emitter *)

Definition promiseState (W : World) (p : nat) : PromiseState :=
  default Pending (promises (runtime W) !! p).

(** [resolve] and [reject]: only a pending promise changes. *)
Definition settle (p : nat) (o : PromiseState) (W : World) : World :=
  match promises (runtime W) !! p with
  | Some Pending => set_promises (<[ p := o ]> (promises (runtime W))) W
  | _ => W
  end.

Definition listeners (W : World) (type : string) : list Listener :=
  default [] (pageRegisterEvents (this W) !! type).

(** [splice(indexOf(h) >>> 0, 1)]: the first occurrence goes, if there is one. *)
Fixpoint remove_first (h : Listener) (l : list Listener) : list Listener :=
  match l with
  | [] => []
  | x :: l' => if decide (x = h) then l' else x :: remove_first h l'
  end.

(** Modelled from the spec: the emitter of next-server/lib/mitt, which is not
    part of page-loader.js; a publish and subscribe channel keyed by route.
    [on] adds a subscriber to the key. *)
Definition on (type : string) (h : Listener) (W : World) : World :=
  set_events (<[ type := listeners W type ++ [h] ]> (pageRegisterEvents (this W))) W.

(** Modelled from the spec: the emitter's [off] removes that subscriber from
    the key. *)
Definition off (type : string) (h : Listener) (W : World) : World :=
  match pageRegisterEvents (this W) !! type with
  | Some l => set_events (<[ type := remove_first h l ]> (pageRegisterEvents (this W))) W
  | None => W
  end.

(** What an event does to the promise of a subscriber. *)
Definition outcome (evt : PageData) : PromiseState :=
  if truthy (error evt) then Rejected (error evt)
  else Resolved (page evt) (mod_ evt).

(** The listener [fire] of [loadPage]. *)
Definition fire (h : Listener) (evt : PageData) (W : World) : World :=
  let W := off (fire_route h) h W in
  let W := set_loading (loadingRoutes (this W) ∖ {[ fire_route h ]}) W in
  settle (fire_promise h) (outcome evt) W.

(** Modelled from the spec: the emitter's [emit] broadcasts the event, within
    the call, to every subscriber the key has when it starts, and returns
    nothing. *)
Definition emit (type : string) (evt : PageData) (W : World) : World :=
  let W' := set_emitted (emitted (runtime W) ++ [(type, evt)]) W in
  foldl (fun W h => fire h evt W) W' (listeners W type).

(** *** Elements *)

Definition appendLink (env : Env) (url r : string) (as' : option string) (W : World) : World :=
  set_links (links (document W) ++
    [{| href := url; rel := r; as_ := as'; link_crossOrigin := crossOrigin env |}]) W.

Definition loadScript (env : Env) (url route : string) (W : World) : World :=
  set_scripts (scripts (document W) ++
    [{| src := url; type_module := modernBuild env && hasNoModule env;
        script_crossOrigin := crossOrigin env; script_route := route |}]) W.

(** [script.onerror] *)
Definition scriptError (s : ScriptEl) (W : World) : World :=
  emit (script_route s)
    {| error := pageLoadError (src s); page := JUndefined; mod_ := JUndefined |} W.

Definition schedule (j : Job) (W : World) : World :=
  set_reactions (reactions (runtime W) ++ [j]) W.

(** *** Plain objects *)

(** The names of the properties every plain object inherits from
    [Object.prototype]: functions, and the prototype itself. *)
Definition objectPrototypeKeys : list string :=
  [ "constructor"; "hasOwnProperty"; "isPrototypeOf"; "propertyIsEnumerable";
    "toLocaleString"; "toString"; "valueOf"; "__proto__";
    "__defineGetter__"; "__defineSetter__"; "__lookupGetter__"; "__lookupSetter__" ].

Definition inherited (key : string) : bool :=
  existsb (String.eqb key) objectPrototypeKeys.

(** ** The page loader *)

Section PageLoader.
Context `{RouterUtils}.
Variables (env : Env) (buildId assetPrefix : string).

(** [new PageLoader(buildId, assetPrefix, initialPage)] in a given document
    and window. *)
Definition newPageLoader (initialPage : string) (doc : Document) (win : Window) : World :=
  {| this := {| pageCache := ∅;
                pageRegisterEvents := ∅;
                loadingRoutes :=
                  if String.eqb initialPage "/_error" then {[ "/_app" ]}
                  else {[ "/_app" ]} ∪ {[ initialPage ]} |};
     document := doc;
     window := win;
     runtime := {| promises := []; reactions := []; emitted := [] |} |}.

(** The function [getDependencies] hands to [promisedBuildManifest.then].
    The manifest is a plain object: under a name it does not hold itself,
    [m[route]] is the property it inherits, if there is one, which is truthy
    and has no [map], so that the call throws a TypeError.  [emit] returns
    nothing, so [emit(...) ?? []] is the empty list. *)
Definition getDependenciesThen (m : gmap string (list string)) (route : string)
    (W : World) : completion (World * list string) :=
  match m !! route with
  | Some urls =>
      Return (W, map (fun url => assetPrefix +:+ "/_next/" +:+ encodeURI url) urls)
  | None =>
      if inherited route then Throw JTypeError
      else
        Return
          (emit route {| error := pageLoadError route; page := JUndefined; mod_ := JUndefined |} W,
           [])
  end.

(** [getDependencies(route).then(...)]: the reaction waits for the manifest. *)
Definition getDependencies (route : string) (use : DepsUse) (W : World) : World :=
  schedule (GetDependenciesThen route use) W.

(** The body of [deps.forEach] in [loadPage]. *)
Definition injectDependency (route d : string) (W : World) : World :=
  let W := if endsWith d ".js" && negb (hasScript d W) then loadScript env d route W else W in
  if endsWith d ".css" && negb (hasLink "stylesheet" d W)
  then appendLink env d "stylesheet" None W
  else W.

(** The executor of the promise [loadPage] returns, for the promise [p]. *)
Definition loadPageExecutor (p : nat) (route : string) (W : World) : World :=
  match pageCache (this W) !! route with
  | Some cachedPage =>
      if truthy (error cachedPage) then settle p (Rejected (error cachedPage)) W
      else settle p (Resolved (page cachedPage) (mod_ cachedPage)) W
  | None =>
      (* [fire] is subscribed first; each branch writes it with the value
         [route] has when [fire] runs *)
      if decide (route ∈ loadingRoutes (this W)) then on route (Fire p route) W
      else if production env then
        let W := on route (Fire p route) W in
        let W := set_loading ({[ route ]} ∪ loadingRoutes (this W)) W in
        getDependencies route ForLoadPage W
      else
        (* development: [route] is assigned again, and [fire] reads it later *)
        match normalizeRoute route with
        | Return route' =>
            let W := on route (Fire p route') W in
            let W := set_loading ({[ route ]} ∪ loadingRoutes (this W)) W in
            let scriptRoute := getAssetPath route' in
            let url := assetPrefix +:+ "/_next/static/pages" +:+ encodeURI scriptRoute +:+ ".js" in
            loadScript env url route' W
        | Throw e =>
            (* an executor that throws rejects its promise *)
            let W := on route (Fire p route) W in
            let W := set_loading ({[ route ]} ∪ loadingRoutes (this W)) W in
            settle p (Rejected e) W
        end
  end.

(** [loadPage(route)]: the number of the promise it returns, and the world. *)
Definition loadPage (route : string) (W : World) : completion (nat * World) :=
  bind (normalizeRoute route) (fun route =>
    let p := length (promises (runtime W)) in
    let W := set_promises (promises (runtime W) ++ [Pending]) W in
    Return (p, loadPageExecutor p route W)).

(** The inner function [register] of [registerPage]; [regFn] is what calling
    the function gives. *)
Definition register (route : string) (regFn : completion JsVal) (W : World) : World :=
  match bind regFn (fun m =>
          bind (get_default m) (fun d =>
            Return {| error := JUndefined; page := if truthy d then d else m; mod_ := m |})) with
  | Return pageData =>
      emit route pageData (set_pageCache (<[ route := pageData ]> (pageCache (this W))) W)
  | Throw e =>
      let failure := {| error := e; page := JUndefined; mod_ := JUndefined |} in
      emit route failure (set_pageCache (<[ route := failure ]> (pageCache (this W))) W)
  end.

(** [module.hot && module.hot.status() !== 'idle'] *)
Definition hotBusy (W : World) : bool :=
  match hotStatus (window W) with
  | Some st => negb (String.eqb st "idle")
  | None => false
  end.

Definition registerPage (route : string) (regFn : completion JsVal) (W : World) : World :=
  if negb (production env) && hotBusy W
  then set_hotHandlers (hotHandlers (window W) ++ [(route, regFn)]) W
  else register route regFn W.

(** The status handler [check] that [registerPage] left as number [i], called
    with [status]. *)
Definition hotCheck (i : nat) (status : string) (W : World) : World :=
  match hotHandlers (window W) !! i with
  | Some (route, regFn) =>
      if String.eqb status "idle"
      then register route regFn (set_hotHandlers (delete i (hotHandlers (window W))) W)
      else W
  | None => W
  end.

(** [cn.saveData || /2g/.test(cn.effectiveType)] for a connection that is
    there. *)
Definition slowConnection (W : World) : bool :=
  match connection (window W) with
  | Some cn => saveData cn || test (lit "2g") (effectiveType cn)
  | None => false
  end.

(** The [url] of [prefetch]: [None] is [undefined]. *)
Definition prefetchUrl (route : string) (isDependency : bool) : completion (option string) :=
  if isDependency then Return (Some route)
  else if negb (production env) then
    bind (normalizeRoute route) (fun route =>
      let scriptRoute := getAssetPath route in
      let ext := if modernBuild env && hasNoModule env then ".module.js" else ".js" in
      Return (Some (assetPrefix +:+ "/_next/static/" +:+ encodeURIComponent buildId
                    +:+ "/pages" +:+ encodeURI scriptRoute +:+ ext)))
  else Return None.

(** [prefetch(route, isDependency)].  The promise it returns is not followed:
    it resolves whatever happens to the link. *)
Definition prefetch (route : string) (isDependency : bool) (W : World) : completion World :=
  if slowConnection W then Return W
  else
    bind (prefetchUrl route isDependency) (fun url =>
      if hasLink (relPrefetch env) (default "undefined" url) W then Return W
      else
        let W :=
          match url with
          | Some u =>
              if String.eqb u "" then W
              else appendLink env u (relPrefetch env)
                     (Some (if endsWith u ".css" then "style" else "script")) W
          | None => W
          end in
        Return (if production env && negb isDependency
                then getDependencies route ForPrefetch W
                else W)).

(** [urls.map(dependencyUrl => this.prefetch(dependencyUrl, true))] *)
Fixpoint prefetchAll (urls : list string) (W : World) : World :=
  match urls with
  | [] => W
  | u :: urls' =>
      match prefetch u true W with
      | Return W' => prefetchAll urls' W'
      | Throw _ => W
      end
  end.

(** The function [prefetchData] hands to [promisedSsgManifest.then]. *)
Definition prefetchDataThen (s : gset string) (href asPath route : string)
    (W : World) : World :=
  if decide (route ∈ s) then
    match getDataHref assetPrefix buildId href asPath with
    | Return dataHref =>
        if String.eqb dataHref "" then W
        else if hasLink (relPrefetch env) dataHref W then W
        else appendLink env dataHref (relPrefetch env) (Some "fetch") W
    | Throw _ => W
    end
  else W.

Definition prefetchData (href asPath : string) (W : World) : completion World :=
  bind (normalizeRoute (pathname (parse href))) (fun route =>
    Return (schedule (PrefetchDataThen href asPath route) W)).

(** *** Reactions *)

(** Run a reaction whose promise is fulfilled; [None] when it still waits.
    When the function of [getDependencies] throws, the promise it returns is
    rejected: the function [loadPage] chained to it does not run, and
    [prefetch] swallows the rejection. *)
Definition runJob (j : Job) (W : World) : option World :=
  match j with
  | GetDependenciesThen route use =>
      match buildManifest (window W) with
      | Some m =>
          match getDependenciesThen m route W with
          | Return (W, deps) =>
              Some (schedule (match use with
                              | ForLoadPage => InjectDependencies deps route
                              | ForPrefetch => PrefetchDependencies deps
                              end) W)
          | Throw _ => Some W
          end
      | None => None
      end
  | InjectDependencies deps route =>
      Some (foldl (fun W d => injectDependency route d W) W deps)
  | PrefetchDependencies urls => Some (prefetchAll urls W)
  | PrefetchDataThen href asPath route =>
      match ssgManifest (window W) with
      | Some s => Some (prefetchDataThen s href asPath route W)
      | None => None
      end
  end.

(** *** What can happen *)

Inductive Event :=
| LoadPage (route : string)
| RegisterPage (route : string) (regFn : completion JsVal)
| Prefetch (route : string) (isDependency : bool)
| PrefetchData (href asPath : string)
| ScriptError (i : nat)                 (* the [onerror] of script [i] *)
| RunReaction (i : nat)                 (* reaction [i] of the queue runs *)
| BuildManifestReady (m : gmap string (list string))
| SsgManifestReady (s : gset string)
| NetworkChange (cn : option Connection)
| HotStatus (status : string)           (* [module.hot.status()] changes *)
| HotCheck (i : nat) (status : string). (* a status handler is called *)

(** A call that throws leaves the world as it was. *)
Definition step (W : World) (ev : Event) : World :=
  match ev with
  | LoadPage route =>
      match loadPage route W with Return (_, W') => W' | Throw _ => W end
  | RegisterPage route regFn => registerPage route regFn W
  | Prefetch route isDependency =>
      match prefetch route isDependency W with Return W' => W' | Throw _ => W end
  | PrefetchData href asPath =>
      match prefetchData href asPath W with Return W' => W' | Throw _ => W end
  | ScriptError i =>
      match scripts (document W) !! i with
      | Some s => scriptError s W
      | None => W
      end
  | RunReaction i =>
      match reactions (runtime W) !! i with
      | Some j =>
          match runJob j (set_reactions (delete i (reactions (runtime W))) W) with
          | Some W' => W'
          | None => W
          end
      | None => W
      end
  | BuildManifestReady m =>
      match buildManifest (window W) with
      | None => set_buildManifest (Some m) W
      | Some _ => W
      end
  | SsgManifestReady s =>
      match ssgManifest (window W) with
      | None => set_ssgManifest (Some s) W
      | Some _ => W
      end
  | NetworkChange cn => set_connection cn W
  | HotStatus status =>
      match hotStatus (window W) with
      | Some _ => set_hotStatus (Some status) W
      | None => W
      end
  | HotCheck i status => hotCheck i status W
  end.

Definition run (W : World) (evs : list Event) : World := foldl step W evs.

(** [n] calls of [loadPage(route)] in a row: the promises they return. *)
Fixpoint loadPages (n : nat) (route : string) (W : World) : completion (list nat * World) :=
  match n with
  | 0 => Return ([], W)
  | S n' =>
      bind (loadPage route W) (fun '(p, W1) =>
        bind (loadPages n' route W1) (fun '(ps, W2) => Return (p :: ps, W2)))
  end.

End PageLoader.

(** ** Vocabulary of the properties *)

(** [route] is [/index] or goes on with a slash after it. *)
Definition indexSegment (route : string) : Prop :=
  route = "/index" \/ exists rest, route = "/index/" +:+ rest.

(** A route written out: texts, and the places of its groups. *)
Inductive Piece :=
| Text (s : string)
| Slot (param : string) (g : Group).

(** The route the pieces spell. *)
Fixpoint template (ps : list Piece) : string :=
  match ps with
  | [] => ""
  | Text s :: ps' => s +:+ template ps'
  | Slot param g :: ps' => replaced param g +:+ template ps'
  end.

(** The groups of the pieces, in the order they stand in the route. *)
Fixpoint slots (ps : list Piece) : list (string * Group) :=
  match ps with
  | [] => []
  | Text _ :: ps' => slots ps'
  | Slot param g :: ps' => (param, g) :: slots ps'
  end.

(** The pieces with every group replaced by what its value stands for. *)
Fixpoint filled (m : gmap string ParamValue) (ps : list Piece) : string :=
  match ps with
  | [] => ""
  | Text s :: ps' => s +:+ filled m ps'
  | Slot param g :: ps' =>
      match m !! param with
      | Some value => replacement g value
      | None => ""
      end +:+ filled m ps'
  end.

(** No text of the pieces holds an opening bracket: the brackets of the
    route are those of its groups. *)
Definition plain (ps : list Piece) : Prop :=
  forall s, Text s ∈ ps -> inString "[" s = false.

(** A broadcast to the listeners [L]. *)
Definition fireAll (L : list Listener) (evt : PageData) (W : World) : World :=
  foldl (fun W h => fire h evt W) W L.

(** The cache, the listeners and the promises are the same in both worlds. *)
Definition calm (W W' : World) : Prop :=
  pageCache (this W') = pageCache (this W) /\
  pageRegisterEvents (this W') = pageRegisterEvents (this W) /\
  promises (runtime W') = promises (runtime W).

(** The listeners and the promises are the same in both worlds. *)
Definition quiet (W W' : World) : Prop :=
  pageRegisterEvents (this W') = pageRegisterEvents (this W) /\
  promises (runtime W') = promises (runtime W).

(** Between [W] and [W'] one load of the route [r] was started, and nothing
    else was queued or injected: in production one call of [getDependencies],
    otherwise one script for the page. *)
Definition issued (env : Env) (assetPrefix r : string) (W W' : World) : Prop :=
  if production env then
    reactions (runtime W') = reactions (runtime W) ++ [GetDependenciesThen r ForLoadPage] /\
    document W' = document W
  else
    reactions (runtime W') = reactions (runtime W) /\
    links (document W') = links (document W) /\
    exists r2, normalizeRoute r = Return r2 /\
      scripts (document W') = scripts (document W) ++
        [{| src := assetPrefix +:+ "/_next/static/pages" +:+ encodeURI (getAssetPath r2) +:+ ".js";
            type_module := modernBuild env && hasNoModule env;
            script_crossOrigin := crossOrigin env;
            script_route := r2 |}].

(** The cache entry [register] writes for what [regFn] gives. *)
Definition entryOf (regFn : completion JsVal) : PageData :=
  match bind regFn (fun m =>
          bind (get_default m) (fun d =>
            Return {| error := JUndefined; page := if truthy d then d else m; mod_ := m |})) with
  | Return pageData => pageData
  | Throw e => {| error := e; page := JUndefined; mod_ := JUndefined |}
  end.

(** The registration an event carries out in a world, if it does: a call of
    [registerPage] that is not put off, or the status handler of one that
    was, called with the idle status. *)
Definition registration (env : Env) (W : World) (ev : Event)
    : option (string * completion JsVal) :=
  match ev with
  | RegisterPage route regFn =>
      if negb (production env) && hotBusy W then None else Some (route, regFn)
  | HotCheck i status =>
      match hotHandlers (window W) !! i with
      | Some (route, regFn) => if String.eqb status "idle" then Some (route, regFn) else None
      | None => None
      end
  | _ => None
  end.

Section Vocabulary.
Context `{RouterUtils}.
Variables (env : Env) (buildId assetPrefix : string).

(** None of the events registers [route]. *)
Fixpoint noRegistration (route : string) (W : World) (evs : list Event) : bool :=
  match evs with
  | [] => true
  | ev :: evs' =>
      match registration env W ev with
      | Some (r, _) => negb (String.eqb r route)
      | None => true
      end && noRegistration route (step env buildId assetPrefix W ev) evs'
  end.

End Vocabulary.

(** Every listener belongs to a promise that has been created. *)
Definition wf (W : World) : Prop :=
  forall k h, h ∈ listeners W k -> fire_promise h < length (promises (runtime W)).

(** The promises [P] all wait under the key [k], and under no other key. *)
Definition waiting (k : string) (P : list nat) (W : World) : Prop :=
  (forall k' h, h ∈ listeners W k' -> fire_promise h ∈ P -> k' = k) /\
  (forall p, p ∈ P ->
     promises (runtime W) !! p = Some Pending /\
     exists h, h ∈ listeners W k /\ fire_promise h = p).

(** The promises [P] share their fate: they all wait under [k], or they are
    all settled the same way. *)
Definition together (k : string) (P : list nat) (W : World) : Prop :=
  (forall p, p ∈ P -> p < length (promises (runtime W))) /\
  (waiting k P W \/ exists o, o <> Pending /\ forall p, p ∈ P -> promiseState W p = o).

(** ** A browser to run examples in *)

Module Example.

Definition prodEnv : Env :=
  {| production := true; modernBuild := false; crossOrigin := None;
     supportsPreload := true; supportsPrefetch := true; hasNoModule := true |}.

Definition devEnv : Env :=
  {| production := false; modernBuild := false; crossOrigin := None;
     supportsPreload := true; supportsPrefetch := true; hasNoModule := true |}.

Definition emptyDocument : Document := {| links := []; scripts := [] |}.

Definition emptyWindow : Window :=
  {| buildManifest := None; ssgManifest := None; connection := None;
     hotStatus := None; hotHandlers := [] |}.

(** A loader whose initial page is the root, before anything happened. *)
Definition world0 : World := newPageLoader "/" emptyDocument emptyWindow.

(** Events in a loader of build id [build] and empty asset prefix, the
    router utilities being those of the description. *)
Definition stepIn (env : Env) : World -> Event -> World :=
  step (H := SpecRouter.specRouter) env "build" "".

Definition runIn (env : Env) : World -> list Event -> World :=
  run (H := SpecRouter.specRouter) env "build" "".

Definition moduleA : JsVal := JObject 1 JUndefined.
Definition moduleB : JsVal := JObject 2 JUndefined.

End Example.

(** ** Vocabulary of the further properties *)

(** Every listener is subscribed under the route its [fire] reads. *)
Definition keyed (W : World) : Prop :=
  forall k h, h ∈ listeners W k -> fire_route h = k.

(** A route that has listeners is marked as loading. *)
Definition marked (W : World) : Prop :=
  forall k, listeners W k <> [] -> k ∈ loadingRoutes (this W).

(** Every pending promise has its listener. *)
Definition attached (W : World) : Prop :=
  forall p, promises (runtime W) !! p = Some Pending ->
            exists k h, h ∈ listeners W k /\ fire_promise h = p.

(** The listeners, the loading marks and the promises are the same in both
    worlds. *)
Definition still (W W' : World) : Prop :=
  pageRegisterEvents (this W') = pageRegisterEvents (this W) /\
  loadingRoutes (this W') = loadingRoutes (this W) /\
  promises (runtime W') = promises (runtime W).

(** The document holds an element for every script and style sheet of the
    dependencies. *)
Definition injected (deps : list string) (W : World) : Prop :=
  forall d, d ∈ deps ->
    (endsWith d ".js" = true -> hasScript d W = true) /\
    (endsWith d ".css" = true -> hasLink "stylesheet" d W = true).

(** [deps.forEach(...)] of [loadPage]. *)
Definition injectDependencies (env : Env) (route : string) (deps : list string)
    (W : World) : World :=
  foldl (fun W d => injectDependency env route d W) W deps.

(** The links of [W'] are those of [W] and at most one more, and nothing else
    of the document differs. *)
Definition oneMoreLink (W W' : World) : Prop :=
  scripts (document W') = scripts (document W) /\
  exists l, links (document W') = links (document W) ++ l /\ length l <= 1.

#[local] Arguments String.append : simpl nomatch.

(** * Properties *)

(** ** Strings *)

Lemma append_empty_r (s : string) : s +:+ "" = s.
Proof. induction s as [|c s IH]; simpl; congruence. Qed.

Lemma append_assoc (a b c : string) : (a +:+ b) +:+ c = a +:+ b +:+ c.
Proof. induction a as [|x a IH]; simpl; congruence. Qed.

Lemma stripPrefix_app (p s : string) : stripPrefix p (p +:+ s) = Some s.
Proof.
  induction p as [|c p IH]; simpl; [reflexivity |].
  now rewrite Ascii.eqb_refl.
Qed.

Lemma stripPrefix_Some (p s t : string) : stripPrefix p s = Some t -> s = p +:+ t.
Proof.
  revert s; induction p as [|c p IH]; intros s; simpl.
  - now intros [= ->].
  - destruct s as [|d s]; [discriminate |].
    destruct (Ascii.eqb_spec c d) as [->|]; [|discriminate].
    intros Hs. now rewrite (IH _ Hs).
Qed.

Lemma startsWith_spec (s p : string) : startsWith s p = true <-> exists t, s = p +:+ t.
Proof.
  unfold startsWith. split.
  - destruct (stripPrefix p s) as [t|] eqn:E; [|discriminate].
    intros _. exists t. now apply stripPrefix_Some.
  - intros [t ->]. now rewrite stripPrefix_app.
Qed.

Lemma endsWith_app (t suf : string) : endsWith (t +:+ suf) suf = true.
Proof.
  induction t as [|c t IH]; simpl.
  - destruct suf; simpl; rewrite ?Ascii.eqb_refl, ?String.eqb_refl; reflexivity.
  - rewrite IH. apply orb_true_r.
Qed.

Lemma endsWith_inv (s suf : string) : endsWith s suf = true -> exists t, s = t +:+ suf.
Proof.
  induction s as [|c s IH]; cbn [endsWith].
  - rewrite orb_false_r. intros E%String.eqb_eq. exists "". now subst.
  - intros [E%String.eqb_eq | E]%orb_true_iff.
    + exists "". now rewrite <- E.
    + destruct (IH E) as [t ->]. now exists (String c t).
Qed.

Lemma endsWith_spec (s suf : string) : endsWith s suf = true <-> exists t, s = t +:+ suf.
Proof.
  split; [apply endsWith_inv |]. intros [t ->]. apply endsWith_app.
Qed.

Lemma append_snoc_inv (p r t : string) (c : ascii) :
  r <> "" -> p +:+ r = t +:+ String c "" ->
  exists r', r = r' +:+ String c "" /\ t = p +:+ r'.
Proof.
  intros Hr. revert t. induction p as [|x p IH]; intros t; simpl.
  - intros ->. now exists t.
  - destruct t as [|y t]; simpl.
    + intros [= -> E]. destruct p; [simpl in E; congruence | discriminate].
    + intros [= -> E]. destruct (IH _ E) as (r' & -> & ->). now exists r'.
Qed.

(** ** The regular expressions of the loader *)

Lemma search_trailing_app (t : string) (b : bool) :
  search reTrailingSlash b (t +:+ "/") = Some (t, "").
Proof.
  revert b. induction t as [|c t IH]; intros b; [reflexivity |].
  cbn [String.append search reTrailingSlash rmatch].
  destruct (Ascii.eqb "/" c).
  - destruct t; cbn [String.append]; now rewrite IH.
  - now rewrite IH.
Qed.

Lemma search_trailing_none (s : string) (b : bool) :
  endsWith s "/" = false -> search reTrailingSlash b s = None.
Proof.
  revert b. induction s as [|c s IH]; intros b; [reflexivity |].
  cbn [endsWith]. intros [E1 E2]%orb_false_iff.
  cbn [search reTrailingSlash rmatch].
  rewrite (IH false E2).
  destruct (Ascii.eqb_spec "/" c) as [<-|]; [|reflexivity].
  destruct s; [discriminate | reflexivity].
Qed.

Lemma replace_trailing_app (t : string) : replace reTrailingSlash (t +:+ "/") "" = t.
Proof. unfold replace. rewrite search_trailing_app. simpl. apply append_empty_r. Qed.

Lemma replace_trailing_none (s : string) :
  endsWith s "/" = false -> replace reTrailingSlash s "" = s.
Proof. intros E. unfold replace. now rewrite search_trailing_none. Qed.

Lemma rmatch_lit (l : string) (b : bool) (s : string) k :
  rmatch (lit l) b s k =
  match stripPrefix l s with
  | Some rest => k (match l with "" => b | _ => false end) rest
  | None => None
  end.
Proof.
  revert b s. induction l as [|c l IH]; intros b s; [reflexivity |].
  cbn [lit rmatch stripPrefix]. destruct s as [|d s]; [reflexivity |].
  destruct (Ascii.eqb c d); [|reflexivity].
  rewrite IH. destruct (stripPrefix l s); [|reflexivity]. now destruct l.
Qed.

Lemma search_bol_later (r : regex) (s : string) : search (Cat Bol r) false s = None.
Proof. induction s as [|c s IH]; cbn [search rmatch]; [reflexivity | now rewrite IH]. Qed.

Lemma test_reIndex (route : string) : test reIndex route = true <-> indexSegment route.
Proof.
  unfold test, reIndex, indexSegment.
  assert (E : search (Cat Bol (Cat (lit "/index") (Alt (Chr "/") Eol))) true route =
              match stripPrefix "/index" route with
              | Some "" => Some ("", "")
              | Some (String "/" rest) => Some ("", rest)
              | _ => None
              end).
  { destruct route as [|c s]; [reflexivity |].
    cbn [search]. rewrite search_bol_later.
    cbn [rmatch]. rewrite rmatch_lit.
    destruct (stripPrefix "/index" (String c s)) as [rest|]; [|reflexivity].
    cbn [rmatch]. destruct rest as [|d rest]; [reflexivity |].
    destruct (Ascii.eqb_spec "/" d) as [<-|Hd]; [reflexivity |].
    destruct d as [[] [] [] [] [] [] [] []]; try reflexivity. now contradict Hd. }
  rewrite E. split.
  - destruct (stripPrefix "/index" route) as [rest|] eqn:Hp; [|discriminate].
    apply stripPrefix_Some in Hp. subst route.
    destruct rest as [|d rest]; [now left |].
    destruct (Ascii.eqb_spec "/" d) as [<-|Hd].
    + intros _. right. now exists rest.
    + destruct d as [[] [] [] [] [] [] [] []]; try discriminate. now contradict Hd.
  - intros [-> | [rest ->]]; reflexivity.
Qed.

(** ** Route normalisation *)

Lemma normalizeRoute_slash : normalizeRoute "/" = Return "/".
Proof. reflexivity. Qed.

Lemma normalizeRoute_Return (s r : string) :
  normalizeRoute s = Return r -> exists t, s = String "/" t.
Proof.
  destruct s as [|c t]; [discriminate |].
  destruct (Ascii.eqb_spec c "/") as [->|Hc]; [now exists t |].
  unfold normalizeRoute.
  destruct c as [[] [] [] [] [] [] [] []]; try discriminate. now contradict Hc.
Qed.

Lemma normalizeRoute_Throw (s : string) :
  (forall t, s <> String "/" t) -> normalizeRoute s = Throw (invalidRouteError s).
Proof.
  intros Hs. destruct s as [|c t]; [reflexivity |].
  destruct (Ascii.eqb_spec c "/") as [->|Hc]; [now destruct (Hs t) |].
  unfold normalizeRoute.
  destruct c as [[] [] [] [] [] [] [] []]; try reflexivity. now contradict Hc.
Qed.

(** A route with one trailing slash loses it. *)
Lemma normalizeRoute_snoc (t : string) :
  t <> "" -> normalizeRoute (String "/" t) = Return (replace reTrailingSlash (String "/" t) "").
Proof.
  intros Ht. unfold normalizeRoute.
  destruct (String.eqb_spec (String "/" t) "/") as [E|_]; [|reflexivity].
  congruence.
Qed.

Lemma normalizeRoute_strip (t : string) :
  t <> "" -> normalizeRoute (t +:+ "/") =
             match t with String "/" _ => Return t | _ => Throw (invalidRouteError (t +:+ "/")) end.
Proof.
  intros Ht. destruct t as [|c t]; [congruence |].
  destruct (Ascii.eqb_spec c "/") as [->|Hc].
  - change (String "/" t +:+ "/") with (String "/" (t +:+ "/")).
    rewrite normalizeRoute_snoc by (destruct t; discriminate).
    change (String "/" (t +:+ "/")) with (String "/" t +:+ "/").
    now rewrite replace_trailing_app.
  - rewrite normalizeRoute_Throw.
    + destruct c as [[] [] [] [] [] [] [] []]; try reflexivity. now contradict Hc.
    + intros u [= E _]. congruence.
Qed.

Lemma normalizeRoute_fixed (s : string) :
  endsWith s "/" = false -> normalizeRoute s =
    match s with String "/" _ => Return s | _ => Throw (invalidRouteError s) end.
Proof.
  intros E. destruct s as [|c t]; [reflexivity |].
  destruct (Ascii.eqb_spec c "/") as [->|Hc].
  - rewrite normalizeRoute_snoc by (destruct t; [discriminate | discriminate]).
    now rewrite replace_trailing_none.
  - rewrite normalizeRoute_Throw.
    + destruct c as [[] [] [] [] [] [] [] []]; try reflexivity. now contradict Hc.
    + intros u [= E' _]. congruence.
Qed.

Lemma startsWith_slash (s : string) : startsWith s "/" = true <-> exists t, s = String "/" t.
Proof. rewrite startsWith_spec. reflexivity. Qed.

Lemma startsWith_slash_false (s : string) :
  startsWith s "/" = false <-> forall t, s <> String "/" t.
Proof.
  rewrite <- not_true_iff_false, startsWith_slash. split.
  - intros Hn t E. apply Hn. now exists t.
  - intros Hn [t E]. now apply (Hn t).
Qed.

Lemma endsWith_snoc2 (u : string) : endsWith (u +:+ "/") "//" = endsWith u "/".
Proof.
  induction u as [|c u IH]; [reflexivity |].
  change (String c u +:+ "/") with (String c (u +:+ "/")).
  cbn [endsWith]. rewrite IH. f_equal.
  cbn [String.eqb]. destruct (Ascii.eqb c "/"); [|reflexivity].
  destruct u as [|d u]; [reflexivity |].
  change (String d u +:+ "/") with (String d (u +:+ "/")).
  cbn [String.eqb]. destruct (Ascii.eqb d "/"); [|reflexivity]. now destruct u.
Qed.

Lemma append_nonempty_neq (s x : string) : x <> "" -> s <> s +:+ x.
Proof.
  intros Hx. induction s as [|c s IH]; cbn; [congruence |].
  intros [= E]. now apply IH.
Qed.

Lemma append_snoc_inj (s t : string) (c : ascii) :
  s +:+ String c "" = t +:+ String c "" -> s = t.
Proof.
  revert t; induction s as [|x s IH]; intros [|y t]; cbn; intros E.
  - reflexivity.
  - injection E as -> E. destruct t; discriminate.
  - injection E as -> E. destruct s; discriminate.
  - injection E as -> E. f_equal. now apply IH.
Qed.

Lemma snoc_starts_slash (u t : string) :
  u <> "" -> u +:+ "/" = String "/" t -> exists u', u = String "/" u'.
Proof. destruct u as [|c u]; [congruence |]. intros _ [= -> _]. now exists u. Qed.

Lemma normalizeRoute_slash_Return (t : string) :
  exists r, normalizeRoute (String "/" t) = Return r.
Proof. unfold normalizeRoute. destruct (String.eqb _ _); eauto. Qed.

(** What [normalizeRoute] returns begins with a slash, so it can be
    normalised again. *)
Lemma normalizeRoute_twice (s r : string) :
  normalizeRoute s = Return r -> exists r2, normalizeRoute r = Return r2.
Proof.
  intros Hn. destruct (normalizeRoute_Return _ _ Hn) as [t ->].
  destruct (decide (t = "")) as [->|Ht].
  { injection Hn as <-. apply normalizeRoute_slash_Return. }
  destruct (endsWith (String "/" t) "/") eqn:E1.
  - destruct (endsWith_inv _ _ E1) as [u Hu].
    assert (Hu0 : u <> "") by (intros ->; cbn in Hu; congruence).
    destruct (snoc_starts_slash u t Hu0 (eq_sym Hu)) as [u' Hu'].
    rewrite Hu, normalizeRoute_strip in Hn by assumption.
    rewrite Hu' in Hn. injection Hn as <-. apply normalizeRoute_slash_Return.
  - rewrite normalizeRoute_fixed in Hn by assumption.
    injection Hn as <-. apply normalizeRoute_slash_Return.
Qed.

(** ** C8: the invalid route error *)

(** C8. [normalizeRoute] throws exactly when its input does not begin with a
    slash, the empty string included, and what it throws is the invalid route
    error; every input that begins with a slash returns normally. *)
Theorem normalizeRoute_throws_iff (s : string) :
  (is_throw (normalizeRoute s) = true <-> startsWith s "/" = false) /\
  (startsWith s "/" = false -> normalizeRoute s = Throw (invalidRouteError s)) /\
  (startsWith s "/" = true -> exists r, normalizeRoute s = Return r) /\
  is_throw (normalizeRoute "") = true.
Proof.
  assert (Hok : startsWith s "/" = true -> exists r, normalizeRoute s = Return r).
  { intros [t ->]%startsWith_slash. apply normalizeRoute_slash_Return. }
  assert (Hko : startsWith s "/" = false -> normalizeRoute s = Throw (invalidRouteError s)).
  { intros Hs. apply normalizeRoute_Throw. now apply startsWith_slash_false. }
  repeat split; try assumption.
  - destruct (startsWith s "/") eqn:E; [|reflexivity].
    destruct (Hok eq_refl) as [r Hr]. rewrite Hr. discriminate.
  - intros E. now rewrite (Hko E).
Qed.

(** The route [about] is refused and [/about/] is accepted. *)
Lemma normalizeRoute_throws_iff_witness :
  normalizeRoute "about" = Throw (invalidRouteError "about") /\
  exists r, normalizeRoute "/about/" = Return r.
Proof.
  split.
  - apply (proj1 (proj2 (normalizeRoute_throws_iff "about"))). reflexivity.
  - apply (proj1 (proj2 (proj2 (normalizeRoute_throws_iff "/about/")))). reflexivity.
Defined.

(** ** C3: normalising twice *)

(** C3, as stated, fails: a route with two trailing slashes loses one of them
    at each normalisation. *)
Lemma normalizeRoute_not_idempotent :
  ~ (forall s : string, startsWith s "/" = true ->
       bind (normalizeRoute s) normalizeRoute = normalizeRoute s).
Proof. intros Hall. specialize (Hall "/foo//" eq_refl). discriminate Hall. Qed.

(** C3, amended. For a string that begins with a slash, normalising twice
    equals normalising once exactly when the string does not end with two
    slashes, or is the two slashes themselves. *)
Theorem normalizeRoute_idempotent_iff (t : string) :
  bind (normalizeRoute (String "/" t)) normalizeRoute = normalizeRoute (String "/" t) <->
  (endsWith (String "/" t) "//" = false \/ t = "/").
Proof.
  destruct (decide (t = "")) as [->|Ht]; [split; [now left | reflexivity] |].
  destruct (endsWith (String "/" t) "/") eqn:E1.
  - destruct (endsWith_inv _ _ E1) as [u Hu].
    assert (Hu0 : u <> "") by (intros ->; cbn in Hu; congruence).
    destruct (snoc_starts_slash u t Hu0 (eq_sym Hu)) as [u' Hu'].
    rewrite Hu, endsWith_snoc2, normalizeRoute_strip by assumption.
    rewrite Hu'. cbn [bind]. rewrite <- Hu'.
    destruct (endsWith u "/") eqn:E2.
    + destruct (endsWith_inv _ _ E2) as [v Hv].
      destruct (decide (v = "")) as [->|Hv0].
      * assert (Eu : u = "/") by now rewrite Hv.
        assert (Et : t = "/") by (rewrite Eu in Hu; cbn in Hu; congruence).
        rewrite Eu, Et. split; [now right | reflexivity].
      * destruct (snoc_starts_slash v u' Hv0) as [v' Hv']; [congruence |].
        rewrite Hv, normalizeRoute_strip by assumption. rewrite Hv'.
        split.
        -- intros Hx. exfalso.
           assert (Hy : String "/" v' = String "/" v' +:+ "/") by congruence.
           now apply append_nonempty_neq in Hy.
        -- intros [? | ->]; [discriminate |].
           exfalso. rewrite Hv in Hu.
           destruct v as [|? [|? [|? ?]]]; cbn in Hu; congruence.
    + rewrite normalizeRoute_fixed by assumption. rewrite Hu'.
      split; [now left | reflexivity].
  - rewrite normalizeRoute_fixed by assumption. cbn [bind].
    rewrite normalizeRoute_fixed by assumption.
    split; [|reflexivity]. intros _. left.
    destruct (endsWith (String "/" t) "//") eqn:E2; [|reflexivity].
    destruct (endsWith_inv _ _ E2) as [v Hv].
    rewrite Hv in E1. change "//" with ("/" +:+ "/") in E1.
    rewrite <- append_assoc, endsWith_app in E1. discriminate.
Qed.

(** ** C9: asset paths *)

(** C9. [getAssetPath] maps the root route to [/index]; a route that begins
    with the segment [/index] gets [/index] put before it; every other route
    is returned as it is.  A route begins with that segment exactly when its
    normalised form does. *)
Theorem getAssetPath_cases (route : string) :
  getAssetPath "/" = "/index" /\
  (indexSegment route -> getAssetPath route = "/index" +:+ route) /\
  (route <> "/" -> ~ indexSegment route -> getAssetPath route = route) /\
  (forall n, normalizeRoute route = Return n -> (indexSegment n <-> indexSegment route)) /\
  getAssetPath "/index/foo" = "/index/index/foo" /\
  getAssetPath "/foo" = "/foo".
Proof.
  split; [reflexivity |]. split; [|split; [|split; [|split; reflexivity]]].
  - intros Hi. unfold getAssetPath.
    destruct (String.eqb_spec route "/") as [->|_].
    + destruct Hi as [? | [? ?]]; discriminate.
    + now rewrite (proj2 (test_reIndex route) Hi).
  - intros Hr Hi. unfold getAssetPath.
    destruct (String.eqb_spec route "/") as [?|_]; [contradiction |].
    destruct (test reIndex route) eqn:E; [|reflexivity].
    now apply test_reIndex in E.
  - intros n Hn.
    destruct (normalizeRoute_Return _ _ Hn) as [t ->].
    destruct (decide (t = "")) as [->|Ht]; [now injection Hn as <- |].
    destruct (endsWith (String "/" t) "/") eqn:E1.
    + destruct (endsWith_inv _ _ E1) as [u Hu].
      assert (Hu0 : u <> "") by (intros ->; cbn in Hu; congruence).
      destruct (snoc_starts_slash u t Hu0 (eq_sym Hu)) as [u' Hu'].
      rewrite Hu, normalizeRoute_strip in Hn by assumption.
      rewrite Hu' in Hn. injection Hn as <-. rewrite Hu, <- Hu'.
      unfold indexSegment. split.
      * intros [-> | [rest ->]]; right; [now exists "" |].
        exists (rest +:+ "/"). now rewrite append_assoc.
      * intros [E | [rest E]].
        { exfalso. clear -E Hu0. destruct u as [|? [|? [|? [|? [|? [|? [|? ?]]]]]]]; cbn in E; congruence. }
        destruct (decide (rest = "")) as [->|Hr].
        { left. apply (append_snoc_inj u "/index" "/"). exact E. }
        destruct (append_snoc_inv "/index/" rest u "/" Hr (eq_sym E)) as (r' & _ & ->).
        right. now exists r'.
    + rewrite normalizeRoute_fixed in Hn by assumption. now injection Hn as <-.
Qed.

(** An index route, another route, and the normalised form of [/index/]. *)
Lemma getAssetPath_cases_witness :
  getAssetPath "/index/foo/bar" = "/index" +:+ "/index/foo/bar" /\
  getAssetPath "/about" = "/about" /\
  (indexSegment "/index" <-> indexSegment "/index/").
Proof.
  split; [|split].
  - apply (proj1 (proj2 (getAssetPath_cases "/index/foo/bar"))).
    right. now exists "foo/bar".
  - apply (proj1 (proj2 (proj2 (getAssetPath_cases "/about")))); [discriminate |].
    intros [? | [? ?]]; discriminate.
  - apply (proj1 (proj2 (proj2 (proj2 (getAssetPath_cases "/index/")))) "/index").
    reflexivity.
Defined.

(** ** C7: data hrefs of dynamic routes *)

Lemma inString_percentEncode_dollar (c : ascii) : inString "$" (percentEncode c) = false.
Proof.
  unfold percentEncode. cbn [inString]. rewrite !orb_false_r.
  assert (Hh : forall n, n < 16 -> Ascii.eqb "$" (hexDigit n) = false).
  { intros n Hn. do 16 (destruct n as [|n]; [reflexivity |]). lia. }
  rewrite !Hh; [reflexivity | |].
  - apply Nat.mod_upper_bound. discriminate.
  - apply Nat.Div0.div_lt_upper_bound. pose proof (nat_ascii_bounded c). lia.
Qed.

Lemma inString_app (c : ascii) (a b : string) :
  inString c (a +:+ b) = inString c a || inString c b.
Proof.
  induction a as [|x a IH]; [reflexivity |].
  cbn [String.append inString]. now rewrite IH, orb_assoc.
Qed.

(** What [encodeURIComponent] returns holds no dollar sign, so a replacement
    built from it is taken literally by [String.prototype.replace]. *)
Lemma encodeURIComponent_no_dollar (s : string) :
  inString "$" (encodeURIComponent s) = false.
Proof.
  unfold encodeURIComponent.
  induction s as [|c s IH]; [reflexivity |].
  cbn [encodeWith]. rewrite inString_app, IH, orb_false_r.
  destruct (isAlnum c || inString c uriMark) eqn:E.
  - cbn [inString]. rewrite orb_false_r.
    destruct (Ascii.eqb_spec "$" c) as [<-|]; [discriminate E | reflexivity].
  - apply inString_percentEncode_dollar.
Qed.

(** A pattern that opens with a bracket is first found after a text that
    holds no bracket. *)
Lemma replace_first_after_plain (pre pat post repl : string) :
  inString "[" pre = false ->
  replace_first (pre +:+ String "[" (pat +:+ post)) (String "[" pat) repl
  = pre +:+ repl +:+ post.
Proof.
  induction pre as [|c pre IH]; intros Hp.
  - cbn [String.append replace_first].
    change (String "[" (pat +:+ post)) with (String "[" pat +:+ post).
    now rewrite stripPrefix_app.
  - cbn [inString] in Hp. apply orb_false_iff in Hp as [Hc Hp].
    cbn [String.append replace_first stripPrefix]. rewrite Hc. now rewrite IH.
Qed.

Lemma isAlnum_hexDigit (n : nat) : isAlnum (hexDigit n) = true.
Proof. do 17 (destruct n as [|n]; [reflexivity |]). reflexivity. Qed.

(** The characters of an encoded string: unescaped ones, the percent sign and
    hexadecimal digits. *)
Lemma encodeWith_chars (unescaped : ascii -> bool) (s : string) (c : ascii) :
  inString c (encodeWith unescaped s) = true ->
  unescaped c = true \/ c = "%"%char \/ isAlnum c = true.
Proof.
  induction s as [|d s IH]; [discriminate |].
  cbn [encodeWith]. rewrite inString_app.
  intros [Hc | Hc]%orb_true_iff; [|now apply IH].
  destruct (unescaped d) eqn:Ed.
  - cbn [inString] in Hc. rewrite orb_false_r in Hc.
    apply Ascii.eqb_eq in Hc as ->. now left.
  - unfold percentEncode in Hc. cbn [inString] in Hc. rewrite orb_false_r in Hc.
    apply orb_true_iff in Hc as [Hc | Hc]; [apply Ascii.eqb_eq in Hc; auto |].
    right. right.
    apply orb_true_iff in Hc as [Hc | Hc]; apply Ascii.eqb_eq in Hc as ->;
      apply isAlnum_hexDigit.
Qed.

(** What [encodeURIComponent] returns holds no bracket: a value that was put
    into a route is not taken for a group of the route. *)
Lemma encodeURIComponent_no_bracket (s : string) :
  inString "[" (encodeURIComponent s) = false.
Proof.
  destruct (inString "[" (encodeURIComponent s)) eqn:E; [|reflexivity].
  apply encodeWith_chars in E as [E | [E | E]]; discriminate E.
Qed.

Lemma replacement_no_bracket (g : Group) (value : ParamValue) :
  inString "[" (replacement g value) = false.
Proof.
  unfold replacement. destruct (repeat g); [|apply encodeURIComponent_no_bracket].
  unfold join. generalize (match value with PArr l => l | PStr v => [v] end). intros l.
  induction l as [|x [|y l] IH]; [reflexivity | |].
  - apply encodeURIComponent_no_bracket.
  - cbn [map String.concat] in *.
    now rewrite !inString_app, encodeURIComponent_no_bracket, IH.
Qed.

Lemma replaced_bracket (param : string) (g : Group) :
  exists x, replaced param g = String "[" x.
Proof. unfold replaced. destruct (optional g); eexists; reflexivity. Qed.

Lemma append_eq_empty (a b : string) : a +:+ b = "" -> a = "" /\ b = "".
Proof. destruct a; [now split | discriminate]. Qed.

(** *** Routes written out *)

Lemma template_empty (m : gmap string ParamValue) (ps : list Piece) :
  template ps = "" -> slots ps = [] /\ filled m ps = "".
Proof.
  induction ps as [|[s|param g] ps IH]; cbn [template slots filled]; intros E.
  - now split.
  - apply append_eq_empty in E as [-> E]. now apply IH.
  - destruct (replaced_bracket param g) as [x Ex]. rewrite Ex in E. discriminate E.
Qed.

(** A route begins with a slash, and so does what it becomes. *)
Lemma filled_slash (m : gmap string ParamValue) (ps : list Piece) (t : string) :
  template ps = String "/" t -> exists t', filled m ps = String "/" t'.
Proof.
  induction ps as [|[s|param g] ps IH]; cbn [template filled]; intros E.
  - discriminate E.
  - destruct s as [|c s]; [now apply IH |].
    injection E as -> _. eexists. reflexivity.
  - destruct (replaced_bracket param g) as [x Ex]. rewrite Ex in E. discriminate E.
Qed.

Lemma plain_tail (x : Piece) (ps : list Piece) : plain (x :: ps) -> plain ps.
Proof. intros Hp s Hs. apply Hp. apply elem_of_cons. now right. Qed.

(** [every] goes through the groups in the order they stand in the route:
    what is on the left of a group holds no bracket by then, so that the
    first occurrence of the group's text is the group. *)
Lemma everyGroup_template (m : gmap string ParamValue) (ps : list Piece) :
  plain ps ->
  (forall param g, (param, g) ∈ slots ps -> is_Some (m !! param)) ->
  forall pre, inString "[" pre = false ->
    (let '(ok, r) := everyGroup (slots ps) m (pre +:+ template ps) in if ok then r else "")
    = pre +:+ filled m ps.
Proof.
  induction ps as [|[s|param g] ps IH]; intros Hpl Hm pre Hpre.
  - reflexivity.
  - cbn [template slots filled]. rewrite <- !append_assoc.
    apply IH; [now apply plain_tail in Hpl | exact Hm |].
    rewrite inString_app, Hpre. apply Hpl. apply elem_of_cons. now left.
  - cbn [template slots filled everyGroup].
    destruct (Hm param g) as [value Hv]; [apply elem_of_cons; now left |].
    rewrite Hv. destruct (replaced_bracket param g) as [x Ex].
    assert (E : replace_first (pre +:+ replaced param g +:+ template ps)
                  (replaced param g) (replacement g value)
                = pre +:+ replacement g value +:+ template ps).
    { rewrite Ex. exact (replace_first_after_plain pre x (template ps) _ Hpre). }
    rewrite E.
    destruct (String.eqb_spec (pre +:+ replacement g value +:+ template ps) "") as [E0|_].
    + apply append_eq_empty in E0 as [-> E0]. apply append_eq_empty in E0 as [-> E0].
      now rewrite (proj2 (template_empty m ps E0)).
    + rewrite <- !append_assoc.
      apply IH; [now apply plain_tail in Hpl | |].
      * intros param' g' Hin. apply (Hm param' g'). apply elem_of_cons. now right.
      * now rewrite inString_app, Hpre, replacement_no_bracket.
Qed.

Section DataHrefFacts.
Context `{RouterUtils}.
Variables (assetPrefix buildId : string).

(** One group without a value makes [every] answer false. *)
Lemma everyGroup_missing (gs : list (string * Group)) (m : gmap string ParamValue)
    (r param : string) (g : Group) :
  (param, g) ∈ gs -> m !! param = None -> fst (everyGroup gs m r) = false.
Proof.
  intros Hin Hm. revert r. induction gs as [|[p' g'] gs IH]; intros r.
  - now apply elem_of_nil in Hin.
  - cbn [everyGroup]. apply elem_of_cons in Hin as [[= <- <-] | Hin].
    + now rewrite Hm.
    + destruct (m !! p'); [|reflexivity].
      destruct (String.eqb _ ""); [reflexivity | now apply IH].
Qed.

Lemma interpolateRoute_missing (route asPathname param : string) (g : Group)
    (query : gmap string ParamValue) :
  (param, g) ∈ groups (getRouteRegex route) ->
  dynamicMatchesOf route asPathname query !! param = None ->
  interpolateRoute route asPathname query = "".
Proof.
  intros Hin Hm. unfold interpolateRoute.
  pose proof (everyGroup_missing _ _ route _ _ Hin Hm) as E.
  destruct (everyGroup _ _ route) as [ok r]. cbn in E. now rewrite E.
Qed.

Lemma getDataHref_dynamic (href asPath route : string) :
  normalizeRoute (pathname (parse href)) = Return route ->
  isDynamicRoute route = true ->
  getDataHref assetPrefix buildId href asPath =
  Return (let r := interpolateRoute route (pathname (parse asPath)) (query (parse href)) in
          if String.eqb r "" then "" else getHrefForSlug assetPrefix buildId r).
Proof. intros Hn Hd. unfold getDataHref. rewrite Hn. cbn [bind]. now rewrite Hd. Qed.

(** A route whose only group is a parameter that comes after a text without
    brackets: the parameter is replaced by its value. *)
Lemma interpolateRoute_single (route asPathname pre name post : string) (g : Group)
    (value : ParamValue) (query : gmap string ParamValue) :
  route = pre +:+ replaced name g +:+ post ->
  inString "[" pre = false ->
  groups (getRouteRegex route) = [(name, g)] ->
  dynamicMatchesOf route asPathname query !! name = Some value ->
  interpolateRoute route asPathname query = pre +:+ replacement g value +:+ post.
Proof.
  intros Hr Hpre Hg Hm. unfold interpolateRoute. rewrite Hg. cbn [everyGroup]. rewrite Hm.
  assert (E : replace_first route (replaced name g) (replacement g value)
              = pre +:+ replacement g value +:+ post).
  { rewrite Hr. unfold replaced. destruct (optional g).
    - exact (replace_first_after_plain pre
               (("[" +:+ (if repeat g then "..." else "") +:+ name +:+ "]") +:+ "]")
               post _ Hpre).
    - exact (replace_first_after_plain pre
               ((if repeat g then "..." else "") +:+ name +:+ "]") post _ Hpre). }
  rewrite E. destruct (String.eqb_spec (pre +:+ replacement g value +:+ post) "") as [E0|_].
  - now rewrite E0.
  - reflexivity.
Qed.

(** A route whose groups are listed in the order they stand in it, all with
    a value: every group is replaced by what its value stands for. *)
Lemma interpolateRoute_template (route asPathname : string)
    (query : gmap string ParamValue) (ps : list Piece) :
  route = template ps ->
  plain ps ->
  groups (getRouteRegex route) = slots ps ->
  (forall param g, (param, g) ∈ slots ps ->
                   is_Some (dynamicMatchesOf route asPathname query !! param)) ->
  interpolateRoute route asPathname query
  = filled (dynamicMatchesOf route asPathname query) ps.
Proof.
  intros Hr Hpl Hg Hm. unfold interpolateRoute. rewrite Hg.
  rewrite Hr at 2.
  exact (everyGroup_template (dynamicMatchesOf route asPathname query) ps Hpl Hm "" eq_refl).
Qed.

(** An empty data href and nothing is prefetched. *)
Lemma prefetchDataThen_skip (env : Env) (s : gset string) (href asPath route : string)
    (W : World) :
  getDataHref assetPrefix buildId href asPath = Return "" ->
  prefetchDataThen env buildId assetPrefix s href asPath route W = W.
Proof. intros E. unfold prefetchDataThen. rewrite E. now destruct (decide _). Qed.

End DataHrefFacts.

(** C7. For every dynamic route and concrete path: the parameter values are
    those of the match of the route against the path when there is one (the
    query is then not read) and those of the query otherwise; a repeated
    parameter is replaced by its segments, each encoded, joined with slashes
    (so it is for a route whose only group it is, after a text without
    brackets); a single value is replaced by its encoding, which holds no
    bracket.  For every route made of texts without brackets and of groups,
    however many, that are listed in the order they stand in the route and
    all have a value, each group is replaced by what its value stands for,
    and the data href is built from the route that gives; for two groups that
    is written out.  A group without a value, required or not, empties the
    interpolated route, [getDataHref] then answers the empty string and
    [prefetchData] prefetches nothing.  With the route matcher of the
    description, [/posts/[id]] and [/posts/42] give [/posts/42],
    [/posts/[...slug]] and [/posts/a/b] give [/posts/a/b],
    [/[lang]/docs/[...slug]] and [/en/docs/a b/c] give [/en/docs/a%20b/c],
    [/[lang]/[id]] against [/en] takes both values from the query,
    and [/posts/[id]] against a path without that segment, with an empty
    query, gives no data href. *)
Theorem getDataHref_interpolation :
  (forall (R : RouterUtils) (route asPathname : string) (m query query' : gmap string ParamValue),
      getRouteMatcher (getRouteRegex route) asPathname = Some m ->
      dynamicMatchesOf route asPathname query = m /\
      interpolateRoute route asPathname query = interpolateRoute route asPathname query') /\
  (forall (R : RouterUtils) (route asPathname : string) (query : gmap string ParamValue),
      getRouteMatcher (getRouteRegex route) asPathname = None ->
      dynamicMatchesOf route asPathname query = query) /\
  (forall (g : Group) (l : list string),
      repeat g = true ->
      replacement g (PArr l) = join "/" (map encodeURIComponent l) /\
      inString "$" (join "/" (map encodeURIComponent l)) = false) /\
  (forall (g : Group) (v : string),
      replacement g (PStr v) = encodeURIComponent v /\
      inString "[" (encodeURIComponent v) = false) /\
  (forall (param : string),
      replaced param {| repeat := false; optional := false |} = "[" +:+ param +:+ "]" /\
      replaced param {| repeat := true; optional := false |} = "[..." +:+ param +:+ "]" /\
      replaced param {| repeat := true; optional := true |} = "[[..." +:+ param +:+ "]]") /\
  (forall (R : RouterUtils) (route asPathname pre name post : string) (l : list string)
          (query : gmap string ParamValue),
      route = pre +:+ "[..." +:+ name +:+ "]" +:+ post ->
      inString "[" pre = false ->
      groups (getRouteRegex route) = [(name, {| repeat := true; optional := false |})] ->
      dynamicMatchesOf route asPathname query !! name = Some (PArr l) ->
      interpolateRoute route asPathname query
      = pre +:+ join "/" (map encodeURIComponent l) +:+ post) /\
  (forall (R : RouterUtils) (route asPathname : string) (query : gmap string ParamValue)
          (ps : list Piece),
      route = template ps ->
      plain ps ->
      groups (getRouteRegex route) = slots ps ->
      (forall param g, (param, g) ∈ slots ps ->
                       is_Some (dynamicMatchesOf route asPathname query !! param)) ->
      interpolateRoute route asPathname query
      = filled (dynamicMatchesOf route asPathname query) ps) /\
  (forall (R : RouterUtils) (assetPrefix buildId href asPath route : string) (ps : list Piece),
      normalizeRoute (pathname (parse href)) = Return route ->
      isDynamicRoute route = true ->
      route = template ps ->
      plain ps ->
      groups (getRouteRegex route) = slots ps ->
      (forall param g,
          (param, g) ∈ slots ps ->
          is_Some (dynamicMatchesOf route (pathname (parse asPath)) (query (parse href))
                     !! param)) ->
      getDataHref assetPrefix buildId href asPath
      = Return (assetPrefix +:+ "/_next/data/" +:+ buildId
                +:+ getAssetPath
                      (filled (dynamicMatchesOf route (pathname (parse asPath))
                                 (query (parse href))) ps)
                +:+ ".json")) /\
  (forall (R : RouterUtils) (route asPathname a b c p q : string) (g h : Group)
          (v w : ParamValue) (query : gmap string ParamValue),
      route = a +:+ replaced p g +:+ b +:+ replaced q h +:+ c ->
      inString "[" a = false -> inString "[" b = false -> inString "[" c = false ->
      groups (getRouteRegex route) = [(p, g); (q, h)] ->
      dynamicMatchesOf route asPathname query !! p = Some v ->
      dynamicMatchesOf route asPathname query !! q = Some w ->
      interpolateRoute route asPathname query
      = a +:+ replacement g v +:+ b +:+ replacement h w +:+ c) /\
  (forall (R : RouterUtils) (assetPrefix buildId href asPath route param : string) (g : Group),
      normalizeRoute (pathname (parse href)) = Return route ->
      isDynamicRoute route = true ->
      (param, g) ∈ groups (getRouteRegex route) ->
      dynamicMatchesOf route (pathname (parse asPath)) (query (parse href)) !! param = None ->
      interpolateRoute route (pathname (parse asPath)) (query (parse href)) = "" /\
      getDataHref assetPrefix buildId href asPath = Return "" /\
      forall env s W,
        prefetchDataThen env buildId assetPrefix s href asPath route W = W) /\
  interpolateRoute (H := SpecRouter.specRouter) "/posts/[id]" "/posts/42" ∅ = "/posts/42" /\
  interpolateRoute (H := SpecRouter.specRouter) "/posts/[...slug]" "/posts/a/b" ∅ = "/posts/a/b" /\
  interpolateRoute (H := SpecRouter.specRouter) "/[lang]/docs/[...slug]" "/en/docs/a b/c" ∅
    = "/en/docs/a%20b/c" /\
  interpolateRoute (H := SpecRouter.specRouter) "/[lang]/[id]" "/en"
      {[ "lang" := PStr "de"; "id" := PStr "7" ]} = "/de/7" /\
  interpolateRoute (H := SpecRouter.specRouter) "/docs/[[...slug]]" "/docs/a/b" ∅
    = "/docs/a/b" /\
  (forall assetPrefix buildId,
      getDataHref (H := SpecRouter.specRouter) assetPrefix buildId "/posts/[id]" "/posts/42"
      = Return (assetPrefix +:+ "/_next/data/" +:+ buildId +:+ "/posts/42" +:+ ".json") /\
      getDataHref (H := SpecRouter.specRouter) assetPrefix buildId "/posts/[...slug]" "/posts/a/b"
      = Return (assetPrefix +:+ "/_next/data/" +:+ buildId +:+ "/posts/a/b" +:+ ".json") /\
      getDataHref (H := SpecRouter.specRouter) assetPrefix buildId "/posts/[id]" "/posts"
      = Return "").
Proof.
  repeat apply conj.
  - intros R route asPathname m query query' Hm.
    unfold interpolateRoute, dynamicMatchesOf. now rewrite Hm.
  - intros R route asPathname query Hm. unfold dynamicMatchesOf. now rewrite Hm.
  - intros g l Hg. unfold replacement. rewrite Hg. split; [reflexivity |].
    unfold join. induction l as [|x [|y l] IH]; [reflexivity | |].
    + apply encodeURIComponent_no_dollar.
    + cbn [map String.concat] in *.
      now rewrite !inString_app, encodeURIComponent_no_dollar, IH.
  - intros g v. split; [|apply encodeURIComponent_no_bracket].
    unfold replacement. now destruct (repeat g).
  - intros param. split; [reflexivity | split; [reflexivity |]].
    unfold replaced. cbn [repeat optional String.append]. now rewrite !append_assoc.
  - intros R route asPathname pre name post l query Hr Hpre Hg Hm.
    apply (interpolateRoute_single route asPathname pre name post
             {| repeat := true; optional := false |} (PArr l) query); try assumption.
    rewrite Hr. unfold replaced. cbn [repeat optional String.append].
    now rewrite !append_assoc.
  - intros R route asPathname query ps. apply interpolateRoute_template.
  - intros R assetPrefix buildId href asPath route ps Hn Hd Hr Hpl Hg Hm.
    rewrite (getDataHref_dynamic _ _ _ _ route Hn Hd). cbn zeta.
    rewrite (interpolateRoute_template _ _ _ ps Hr Hpl Hg Hm).
    destruct (normalizeRoute_twice _ _ Hn) as [r2 Hr2].
    destruct (normalizeRoute_Return _ _ Hr2) as [t Et].
    destruct (filled_slash (dynamicMatchesOf route (pathname (parse asPath))
                              (query (parse href))) ps t) as [t' Et'];
      [now rewrite <- Hr |].
    rewrite Et'. reflexivity.
  - intros R route asPathname a b c p q g h v w query Hr Ha Hb Hc Hg Hv Hw.
    rewrite (interpolateRoute_template route asPathname query
               [Text a; Slot p g; Text b; Slot q h; Text c]).
    + cbn [filled]. rewrite Hv, Hw. now rewrite append_empty_r.
    + rewrite Hr. cbn [template]. now rewrite append_empty_r.
    + intros s. rewrite !elem_of_cons, elem_of_nil.
      intros [[= ->] | [[=] | [[= ->] | [[=] | [[= ->] | []]]]]]; assumption.
    + exact Hg.
    + intros param g'. cbn [slots]. rewrite !elem_of_cons, elem_of_nil.
      intros [[= -> ->] | [[= -> ->] | []]]; eauto.
  - intros R assetPrefix buildId href asPath route param g Hn Hd Hin Hm.
    pose proof (interpolateRoute_missing _ _ _ _ _ Hin Hm) as Hi.
    assert (Hg : getDataHref assetPrefix buildId href asPath = Return "").
    { rewrite (getDataHref_dynamic _ _ _ _ route Hn Hd). cbn zeta. now rewrite Hi. }
    split; [exact Hi | split; [exact Hg |]].
    intros env s W. now apply prefetchDataThen_skip.
  - reflexivity.
  - reflexivity.
  - reflexivity.
  - reflexivity.
  - reflexivity.
  - intros assetPrefix buildId. repeat split; reflexivity.
Qed.

(** [/posts/[id]] against [/other]: the match fails, the query is empty, and
    there is no data href.  [/[lang]/docs/[...slug]], a route of two groups,
    against [/en/docs/a b/c]: the data href of [/en/docs/a%20b/c]. *)
Lemma getDataHref_interpolation_witness :
  (interpolateRoute (H := SpecRouter.specRouter) "/posts/[id]" "/other" ∅ = "" /\
   getDataHref (H := SpecRouter.specRouter) "" "build" "/posts/[id]" "/other" = Return "") /\
  getDataHref (H := SpecRouter.specRouter) "" "build" "/[lang]/docs/[...slug]" "/en/docs/a b/c"
  = Return "/_next/data/build/en/docs/a%20b/c.json".
Proof.
  destruct getDataHref_interpolation
    as (_ & _ & _ & _ & _ & _ & _ & Hfill & _ & Hmiss & _).
  split.
  - destruct (Hmiss SpecRouter.specRouter "" "build" "/posts/[id]" "/other" "/posts/[id]" "id"
                {| repeat := false; optional := false |} eq_refl eq_refl)
      as (Hi & Hg & _); [apply elem_of_cons; now left | reflexivity |].
    split; [exact Hi | exact Hg].
  - apply (Hfill SpecRouter.specRouter "" "build" "/[lang]/docs/[...slug]" "/en/docs/a b/c"
             "/[lang]/docs/[...slug]"
             [Text "/"; Slot "lang" {| repeat := false; optional := false |};
              Text "/docs/"; Slot "slug" {| repeat := true; optional := false |}]
             eq_refl eq_refl eq_refl).
    + intros s. rewrite !elem_of_cons, elem_of_nil.
      intros [[= ->] | [[=] | [[= ->] | [[=] | []]]]]; reflexivity.
    + reflexivity.
    + intros param g. cbn [slots]. rewrite !elem_of_cons, elem_of_nil.
      intros [[= -> ->] | [[= -> ->] | []]]; vm_compute; eauto.
Defined.

(** ** Promises and the emitter *)

Lemma outcome_not_pending (evt : PageData) : outcome evt <> Pending.
Proof. unfold outcome. destruct (truthy (error evt)); discriminate. Qed.

Lemma promises_settle (p : nat) (o : PromiseState) (W : World) :
  promises (runtime (settle p o W)) =
  match promises (runtime W) !! p with
  | Some Pending => <[ p := o ]> (promises (runtime W))
  | _ => promises (runtime W)
  end.
Proof.
  unfold settle. destruct (promises (runtime W) !! p) as [[| |]|]; reflexivity.
Qed.

Lemma settle_this (p : nat) (o : PromiseState) (W : World) : this (settle p o W) = this W.
Proof. unfold settle. destruct (promises (runtime W) !! p) as [[| |]|]; reflexivity. Qed.

Lemma settle_document (p : nat) (o : PromiseState) (W : World) :
  document (settle p o W) = document W.
Proof. unfold settle. destruct (promises (runtime W) !! p) as [[| |]|]; reflexivity. Qed.

Lemma settle_window (p : nat) (o : PromiseState) (W : World) :
  window (settle p o W) = window W.
Proof. unfold settle. destruct (promises (runtime W) !! p) as [[| |]|]; reflexivity. Qed.



Lemma settle_length (p : nat) (o : PromiseState) (W : World) :
  length (promises (runtime (settle p o W))) = length (promises (runtime W)).
Proof.
  rewrite promises_settle.
  destruct (promises (runtime W) !! p) as [[| |]|]; now rewrite ?length_insert.
Qed.

(** A settled promise stays as it is, and so does every other promise. *)
Lemma promiseState_settle (p : nat) (o : PromiseState) (W : World) (q : nat) :
  promiseState (settle p o W) q =
  if decide (q = p /\ promises (runtime W) !! p = Some Pending) then o
  else promiseState W q.
Proof.
  unfold promiseState. rewrite promises_settle.
  destruct (promises (runtime W) !! p) as [[| |]|] eqn:E;
    case_decide as Hd; try (destruct Hd as [_ Hd]; discriminate); try reflexivity.
  - destruct Hd as [-> _]. rewrite list_lookup_insert_eq; [reflexivity |].
    now apply lookup_lt_Some in E.
  - destruct (decide (q = p)) as [->|Hne].
    + exfalso. now apply Hd.
    + now rewrite list_lookup_insert_ne by congruence.
Qed.

Lemma listeners_on (type : string) (h : Listener) (W : World) (k : string) :
  listeners (on type h W) k =
  if decide (k = type) then listeners W type ++ [h] else listeners W k.
Proof.
  unfold listeners at 1, on. cbn.
  case_decide as Hd.
  - subst. now rewrite lookup_insert_eq.
  - now rewrite lookup_insert_ne by congruence.
Qed.

Lemma listeners_off (type : string) (h : Listener) (W : World) (k : string) :
  listeners (off type h W) k =
  if decide (k = type) then remove_first h (listeners W type) else listeners W k.
Proof.
  unfold listeners, off.
  destruct (pageRegisterEvents (this W) !! type) as [l|] eqn:E; cbn.
  - case_decide as Hd.
    + subst. now rewrite lookup_insert_eq.
    + now rewrite lookup_insert_ne by congruence.
  - case_decide as Hd; [subst; now rewrite E | reflexivity].
Qed.

Lemma off_runtime (type : string) (h : Listener) (W : World) : runtime (off type h W) = runtime W.
Proof. unfold off. now destruct (pageRegisterEvents (this W) !! type). Qed.

Lemma off_document (type : string) (h : Listener) (W : World) : document (off type h W) = document W.
Proof. unfold off. now destruct (pageRegisterEvents (this W) !! type). Qed.

Lemma off_window (type : string) (h : Listener) (W : World) : window (off type h W) = window W.
Proof. unfold off. now destruct (pageRegisterEvents (this W) !! type). Qed.

Lemma off_pageCache (type : string) (h : Listener) (W : World) :
  pageCache (this (off type h W)) = pageCache (this W).
Proof. unfold off. now destruct (pageRegisterEvents (this W) !! type). Qed.

Lemma off_loadingRoutes (type : string) (h : Listener) (W : World) :
  loadingRoutes (this (off type h W)) = loadingRoutes (this W).
Proof. unfold off. now destruct (pageRegisterEvents (this W) !! type). Qed.

Lemma elem_of_remove_first (h x : Listener) (l : list Listener) :
  x ∈ remove_first h l -> x ∈ l.
Proof.
  induction l as [|y l IH]; cbn; [easy |].
  case_decide; rewrite !elem_of_cons; intuition.
Qed.

Lemma elem_of_remove_first_ne (h x : Listener) (l : list Listener) :
  x ∈ l -> x <> h -> x ∈ remove_first h l.
Proof.
  intros Hin Hne. induction l as [|y l IH]; cbn; [easy |].
  apply elem_of_cons in Hin as [-> | Hin].
  - case_decide; [congruence | apply elem_of_cons; now left].
  - case_decide; [assumption | apply elem_of_cons; right; now apply IH].
Qed.

(** *** One listener *)

Lemma fire_pageCache (h : Listener) (evt : PageData) (W : World) :
  pageCache (this (fire h evt W)) = pageCache (this W).
Proof. unfold fire. rewrite settle_this. cbn. apply off_pageCache. Qed.

Lemma fire_document (h : Listener) (evt : PageData) (W : World) :
  document (fire h evt W) = document W.
Proof. unfold fire. rewrite settle_document. cbn. apply off_document. Qed.

Lemma fire_window (h : Listener) (evt : PageData) (W : World) :
  window (fire h evt W) = window W.
Proof. unfold fire. rewrite settle_window. cbn. apply off_window. Qed.



Lemma fire_length (h : Listener) (evt : PageData) (W : World) :
  length (promises (runtime (fire h evt W))) = length (promises (runtime W)).
Proof. unfold fire. rewrite settle_length. cbn. now rewrite off_runtime. Qed.

Lemma listeners_fire (h : Listener) (evt : PageData) (W : World) (k : string) :
  listeners (fire h evt W) k =
  if decide (k = fire_route h) then remove_first h (listeners W k) else listeners W k.
Proof.
  unfold fire, listeners at 1. rewrite settle_this. cbn.
  change (default [] (pageRegisterEvents (this (off (fire_route h) h W)) !! k))
    with (listeners (off (fire_route h) h W) k).
  rewrite listeners_off. case_decide; [now subst | reflexivity].
Qed.

Lemma promiseState_fire (h : Listener) (evt : PageData) (W : World) (q : nat) :
  promiseState (fire h evt W) q =
  if decide (q = fire_promise h /\ promises (runtime W) !! fire_promise h = Some Pending)
  then outcome evt else promiseState W q.
Proof.
  unfold fire. rewrite promiseState_settle. cbn. rewrite off_runtime.
  unfold promiseState. cbn. now rewrite off_runtime.
Qed.

(** *** A broadcast *)

Lemma emit_fireAll (type : string) (evt : PageData) (W : World) :
  emit type evt W =
  fireAll (listeners W type) evt (set_emitted (emitted (runtime W) ++ [(type, evt)]) W).
Proof. reflexivity. Qed.

Lemma fireAll_pageCache (L : list Listener) (evt : PageData) (W : World) :
  pageCache (this (fireAll L evt W)) = pageCache (this W).
Proof.
  revert W. induction L as [|h L IH]; intros W; [reflexivity |].
  cbn. unfold fireAll in IH. now rewrite IH, fire_pageCache.
Qed.

Lemma fireAll_document (L : list Listener) (evt : PageData) (W : World) :
  document (fireAll L evt W) = document W.
Proof.
  revert W. induction L as [|h L IH]; intros W; [reflexivity |].
  cbn. unfold fireAll in IH. now rewrite IH, fire_document.
Qed.

Lemma fireAll_window (L : list Listener) (evt : PageData) (W : World) :
  window (fireAll L evt W) = window W.
Proof.
  revert W. induction L as [|h L IH]; intros W; [reflexivity |].
  cbn. unfold fireAll in IH. now rewrite IH, fire_window.
Qed.



Lemma fireAll_length (L : list Listener) (evt : PageData) (W : World) :
  length (promises (runtime (fireAll L evt W))) = length (promises (runtime W)).
Proof.
  revert W. induction L as [|h L IH]; intros W; [reflexivity |].
  cbn. unfold fireAll in IH. now rewrite IH, fire_length.
Qed.

(** A settled promise is not settled again. *)
Lemma fireAll_settled (L : list Listener) (evt : PageData) (W : World) (q : nat) :
  promiseState W q <> Pending -> promiseState (fireAll L evt W) q = promiseState W q.
Proof.
  revert W. induction L as [|h L IH]; intros W Hq; [reflexivity |].
  cbn. unfold fireAll in IH.
  assert (E : promiseState (fire h evt W) q = promiseState W q).
  { rewrite promiseState_fire. case_decide as Hd; [|reflexivity].
    destruct Hd as [-> Hd]. unfold promiseState in Hq. rewrite Hd in Hq. now contradict Hq. }
  rewrite IH; [exact E | now rewrite E].
Qed.

(** A promise none of the listeners settles is left alone. *)
Lemma fireAll_other (L : list Listener) (evt : PageData) (W : World) (q : nat) :
  (forall h, h ∈ L -> fire_promise h <> q) ->
  promiseState (fireAll L evt W) q = promiseState W q.
Proof.
  revert W. induction L as [|h L IH]; intros W Hq; [reflexivity |].
  cbn. unfold fireAll in IH. rewrite IH.
  - rewrite promiseState_fire. case_decide as Hd; [|reflexivity].
    destruct Hd as [-> _]. exfalso. apply (Hq h); [apply elem_of_cons; now left | reflexivity].
  - intros h' Hh'. apply Hq. apply elem_of_cons. now right.
Qed.

(** A pending promise with a listener in the broadcast gets the event. *)
Lemma fireAll_pending (L : list Listener) (evt : PageData) (W : World) (h : Listener) :
  h ∈ L ->
  promises (runtime W) !! fire_promise h = Some Pending ->
  promiseState (fireAll L evt W) (fire_promise h) = outcome evt.
Proof.
  revert W. induction L as [|h0 L IH]; intros W Hin Hp; [now apply elem_of_nil in Hin |].
  cbn. fold (fireAll L evt (fire h0 evt W)).
  destruct (decide (fire_promise h0 = fire_promise h)) as [E|Hne].
  - rewrite fireAll_settled; rewrite promiseState_fire, decide_True by (split; congruence).
    + reflexivity.
    + apply outcome_not_pending.
  - apply elem_of_cons in Hin as [-> | Hin]; [congruence |].
    apply IH; [assumption |].
    pose proof (promiseState_fire h0 evt W (fire_promise h)) as E.
    rewrite decide_False in E by (intros [? _]; congruence).
    unfold fire. rewrite promises_settle. cbn. rewrite off_runtime.
    destruct (promises (runtime W) !! fire_promise h0) as [[| |]|] eqn:E0; try assumption.
    now rewrite list_lookup_insert_ne by congruence.
Qed.

Lemma fireAll_listeners_sub (L : list Listener) (evt : PageData) (W : World)
    (k : string) (x : Listener) :
  x ∈ listeners (fireAll L evt W) k -> x ∈ listeners W k.
Proof.
  revert W. induction L as [|h L IH]; intros W; [easy |].
  cbn. fold (fireAll L evt (fire h evt W)). intros Hx%IH.
  rewrite listeners_fire in Hx. case_decide; [|assumption].
  now apply elem_of_remove_first in Hx.
Qed.

Lemma fireAll_listeners_keep (L : list Listener) (evt : PageData) (W : World)
    (k : string) (x : Listener) :
  x ∈ listeners W k -> x ∉ L -> x ∈ listeners (fireAll L evt W) k.
Proof.
  revert W. induction L as [|h L IH]; intros W Hx Hn; [easy |].
  cbn. fold (fireAll L evt (fire h evt W)).
  apply not_elem_of_cons in Hn as [Hne Hn].
  apply IH; [|assumption].
  rewrite listeners_fire. case_decide; [|assumption].
  now apply elem_of_remove_first_ne.
Qed.

Lemma emit_pageCache (type : string) (evt : PageData) (W : World) :
  pageCache (this (emit type evt W)) = pageCache (this W).
Proof. rewrite emit_fireAll, fireAll_pageCache. reflexivity. Qed.

Lemma emit_document (type : string) (evt : PageData) (W : World) :
  document (emit type evt W) = document W.
Proof. rewrite emit_fireAll, fireAll_document. reflexivity. Qed.

Lemma emit_window (type : string) (evt : PageData) (W : World) :
  window (emit type evt W) = window W.
Proof. rewrite emit_fireAll, fireAll_window. reflexivity. Qed.



Lemma emit_length (type : string) (evt : PageData) (W : World) :
  length (promises (runtime (emit type evt W))) = length (promises (runtime W)).
Proof. rewrite emit_fireAll, fireAll_length. reflexivity. Qed.

Lemma emit_settled (type : string) (evt : PageData) (W : World) (q : nat) :
  promiseState W q <> Pending -> promiseState (emit type evt W) q = promiseState W q.
Proof. intros Hq. rewrite emit_fireAll, fireAll_settled; [reflexivity | exact Hq]. Qed.

Lemma emit_other (type : string) (evt : PageData) (W : World) (q : nat) :
  (forall h, h ∈ listeners W type -> fire_promise h <> q) ->
  promiseState (emit type evt W) q = promiseState W q.
Proof. intros Hq. rewrite emit_fireAll, fireAll_other; [reflexivity | exact Hq]. Qed.

(** Every subscriber of the key whose promise is pending gets the event. *)
Lemma emit_pending (type : string) (evt : PageData) (W : World) (h : Listener) :
  h ∈ listeners W type ->
  promises (runtime W) !! fire_promise h = Some Pending ->
  promiseState (emit type evt W) (fire_promise h) = outcome evt.
Proof. intros Hin Hp. rewrite emit_fireAll. now apply fireAll_pending. Qed.

Lemma emit_listeners_sub (type : string) (evt : PageData) (W : World)
    (k : string) (x : Listener) :
  x ∈ listeners (emit type evt W) k -> x ∈ listeners W k.
Proof. rewrite emit_fireAll. intros Hx%fireAll_listeners_sub. exact Hx. Qed.

Lemma emit_listeners_keep (type : string) (evt : PageData) (W : World)
    (k : string) (x : Listener) :
  x ∈ listeners W k -> x ∉ listeners W type -> x ∈ listeners (emit type evt W) k.
Proof. intros Hx Hn. rewrite emit_fireAll. now apply fireAll_listeners_keep. Qed.

(** ** What leaves the cache, the listeners and the promises alone *)

Lemma calm_refl (W : World) : calm W W.
Proof. repeat split. Qed.

Lemma calm_trans (W1 W2 W3 : World) : calm W1 W2 -> calm W2 W3 -> calm W1 W3.
Proof. intros (A1 & B1 & C1) (A2 & B2 & C2). repeat split; congruence. Qed.

Lemma calm_listeners (W W' : World) (k : string) : calm W W' -> listeners W' k = listeners W k.
Proof. intros (_ & E & _). unfold listeners. now rewrite E. Qed.

Lemma calm_promiseState (W W' : World) (p : nat) :
  calm W W' -> promiseState W' p = promiseState W p.
Proof. intros (_ & _ & E). unfold promiseState. now rewrite E. Qed.

Lemma appendLink_calm (env : Env) (url r : string) (a : option string) (W : World) :
  calm W (appendLink env url r a W).
Proof. repeat split. Qed.

Lemma loadScript_calm (env : Env) (url route : string) (W : World) :
  calm W (loadScript env url route W).
Proof. repeat split. Qed.

Lemma schedule_calm (j : Job) (W : World) : calm W (schedule j W).
Proof. repeat split. Qed.

Lemma injectDependency_calm (env : Env) (route d : string) (W : World) :
  calm W (injectDependency env route d W).
Proof.
  unfold injectDependency.
  destruct (endsWith d ".js" && negb (hasScript d W));
    match goal with |- context [if ?c then _ else _] => destruct c end;
    repeat split.
Qed.

Lemma injectDependencies_calm (env : Env) (route : string) (deps : list string) (W : World) :
  calm W (foldl (fun W d => injectDependency env route d W) W deps).
Proof.
  revert W. induction deps as [|d deps IH]; intros W; [apply calm_refl |].
  cbn. eapply calm_trans; [apply injectDependency_calm | apply IH].
Qed.

Lemma prefetch_calm (env : Env) (buildId assetPrefix route : string) (isDependency : bool)
    (W W' : World) :
  prefetch env buildId assetPrefix route isDependency W = Return W' -> calm W W'.
Proof.
  unfold prefetch. destruct (slowConnection W); [intros [= <-]; apply calm_refl |].
  destruct (prefetchUrl env buildId assetPrefix route isDependency) as [url|err]; [|discriminate].
  cbn [bind]. destruct (hasLink _ _ W); [intros [= <-]; apply calm_refl |].
  intros [= <-].
  destruct url as [u|]; [destruct (String.eqb u "") |];
    destruct (production env && negb isDependency); repeat split.
Qed.

Lemma prefetchAll_calm (env : Env) (buildId assetPrefix : string) (urls : list string)
    (W : World) :
  calm W (prefetchAll env buildId assetPrefix urls W).
Proof.
  revert W. induction urls as [|u urls IH]; intros W; [apply calm_refl |].
  cbn [prefetchAll].
  destruct (prefetch env buildId assetPrefix u true W) as [W1|err] eqn:E; [|apply calm_refl].
  eapply calm_trans; [eapply prefetch_calm; exact E | apply IH].
Qed.

Section CalmRouter.
Context `{RouterUtils}.

Lemma prefetchDataThen_calm (env : Env) (buildId assetPrefix : string) (s : gset string)
    (href asPath route : string) (W : World) :
  calm W (prefetchDataThen env buildId assetPrefix s href asPath route W).
Proof.
  unfold prefetchDataThen. destruct (decide (route ∈ s)); [|apply calm_refl].
  destruct (getDataHref assetPrefix buildId href asPath) as [d|err]; [|apply calm_refl].
  destruct (String.eqb d ""); [apply calm_refl |].
  destruct (hasLink _ d W); [apply calm_refl | repeat split].
Qed.

Lemma prefetchData_calm (href asPath : string) (W W' : World) :
  prefetchData href asPath W = Return W' -> calm W W'.
Proof.
  unfold prefetchData. destruct (normalizeRoute _); [|discriminate].
  intros [= <-]. repeat split.
Qed.

End CalmRouter.

(** ** What [loadPage] does *)

(** The executor leaves the cache alone. *)
Lemma loadPageExecutor_pageCache (env : Env) (assetPrefix : string) (p : nat)
    (route : string) (W : World) :
  pageCache (this (loadPageExecutor env assetPrefix p route W)) = pageCache (this W).
Proof.
  unfold loadPageExecutor.
  destruct (pageCache (this W) !! route) as [d|].
  - destruct (truthy (error d)); now rewrite settle_this.
  - destruct (decide (route ∈ loadingRoutes (this W))); [reflexivity |].
    destruct (production env); [reflexivity |].
    destruct (normalizeRoute route); [reflexivity |].
    now rewrite settle_this.
Qed.

(** It settles no promise but its own. *)
Lemma loadPageExecutor_promises (env : Env) (assetPrefix : string) (p : nat)
    (route : string) (W : World) (q : nat) :
  q <> p ->
  promises (runtime (loadPageExecutor env assetPrefix p route W)) !! q
  = promises (runtime W) !! q.
Proof.
  intros Hq.
  assert (Hs : forall o W1, promises (runtime W1) = promises (runtime W) ->
                 promises (runtime (settle p o W1)) !! q = promises (runtime W) !! q).
  { intros o W1 E. rewrite promises_settle, E.
    destruct (promises (runtime W) !! p) as [[| |]|]; try reflexivity.
    now rewrite list_lookup_insert_ne by congruence. }
  unfold loadPageExecutor.
  destruct (pageCache (this W) !! route) as [d|].
  - destruct (truthy (error d)); now apply Hs.
  - destruct (decide (route ∈ loadingRoutes (this W))); [reflexivity |].
    destruct (production env); [reflexivity |].
    destruct (normalizeRoute route); [reflexivity |].
    now apply Hs.
Qed.

Lemma loadPageExecutor_length (env : Env) (assetPrefix : string) (p : nat)
    (route : string) (W : World) :
  length (promises (runtime (loadPageExecutor env assetPrefix p route W)))
  = length (promises (runtime W)).
Proof.
  unfold loadPageExecutor.
  destruct (pageCache (this W) !! route) as [d|].
  - destruct (truthy (error d)); now rewrite settle_length.
  - destruct (decide (route ∈ loadingRoutes (this W))); [reflexivity |].
    destruct (production env); [reflexivity |].
    destruct (normalizeRoute route); [reflexivity |].
    now rewrite settle_length.
Qed.

(** It subscribes at most one listener, its own, under the route. *)
Lemma loadPageExecutor_listeners (env : Env) (assetPrefix : string) (p : nat)
    (route : string) (W : World) (k : string) :
  listeners (loadPageExecutor env assetPrefix p route W) k = listeners W k \/
  (k = route /\ pageCache (this W) !! route = None /\
   exists r2, listeners (loadPageExecutor env assetPrefix p route W) k
              = listeners W k ++ [Fire p r2]).
Proof.
  assert (Hon : forall r2 W1,
            pageRegisterEvents (this W1) = pageRegisterEvents (this (on route (Fire p r2) W)) ->
            pageCache (this W) !! route = None ->
            listeners W1 k = listeners W k \/
            (k = route /\ pageCache (this W) !! route = None /\
             exists r2, listeners W1 k = listeners W k ++ [Fire p r2])).
  { intros r2 W1 E Hc.
    assert (E' : listeners W1 k = listeners (on route (Fire p r2) W) k)
      by (unfold listeners; now rewrite E).
    rewrite E', listeners_on. case_decide as Hd; [|now left].
    right. subst k. split; [reflexivity | split; [exact Hc | now exists r2]]. }
  unfold loadPageExecutor.
  destruct (pageCache (this W) !! route) as [d|] eqn:Hc.
  - left. unfold listeners. destruct (truthy (error d)); now rewrite settle_this.
  - destruct (decide (route ∈ loadingRoutes (this W))); [now apply (Hon route) |].
    destruct (production env); [now apply (Hon route) |].
    destruct (normalizeRoute route) as [r2|err]; [now apply (Hon r2) |].
    apply (Hon route); [|reflexivity]. now rewrite settle_this.
Qed.

Lemma loadPage_Return (env : Env) (assetPrefix route : string) (W : World)
    (p : nat) (W' : World) :
  loadPage env assetPrefix route W = Return (p, W') ->
  exists r, normalizeRoute route = Return r /\
    p = length (promises (runtime W)) /\
    W' = loadPageExecutor env assetPrefix p r
           (set_promises (promises (runtime W) ++ [Pending]) W).
Proof.
  unfold loadPage. destruct (normalizeRoute route) as [r|e]; [|discriminate].
  cbn [bind]. intros [= <- <-]. now exists r.
Qed.

(** ** The page cache *)

Lemma register_pageCache (route : string) (regFn : completion JsVal) (W : World) :
  pageCache (this (register route regFn W)) = <[ route := entryOf regFn ]> (pageCache (this W)).
Proof.
  unfold register, entryOf.
  destruct (bind regFn _) as [pd|err]; now rewrite emit_pageCache.
Qed.

Section Cache.
Context `{RouterUtils}.
Variables (env : Env) (buildId assetPrefix : string).

Lemma runJob_pageCache (j : Job) (W W' : World) :
  runJob env buildId assetPrefix j W = Some W' -> pageCache (this W') = pageCache (this W).
Proof.
  destruct j as [route use | deps route | urls | href asPath route]; cbn [runJob].
  - destruct (buildManifest (window W)) as [m|]; [|discriminate].
    unfold getDependenciesThen.
    destruct (m !! route); [|destruct (inherited route)]; intros [= <-];
      [reflexivity | reflexivity |].
    cbn. now rewrite emit_pageCache.
  - intros [= <-]. apply injectDependencies_calm.
  - intros [= <-]. apply prefetchAll_calm.
  - destruct (ssgManifest (window W)); [|discriminate].
    intros [= <-]. apply prefetchDataThen_calm.
Qed.

(** Only a registration writes the cache, and it writes whatever is there. *)
Lemma step_pageCache (W : World) (ev : Event) :
  pageCache (this (step env buildId assetPrefix W ev)) =
  match registration env W ev with
  | Some (route, regFn) => <[ route := entryOf regFn ]> (pageCache (this W))
  | None => pageCache (this W)
  end.
Proof.
  destruct ev as [route | route regFn | route dep | href asPath | i | i | m | s | cn
                 | status | i status]; cbn [step registration].
  - destruct (loadPage env assetPrefix route W) as [[p W']|err] eqn:E; [|reflexivity].
    apply loadPage_Return in E as (r & _ & _ & ->).
    now rewrite loadPageExecutor_pageCache.
  - unfold registerPage. destruct (negb (production env) && hotBusy W); [reflexivity |].
    apply register_pageCache.
  - destruct (prefetch env buildId assetPrefix route dep W) as [W'|err] eqn:E; [|reflexivity].
    now apply prefetch_calm in E as (E & _).
  - destruct (prefetchData href asPath W) as [W'|err] eqn:E; [|reflexivity].
    now apply prefetchData_calm in E as (E & _).
  - destruct (scripts (document W) !! i); [|reflexivity]. apply emit_pageCache.
  - destruct (reactions (runtime W) !! i) as [j|]; [|reflexivity].
    destruct (runJob _ _ _ j _) as [W'|] eqn:E; [|reflexivity].
    now apply runJob_pageCache in E.
  - now destruct (buildManifest (window W)).
  - now destruct (ssgManifest (window W)).
  - reflexivity.
  - now destruct (hotStatus (window W)).
  - unfold hotCheck. destruct (hotHandlers (window W) !! i) as [[route regFn]|]; [|reflexivity].
    destruct (String.eqb status "idle"); [|reflexivity].
    now rewrite register_pageCache.
Qed.

Lemma run_cons (W : World) (ev : Event) (evs : list Event) :
  run env buildId assetPrefix W (ev :: evs)
  = run env buildId assetPrefix (step env buildId assetPrefix W ev) evs.
Proof. reflexivity. Qed.

Lemma run_app (W : World) (evs evs' : list Event) :
  run env buildId assetPrefix W (evs ++ evs')
  = run env buildId assetPrefix (run env buildId assetPrefix W evs) evs'.
Proof. apply foldl_app. Qed.

(** An entry is never removed. *)
Lemma run_pageCache_is_Some (W : World) (evs : list Event) (k : string) :
  is_Some (pageCache (this W) !! k) ->
  is_Some (pageCache (this (run env buildId assetPrefix W evs)) !! k).
Proof.
  revert W. induction evs as [|ev evs IH]; intros W Hk; [exact Hk |].
  rewrite run_cons. apply IH. rewrite step_pageCache.
  destruct (registration env W ev) as [[route regFn]|]; [|exact Hk].
  destruct (decide (route = k)) as [->|Hne].
  - rewrite lookup_insert_eq. eauto.
  - now rewrite lookup_insert_ne.
Qed.

(** Without a registration of the route its entry stays. *)
Lemma run_pageCache_noRegistration (W : World) (evs : list Event) (k : string) :
  noRegistration env buildId assetPrefix k W evs = true ->
  pageCache (this (run env buildId assetPrefix W evs)) !! k = pageCache (this W) !! k.
Proof.
  revert W. induction evs as [|ev evs IH]; intros W Hn; [reflexivity |].
  cbn [noRegistration] in Hn. apply andb_true_iff in Hn as [Hev Hn].
  rewrite run_cons, (IH _ Hn), step_pageCache.
  destruct (registration env W ev) as [[route regFn]|]; [|reflexivity].
  apply negb_true_iff, String.eqb_neq in Hev. now rewrite lookup_insert_ne.
Qed.

End Cache.

(** The last reaction of the queue runs. *)
Lemma step_RunReaction_last (R : RouterUtils) (env : Env) (buildId assetPrefix : string)
    (V : World) (l : list Job) (j : Job) :
  reactions (runtime V) = l ++ [j] ->
  step env buildId assetPrefix V (RunReaction (length l)) =
  match runJob env buildId assetPrefix j (set_reactions l V) with
  | Some W' => W'
  | None => V
  end.
Proof.
  intros E. cbn [step]. rewrite E.
  rewrite lookup_app_r, Nat.sub_diag by lia. cbn [lookup list_lookup].
  now rewrite delete_middle, app_nil_r.
Qed.

(** ** C5: who writes the page cache *)

(** C5, as stated, fails: a second [registerPage] for a route replaces the
    entry the first one wrote. *)
Lemma pageCache_entry_replaced :
  let W1 := Example.stepIn Example.prodEnv Example.world0
              (RegisterPage "/a" (Return Example.moduleA)) in
  let W2 := Example.stepIn Example.prodEnv W1
              (RegisterPage "/a" (Return Example.moduleB)) in
  pageCache (this W1) !! "/a" = Some (entryOf (Return Example.moduleA)) /\
  pageCache (this W2) !! "/a" = Some (entryOf (Return Example.moduleB)) /\
  entryOf (Return Example.moduleA) <> entryOf (Return Example.moduleB).
Proof. repeat split; [vm_compute; reflexivity .. | discriminate]. Qed.

(** C5, amended. The entry of a route is written by the registrations of that
    route and by nothing else: after any event the entry is what it was,
    unless the event carries out a registration of the route, and then it is
    the entry of that registration, whatever was there (the last writer
    wins).  No event removes an entry. *)
Theorem pageCache_written_by_registrations :
  forall (R : RouterUtils) (env : Env) (buildId assetPrefix : string)
         (W : World) (ev : Event) (k : string),
    pageCache (this (step env buildId assetPrefix W ev)) !! k =
      match registration env W ev with
      | Some (route, regFn) =>
          if decide (route = k) then Some (entryOf regFn) else pageCache (this W) !! k
      | None => pageCache (this W) !! k
      end /\
    forall evs, is_Some (pageCache (this W) !! k) ->
                is_Some (pageCache (this (run env buildId assetPrefix W evs)) !! k).
Proof.
  intros R env buildId assetPrefix W ev k. split.
  - rewrite step_pageCache.
    destruct (registration env W ev) as [[route regFn]|]; [|reflexivity].
    case_decide as Hd.
    + subst. apply lookup_insert_eq.
    + now apply lookup_insert_ne.
  - intros evs. apply run_pageCache_is_Some.
Qed.

(** A failure entry is still there after a script error, a [loadPage] and the
    registration of another route. *)
Lemma pageCache_written_by_registrations_witness :
  let W1 := Example.stepIn Example.prodEnv Example.world0
              (RegisterPage "/a" (Throw JTypeError)) in
  is_Some (pageCache (this (Example.runIn Example.prodEnv W1
                              [ScriptError 0; LoadPage "/a"; RegisterPage "/b" (Return JNull)])) !! "/a").
Proof.
  apply (proj2 (pageCache_written_by_registrations SpecRouter.specRouter Example.prodEnv
                  "build" "" _ (LoadPage "/a") "/a")).
  vm_compute. eauto.
Defined.

(** ** C2: a cached failure *)

Lemma loadPage_from_cache (env : Env) (assetPrefix route r : string) (W : World) (d : PageData) :
  normalizeRoute route = Return r ->
  pageCache (this W) !! r = Some d ->
  loadPage env assetPrefix route W =
  Return (length (promises (runtime W)),
          set_promises (promises (runtime W) ++
                        [if truthy (error d) then Rejected (error d)
                         else Resolved (page d) (mod_ d)]) W).
Proof.
  intros Hn Hc. unfold loadPage. rewrite Hn. cbn [bind]. do 2 f_equal.
  unfold loadPageExecutor. cbn. rewrite Hc.
  assert (Hs : forall o, settle (length (promises (runtime W))) o
                 (set_promises (promises (runtime W) ++ [Pending]) W)
               = set_promises (promises (runtime W) ++ [o]) W).
  { intros o. unfold settle. cbn.
    rewrite lookup_app_r, Nat.sub_diag by lia. cbn.
    unfold set_promises, with_runtime. cbn. do 2 f_equal.
    rewrite insert_app_r_alt, Nat.sub_diag by lia. reflexivity. }
  destruct (truthy (error d)); apply Hs.
Qed.

(** C2, as stated, fails: the route that failed is registered again, and the
    next [loadPage] resolves. *)
Lemma loadPage_failure_not_permanent :
  let W1 := Example.stepIn Example.prodEnv Example.world0
              (RegisterPage "/a" (Throw JTypeError)) in
  let W2 := Example.stepIn Example.prodEnv W1
              (RegisterPage "/a" (Return Example.moduleA)) in
  pageCache (this W1) !! "/a"
    = Some {| error := JTypeError; page := JUndefined; mod_ := JUndefined |} /\
  exists W3, loadPage Example.prodEnv "" "/a" W2 = Return (0, W3) /\
             promiseState W3 0 = Resolved Example.moduleA Example.moduleA.
Proof.
  split; [vm_compute; reflexivity |].
  eexists. split; vm_compute; reflexivity.
Qed.

(** C2, amended. While the cache holds for a route a failure entry whose
    error is truthy, [loadPage] of that route returns a promise that is
    already rejected with the cached error, and does nothing else: no
    listener, no loading mark, no reaction, no element, no event.  The entry
    stays as long as no registration of the route is carried out. *)
Theorem loadPage_cached_failure :
  forall (R : RouterUtils) (env : Env) (buildId assetPrefix route r : string)
         (W : World) (d : PageData),
    normalizeRoute route = Return r ->
    pageCache (this W) !! r = Some d ->
    truthy (error d) = true ->
    (exists W',
        loadPage env assetPrefix route W = Return (length (promises (runtime W)), W') /\
        promiseState W' (length (promises (runtime W))) = Rejected (error d) /\
        this W' = this W /\ document W' = document W /\ window W' = window W /\
        reactions (runtime W') = reactions (runtime W) /\
        emitted (runtime W') = emitted (runtime W)) /\
    (forall evs,
        noRegistration env buildId assetPrefix r W evs = true ->
        pageCache (this (run env buildId assetPrefix W evs)) !! r = Some d).
Proof.
  intros R env buildId assetPrefix route r W d Hn Hc Ht. split.
  - eexists. split; [apply (loadPage_from_cache _ _ _ _ _ _ Hn Hc) |].
    rewrite Ht. repeat split.
    unfold promiseState. cbn. now rewrite lookup_app_r, Nat.sub_diag by lia.
  - intros evs Hevs. now rewrite run_pageCache_noRegistration.
Qed.

(** After [registerPage] of a function that throws, [loadPage] of the route
    with a trailing slash is rejected at once. *)
Lemma loadPage_cached_failure_witness :
  let W1 := Example.stepIn Example.prodEnv Example.world0
              (RegisterPage "/a" (Throw JTypeError)) in
  exists W', loadPage Example.prodEnv "" "/a/" W1 = Return (0, W') /\
             promiseState W' 0 = Rejected JTypeError.
Proof.
  destruct (loadPage_cached_failure SpecRouter.specRouter Example.prodEnv "build" "" "/a/" "/a"
              (Example.stepIn Example.prodEnv Example.world0
                 (RegisterPage "/a" (Throw JTypeError)))
              {| error := JTypeError; page := JUndefined; mod_ := JUndefined |}
              eq_refl eq_refl eq_refl) as [(W' & E & Hp & _) _].
  exists W'. split; [exact E | exact Hp].
Defined.

(** ** C6: a route the manifest does not know *)





(** ** C10: a trailing slash *)

(** C10. A route that is not the root and ends with exactly one slash is the
    same to [loadPage] as the route without that slash: both normalise to the
    route without it, so in every world the two calls return the same promise
    and leave the same world (the same cache entry read, the same listener
    under the same key, the same loading mark).  When the route does not
    begin with a slash, both calls throw. *)
Theorem loadPage_trailing_slash :
  forall (env : Env) (assetPrefix x : string) (W : World),
    x <> "" ->
    endsWith x "/" = false ->
    (startsWith x "/" = true ->
       normalizeRoute (x +:+ "/") = Return x /\
       normalizeRoute x = Return x /\
       loadPage env assetPrefix (x +:+ "/") W = loadPage env assetPrefix x W /\
       exists W', loadPage env assetPrefix x W = Return (length (promises (runtime W)), W')) /\
    (startsWith x "/" = false ->
       is_throw (loadPage env assetPrefix (x +:+ "/") W) = true /\
       is_throw (loadPage env assetPrefix x W) = true).
Proof.
  intros env assetPrefix x W Hx He. split.
  - intros [t ->]%startsWith_slash.
    assert (E1 : normalizeRoute (String "/" t +:+ "/") = Return (String "/" t))
      by now rewrite normalizeRoute_strip.
    assert (E2 : normalizeRoute (String "/" t) = Return (String "/" t))
      by now rewrite normalizeRoute_fixed.
    split; [exact E1 |]. split; [exact E2 |].
    unfold loadPage. rewrite E1, E2. split; [reflexivity |]. cbn [bind]. eauto.
  - intros Hs. unfold loadPage.
    rewrite normalizeRoute_strip, normalizeRoute_fixed by assumption.
    destruct x as [|c x]; [congruence |].
    destruct (Ascii.eqb_spec c "/") as [->|Hc]; [discriminate Hs |].
    destruct c as [[] [] [] [] [] [] [] []]; try (split; reflexivity). now contradict Hc.
Qed.

(** [/about/] and [/about] in a new loader. *)
Lemma loadPage_trailing_slash_witness :
  loadPage Example.devEnv "" "/about/" Example.world0
  = loadPage Example.devEnv "" "/about" Example.world0.
Proof.
  apply (proj1 (loadPage_trailing_slash Example.devEnv "" "/about" Example.world0
                  ltac:(discriminate) eq_refl)).
  reflexivity.
Defined.

(** ** C4: the link [prefetch] injects *)

Lemma append_snoc_eq (s t : string) (c d : ascii) :
  s +:+ String c "" = t +:+ String d "" -> s = t /\ c = d.
Proof.
  revert t; induction s as [|x s IH]; intros [|y t]; cbn; intros E.
  - now injection E as ->.
  - injection E as -> E. destruct t; discriminate.
  - injection E as -> E. destruct s; discriminate.
  - injection E as -> E. destruct (IH _ E) as [-> ->]. now split.
Qed.

Lemma endsWith_js_not_css (s : string) : endsWith (s +:+ ".js") ".css" = false.
Proof.
  destruct (endsWith (s +:+ ".js") ".css") eqn:E; [|reflexivity].
  apply endsWith_inv in E as [t E]. exfalso.
  change ".js" with (".j" +:+ "s") in E. change ".css" with (".cs" +:+ "s") in E.
  rewrite <- !append_assoc in E. apply append_snoc_eq in E as [E _].
  change ".j" with ("." +:+ "j") in E. change ".cs" with (".c" +:+ "s") in E.
  rewrite <- !append_assoc in E. apply append_snoc_eq in E as [_ E]. discriminate.
Qed.

Lemma append_nonempty_r (a b : string) : b <> "" -> a +:+ b <> "".
Proof. intros Hb. destruct a; [exact Hb | discriminate]. Qed.

(** *** Links *)

Lemma startsWith_refl (s : string) : startsWith s s = true.
Proof.
  apply startsWith_spec. exists "". now rewrite append_empty_r.
Qed.

Lemma hasLink_appendLink (env : Env) (url r : string) (a : option string) (W : World) :
  url <> "" -> hasLink r url (appendLink env url r a W) = true.
Proof.
  intros Hu. unfold hasLink, appendLink. cbn.
  apply String.eqb_neq in Hu. rewrite Hu. cbn.
  rewrite existsb_app. cbn. rewrite String.eqb_refl, startsWith_refl. cbn.
  apply orb_true_r.
Qed.

Lemma hasLink_more (r url : string) (W W' : World) (l : list LinkEl) :
  links (document W') = links (document W) ++ l ->
  hasLink r url W = true -> hasLink r url W' = true.
Proof.
  unfold hasLink. intros ->. rewrite existsb_app.
  intros [-> ->]%andb_true_iff. reflexivity.
Qed.

Lemma prefetch_dependency (env : Env) (buildId assetPrefix u : string) (W : World) :
  slowConnection W = false ->
  exists W' l,
    prefetch env buildId assetPrefix u true W = Return W' /\
    (u <> "" -> hasLink (relPrefetch env) u W' = true) /\
    links (document W') = links (document W) ++ l /\
    (forall x, x ∈ l ->
       rel x = relPrefetch env /\ href x = u /\
       as_ x = Some (if endsWith u ".css" then "style" else "script")) /\
    scripts (document W') = scripts (document W) /\
    this W' = this W /\ runtime W' = runtime W /\ window W' = window W.
Proof.
  intros Hs. unfold prefetch. rewrite Hs. cbn [prefetchUrl bind default from_option id].
  rewrite andb_false_r.
  destruct (hasLink (relPrefetch env) u W) eqn:Hl.
  { exists W, []. rewrite app_nil_r.
    repeat split; try easy; intros x Hx; now apply elem_of_nil in Hx. }
  destruct (String.eqb_spec u "") as [->|Hu].
  { exists W, []. rewrite app_nil_r.
    repeat split; try easy; intros x Hx; now apply elem_of_nil in Hx. }
  eexists _, [_]. split; [reflexivity |].
  split; [intros _; now apply hasLink_appendLink |].
  split; [reflexivity |]. split; [|repeat split].
  intros x ->%list_elem_of_singleton. repeat split.
Qed.

Lemma prefetchAll_links (env : Env) (buildId assetPrefix : string) (urls : list string)
    (W : World) :
  slowConnection W = false ->
  let W' := prefetchAll env buildId assetPrefix urls W in
  (forall d, d ∈ urls -> d <> "" -> hasLink (relPrefetch env) d W' = true) /\
  (exists l, links (document W') = links (document W) ++ l /\
     forall x, x ∈ l ->
       rel x = relPrefetch env /\ href x ∈ urls /\
       as_ x = Some (if endsWith (href x) ".css" then "style" else "script")) /\
  scripts (document W') = scripts (document W) /\
  this W' = this W /\ runtime W' = runtime W /\ window W' = window W.
Proof.
  revert W. induction urls as [|u urls IH]; intros W Hs.
  { cbn. split; [intros d Hd; now apply elem_of_nil in Hd |].
    split; [|repeat split]. exists []. rewrite app_nil_r. split; [reflexivity |].
    intros x Hx. now apply elem_of_nil in Hx. }
  destruct (prefetch_dependency env buildId assetPrefix u W Hs)
    as (W1 & l1 & E & Hu & El1 & Hl1 & Es1 & Et1 & Er1 & Ew1).
  assert (Hs1 : slowConnection W1 = false) by (unfold slowConnection; now rewrite Ew1).
  destruct (IH W1 Hs1) as (Hd & (l2 & El2 & Hl2) & Es2 & Et2 & Er2 & Ew2).
  cbn zeta. cbn [prefetchAll]. rewrite E.
  split; [|split; [|repeat split; congruence]].
  - intros d [-> | Hin]%elem_of_cons Hne; [|now apply Hd].
    eapply hasLink_more; [exact El2 | now apply Hu].
  - exists (l1 ++ l2). split; [rewrite El2, El1; now rewrite app_assoc |].
    intros x [Hx | Hx]%elem_of_app.
    + destruct (Hl1 x Hx) as (H1 & H2 & H3). rewrite H2.
      repeat split; [exact H1 | apply elem_of_cons; now left | exact H3].
    + destruct (Hl2 x Hx) as (H1 & H2 & H3).
      repeat split; [exact H1 | apply elem_of_cons; now right | exact H3].
Qed.

(** The reaction [prefetch] queues in production, and the one that queues:
    the manifest comes, if it was not there, and both run. *)
Lemma prefetchDependencies_run (R : RouterUtils) (env : Env) (buildId assetPrefix route : string)
    (m : gmap string (list string)) (urls : list string) (W : World) :
  slowConnection W = false ->
  m !! route = Some urls ->
  buildManifest (window W) = None \/ buildManifest (window W) = Some m ->
  let n := length (reactions (runtime W)) in
  let deps := map (fun url => assetPrefix +:+ "/_next/" +:+ encodeURI url) urls in
  let W3 := run env buildId assetPrefix (getDependencies route ForPrefetch W)
              [BuildManifestReady m; RunReaction n; RunReaction n] in
  (forall d, d ∈ deps -> hasLink (relPrefetch env) d W3 = true) /\
  (exists l, links (document W3) = links (document W) ++ l /\
     forall x, x ∈ l ->
       rel x = relPrefetch env /\ href x ∈ deps /\
       as_ x = Some (if endsWith (href x) ".css" then "style" else "script")) /\
  scripts (document W3) = scripts (document W) /\
  this W3 = this W /\ runtime W3 = runtime W.
Proof.
  intros Hs Hm Hb n deps W3.
  set (j := GetDependenciesThen route ForPrefetch).
  set (V := step env buildId assetPrefix (getDependencies route ForPrefetch W)
              (BuildManifestReady m)).
  assert (HV : buildManifest (window V) = Some m /\
               connection (window V) = connection (window W) /\
               this V = this W /\ document V = document W /\
               runtime V = runtime (getDependencies route ForPrefetch W)).
  { unfold V. cbn [step].
    change (window (getDependencies route ForPrefetch W)) with (window W).
    destruct Hb as [Hb | Hb]; rewrite Hb; repeat split; assumption. }
  destruct HV as (Hwin & Hcn & Ht & Hd & Hr).
  assert (E2 : reactions (runtime V) = reactions (runtime W) ++ [j]) by now rewrite Hr.
  set (B := set_reactions (reactions (runtime W)) V).
  assert (E3 : W3 = prefetchAll env buildId assetPrefix deps B).
  { unfold W3. rewrite !run_cons. fold V. unfold n.
    rewrite (step_RunReaction_last R env buildId assetPrefix _ _ _ E2).
    cbn [runJob j]. change (buildManifest (window (set_reactions _ V)))
      with (buildManifest (window V)). rewrite Hwin.
    unfold getDependenciesThen. rewrite Hm. fold deps.
    rewrite (step_RunReaction_last R env buildId assetPrefix _ (reactions (runtime W))
               (PrefetchDependencies deps)) by reflexivity.
    reflexivity. }
  assert (HsB : slowConnection B = false).
  { unfold slowConnection in *. change (window B) with (window V). now rewrite Hcn. }
  destruct (prefetchAll_links env buildId assetPrefix deps B HsB)
    as (H1 & (l & El & Hl) & H3 & H4 & H5 & _).
  rewrite E3. split; [|split; [|split; [|split]]].
  - intros d Hd'. apply H1; [exact Hd' |].
    unfold deps in Hd'. clear -Hd'. induction urls as [|url urls IH].
    + now apply elem_of_nil in Hd'.
    + cbn in Hd'. apply elem_of_cons in Hd' as [-> | Hd']; [|now apply IH].
      apply append_nonempty_r. discriminate.
  - exists l. split; [|exact Hl]. rewrite El. change (document B) with (document V).
    now rewrite Hd.
  - rewrite H3. change (document B) with (document V). now rewrite Hd.
  - rewrite H4. exact Ht.
  - rewrite H5. unfold B. cbn [runtime set_reactions with_runtime]. rewrite Hr.
    cbn. now destruct (runtime W).
Qed.

(** C4, as stated, fails: in a production build [prefetch] of a route injects
    no link for the page's own bundle, only links for the dependencies the
    build manifest lists. *)
Lemma prefetch_production_no_bundle_link :
  let W := Example.runIn Example.prodEnv Example.world0
             [Prefetch "/about" false;
              BuildManifestReady {[ "/about" := ["static/chunks/commons.js"] ]};
              RunReaction 0; RunReaction 0] in
  slowConnection Example.world0 = false /\
  links (document Example.world0) = [] /\
  links (document W) =
    [{| href := "/_next/static/chunks/commons.js"; rel := "prefetch";
        as_ := Some "script"; link_crossOrigin := None |}] /\
  reactions (runtime W) = [].
Proof. repeat split; vm_compute; reflexivity. Qed.

(** C4, amended. A [prefetch] of a route that is not a dependency and passes
    the network check does this.  In a build that is not a production build,
    when the route begins with a slash and no prefetch link has a [href] that
    starts with the page's bundle URL, it injects one link for that URL, with
    the prefetch or preload relation and as a script; the URL is the asset
    prefix, [/_next/static/], the encoded build id, [/pages], the encoded
    asset path and the extension, [.module.js] in a modern build with
    [noModule] support and [.js] otherwise.  In a production build it
    computes no URL and injects nothing itself.  When a prefetch link has a
    [href] that starts with [undefined], that is all.  Otherwise it asks for
    the dependencies of the route, as the route was given; once the build
    manifest is there, if it lists the route, the reactions leave a link
    with the prefetch or preload relation for each of the route's
    dependencies, as a style for a style sheet and as a script otherwise, add
    no other link, and add no script. *)
Theorem prefetch_page_bundle :
  forall (R : RouterUtils) (env : Env) (buildId assetPrefix route : string) (W : World),
    slowConnection W = false ->
    (forall r,
        production env = false ->
        normalizeRoute route = Return r ->
        let ext := if modernBuild env && hasNoModule env then ".module.js" else ".js" in
        let url := assetPrefix +:+ "/_next/static/" +:+ encodeURIComponent buildId
                   +:+ "/pages" +:+ encodeURI (getAssetPath r) +:+ ext in
        hasLink (relPrefetch env) url W = false ->
        exists W',
          prefetch env buildId assetPrefix route false W = Return W' /\
          links (document W') = links (document W) ++
            [{| href := url; rel := relPrefetch env; as_ := Some "script";
                link_crossOrigin := crossOrigin env |}] /\
          scripts (document W') = scripts (document W) /\
          reactions (runtime W') = reactions (runtime W)) /\
    (production env = true ->
       (hasLink (relPrefetch env) "undefined" W = true ->
          prefetch env buildId assetPrefix route false W = Return W) /\
       (hasLink (relPrefetch env) "undefined" W = false ->
          exists W',
            prefetch env buildId assetPrefix route false W = Return W' /\
            document W' = document W /\
            reactions (runtime W')
              = reactions (runtime W) ++ [GetDependenciesThen route ForPrefetch] /\
            forall (m : gmap string (list string)) (urls : list string),
              m !! route = Some urls ->
              buildManifest (window W) = None \/ buildManifest (window W) = Some m ->
              let n := length (reactions (runtime W)) in
              let deps := map (fun url => assetPrefix +:+ "/_next/" +:+ encodeURI url) urls in
              let W3 := run env buildId assetPrefix W'
                          [BuildManifestReady m; RunReaction n; RunReaction n] in
              (forall d, d ∈ deps -> hasLink (relPrefetch env) d W3 = true) /\
              (exists l, links (document W3) = links (document W) ++ l /\
                 forall x, x ∈ l ->
                   rel x = relPrefetch env /\ href x ∈ deps /\
                   as_ x = Some (if endsWith (href x) ".css" then "style" else "script")) /\
              scripts (document W3) = scripts (document W) /\
              reactions (runtime W3) = reactions (runtime W))) /\
    (relPrefetch env = "prefetch" \/ relPrefetch env = "preload").
Proof.
  intros R env buildId assetPrefix route W Hslow. split; [|split].
  - intros r Hdev Hn ext url Hl.
    unfold prefetch, prefetchUrl. rewrite Hslow, Hdev, Hn. cbn [negb bind default from_option id].
    fold ext. fold url. rewrite Hl.
    assert (Hne : String.eqb url "" = false).
    { apply String.eqb_neq. unfold url. apply append_nonempty_r. discriminate. }
    assert (Hcss : endsWith url ".css" = false).
    { unfold url, ext. destruct (modernBuild env && hasNoModule env).
      - change ".module.js" with (".module" +:+ ".js").
        rewrite <- !append_assoc. apply endsWith_js_not_css.
      - rewrite <- !append_assoc. apply endsWith_js_not_css. }
    rewrite Hne, Hcss. cbn [andb]. eexists. split; [reflexivity |]. repeat split.
  - intros Hprod.
    assert (Hpre : forall b, hasLink (relPrefetch env) "undefined" W = b ->
              prefetch env buildId assetPrefix route false W =
              Return (if b then W else getDependencies route ForPrefetch W)).
    { intros b Hu. unfold prefetch, prefetchUrl. rewrite Hslow, Hprod.
      cbn [negb bind default from_option id andb]. rewrite Hu. now destruct b. }
    split; [intros Hu; exact (Hpre true Hu) |].
    intros Hu. eexists. split; [exact (Hpre false Hu) |].
    split; [reflexivity |]. split; [reflexivity |].
    intros m urls Hm Hb n deps W3.
    destruct (prefetchDependencies_run R env buildId assetPrefix route m urls W Hslow Hm Hb)
      as (H1 & H2 & H3 & _ & H5).
    split; [exact H1 |]. split; [exact H2 |]. split; [exact H3 |].
    exact (f_equal reactions H5).
  - unfold relPrefetch. destruct (supportsPreload env && negb (supportsPrefetch env)); auto.
Qed.

(** A development build: the link for the bundle of [/about].  A production
    build: no link at first, and the links of the dependencies once the
    manifest has come. *)
Lemma prefetch_page_bundle_witness :
  let m : gmap string (list string) := {[ "/about" := ["static/a.js"; "static/a.css"] ]} in
  (exists W',
      prefetch Example.devEnv "build" "" "/about/" false Example.world0 = Return W' /\
      links (document W') =
        [{| href := "/_next/static/build/pages/about.js"; rel := "prefetch";
            as_ := Some "script"; link_crossOrigin := None |}]) /\
  (exists W',
      prefetch Example.prodEnv "build" "" "/about" false Example.world0 = Return W' /\
      links (document W') = [] /\
      hasLink "prefetch" "/_next/static/a.css"
        (Example.runIn Example.prodEnv W' [BuildManifestReady m; RunReaction 0; RunReaction 0])
      = true).
Proof.
  intros m. split.
  - destruct (proj1 (prefetch_page_bundle SpecRouter.specRouter Example.devEnv "build" ""
                       "/about/" Example.world0 eq_refl) "/about" eq_refl eq_refl eq_refl)
      as (W' & E & Hl & _).
    exists W'. split; [exact E | exact Hl].
  - destruct (proj2 (proj1 (proj2 (prefetch_page_bundle SpecRouter.specRouter Example.prodEnv
                                     "build" "" "/about" Example.world0 eq_refl)) eq_refl)
                eq_refl)
      as (W' & E & Hd & _ & Hrun).
    exists W'. split; [exact E |]. split; [now rewrite Hd |].
    destruct (Hrun m ["static/a.js"; "static/a.css"] eq_refl (or_introl eq_refl))
      as (Hl & _).
    apply (Hl "/_next/static/a.css"). apply elem_of_cons. right. apply elem_of_cons. now left.
Defined.

(** ** Invariants of the register events *)

Lemma calm_quiet (W W' : World) : calm W W' -> quiet W W'.
Proof. intros (_ & A & B). now split. Qed.

Lemma quiet_refl (W : World) : quiet W W.
Proof. now split. Qed.

Lemma quiet_trans (W1 W2 W3 : World) : quiet W1 W2 -> quiet W2 W3 -> quiet W1 W3.
Proof. intros [A1 B1] [A2 B2]. split; congruence. Qed.

Lemma quiet_listeners (W W' : World) (k : string) : quiet W W' -> listeners W' k = listeners W k.
Proof. intros [E _]. unfold listeners. now rewrite E. Qed.

Lemma quiet_promiseState (W W' : World) (p : nat) :
  quiet W W' -> promiseState W' p = promiseState W p.
Proof. intros [_ E]. unfold promiseState. now rewrite E. Qed.

Section Preserved.
Context `{RouterUtils}.
Variables (env : Env) (buildId assetPrefix : string).
Variable Q : World -> Prop.
Hypothesis Q_quiet : forall W W', quiet W W' -> Q W -> Q W'.
Hypothesis Q_emit : forall W k evt, Q W -> Q (emit k evt W).
Hypothesis Q_loadPage :
  forall W route p W', loadPage env assetPrefix route W = Return (p, W') -> Q W -> Q W'.

Lemma register_preserves (route : string) (regFn : completion JsVal) (W : World) :
  Q W -> Q (register route regFn W).
Proof.
  intros HQ. unfold register.
  destruct (bind regFn _) as [pd|err]; apply Q_emit;
    (eapply Q_quiet; [|exact HQ]); now split.
Qed.

Lemma runJob_preserves (j : Job) (W W' : World) :
  runJob env buildId assetPrefix j W = Some W' -> Q W -> Q W'.
Proof.
  intros E HQ.
  destruct j as [route use | deps route | urls | href asPath route]; cbn [runJob] in E.
  - destruct (buildManifest (window W)) as [m|]; [|discriminate].
    unfold getDependenciesThen in E.
    destruct (m !! route); [|destruct (inherited route)]; injection E as <-.
    + eapply Q_quiet; [|exact HQ]. now split.
    + exact HQ.
    + eapply Q_quiet; [|apply Q_emit; exact HQ]. now split.
  - injection E as <-. eapply Q_quiet; [|exact HQ].
    apply calm_quiet, injectDependencies_calm.
  - injection E as <-. eapply Q_quiet; [|exact HQ].
    apply calm_quiet, prefetchAll_calm.
  - destruct (ssgManifest (window W)); [|discriminate]. injection E as <-.
    eapply Q_quiet; [|exact HQ]. apply calm_quiet, prefetchDataThen_calm.
Qed.

(** What the listeners and promises keep through silent changes, through a
    broadcast and through [loadPage], every event keeps. *)
Lemma step_preserves (W : World) (ev : Event) :
  Q W -> Q (step env buildId assetPrefix W ev).
Proof.
  intros HQ.
  destruct ev as [route | route regFn | route dep | href asPath | i | i | m | s | cn
                 | status | i status]; cbn [step].
  - destruct (loadPage env assetPrefix route W) as [[p W']|err] eqn:E; [|exact HQ].
    eapply Q_loadPage; eassumption.
  - unfold registerPage. destruct (negb (production env) && hotBusy W).
    + eapply Q_quiet; [|exact HQ]. now split.
    + now apply register_preserves.
  - destruct (prefetch env buildId assetPrefix route dep W) as [W'|err] eqn:E; [|exact HQ].
    eapply Q_quiet; [|exact HQ]. eapply calm_quiet, prefetch_calm, E.
  - destruct (prefetchData href asPath W) as [W'|err] eqn:E; [|exact HQ].
    eapply Q_quiet; [|exact HQ]. eapply calm_quiet, prefetchData_calm, E.
  - destruct (scripts (document W) !! i); [|exact HQ]. now apply Q_emit.
  - destruct (reactions (runtime W) !! i) as [j|]; [|exact HQ].
    destruct (runJob _ _ _ j _) as [W'|] eqn:E; [|exact HQ].
    eapply runJob_preserves; [exact E |].
    eapply Q_quiet; [|exact HQ]. now split.
  - destruct (buildManifest (window W)); [exact HQ |].
    eapply Q_quiet; [|exact HQ]. now split.
  - destruct (ssgManifest (window W)); [exact HQ |].
    eapply Q_quiet; [|exact HQ]. now split.
  - eapply Q_quiet; [|exact HQ]. now split.
  - destruct (hotStatus (window W)); [|exact HQ].
    eapply Q_quiet; [|exact HQ]. now split.
  - unfold hotCheck. destruct (hotHandlers (window W) !! i) as [[route regFn]|]; [|exact HQ].
    destruct (String.eqb status "idle"); [|exact HQ].
    apply register_preserves. eapply Q_quiet; [|exact HQ]. now split.
Qed.

Lemma run_preserves (W : World) (evs : list Event) :
  Q W -> Q (run env buildId assetPrefix W evs).
Proof.
  revert W. induction evs as [|ev evs IH]; intros W HQ; [exact HQ |].
  rewrite run_cons. apply IH. now apply step_preserves.
Qed.

End Preserved.

(** *** Listeners belong to promises *)

Lemma wf_quiet (W W' : World) : quiet W W' -> wf W -> wf W'.
Proof.
  intros Hq Hwf k h Hh. rewrite (quiet_listeners _ _ _ Hq) in Hh.
  destruct Hq as [_ E]. rewrite E. now apply (Hwf k).
Qed.

Lemma wf_emit (W : World) (k : string) (evt : PageData) : wf W -> wf (emit k evt W).
Proof.
  intros Hwf k' h Hh%emit_listeners_sub. rewrite emit_length. now apply (Hwf k').
Qed.

Lemma wf_loadPage (env : Env) (assetPrefix : string) (W : World) (route : string)
    (p : nat) (W' : World) :
  loadPage env assetPrefix route W = Return (p, W') -> wf W -> wf W'.
Proof.
  intros (r & _ & -> & ->)%loadPage_Return Hwf k h Hh.
  rewrite loadPageExecutor_length. cbn. rewrite length_app. cbn.
  destruct (loadPageExecutor_listeners env assetPrefix (length (promises (runtime W))) r
              (set_promises (promises (runtime W) ++ [Pending]) W) k)
    as [E | (_ & _ & r2 & E)]; rewrite E in Hh.
  - specialize (Hwf k h Hh). lia.
  - apply elem_of_app in Hh as [Hh | Hh].
    + specialize (Hwf k h Hh). lia.
    + apply list_elem_of_singleton in Hh as ->. cbn. lia.
Qed.

Lemma wf_newPageLoader (initialPage : string) (doc : Document) (win : Window) :
  wf (newPageLoader initialPage doc win).
Proof. intros k h Hh. unfold listeners in Hh. cbn in Hh. rewrite lookup_empty in Hh. easy. Qed.

(** *** Promises that wait together *)

Lemma pending_lookup (W : World) (p : nat) :
  p < length (promises (runtime W)) -> promiseState W p = Pending ->
  promises (runtime W) !! p = Some Pending.
Proof.
  intros Hp E. unfold promiseState in E.
  destruct (promises (runtime W) !! p) as [o|] eqn:El; [cbn in E; now subst |].
  apply lookup_ge_None in El. lia.
Qed.

Lemma waiting_together (k : string) (P : list nat) (W : World) :
  waiting k P W -> together k P W.
Proof.
  intros Hw. split; [|now left].
  intros p Hp. destruct Hw as [_ Hw]. destruct (Hw p Hp) as [E _].
  now apply lookup_lt_Some in E.
Qed.

(** Promises that share their fate are in the same state. *)
Lemma together_same (k : string) (P : list nat) (W : World) (p q : nat) :
  together k P W -> p ∈ P -> q ∈ P -> promiseState W p = promiseState W q.
Proof.
  intros [_ [[_ Hw] | (o & _ & Ho)]] Hp Hq.
  - destruct (Hw p Hp) as [Ep _]. destruct (Hw q Hq) as [Eq _].
    unfold promiseState. now rewrite Ep, Eq.
  - now rewrite (Ho p Hp), (Ho q Hq).
Qed.

Lemma together_quiet (k : string) (P : list nat) (W W' : World) :
  quiet W W' -> together k P W -> together k P W'.
Proof.
  intros Hq [Hlen Hcase]. pose proof Hq as [_ Ep]. split; [now rewrite Ep |].
  destruct Hcase as [[Ha Hb] | (o & Ho & Hall)].
  - left. split.
    + intros k' h Hh. rewrite (quiet_listeners _ _ _ Hq) in Hh. now apply Ha.
    + intros p Hp. rewrite Ep, (quiet_listeners _ _ _ Hq). now apply Hb.
  - right. exists o. split; [exact Ho |].
    intros p Hp. rewrite (quiet_promiseState _ _ _ Hq). now apply Hall.
Qed.

(** A broadcast settles all of them, or none. *)
Lemma together_emit (k : string) (P : list nat) (W : World) (k' : string) (evt : PageData) :
  together k P W -> together k P (emit k' evt W).
Proof.
  intros [Hlen Hcase]. split; [now rewrite emit_length |].
  destruct Hcase as [[Ha Hb] | (o & Ho & Hall)].
  - destruct (decide (k' = k)) as [->|Hne].
    + right. exists (outcome evt). split; [apply outcome_not_pending |].
      intros p Hp. destruct (Hb p Hp) as (Epend & h & Hh & <-).
      now apply emit_pending.
    + left. split.
      * intros k2 h Hh%emit_listeners_sub. now apply Ha.
      * intros p Hp. destruct (Hb p Hp) as (Epend & h & Hh & Ehp).
        assert (Hnot : forall h', h' ∈ listeners W k' -> fire_promise h' <> p).
        { intros h' Hh' E. apply Hne. apply (Ha k' h' Hh'). now rewrite E. }
        split.
        -- apply pending_lookup; [rewrite emit_length; now apply Hlen |].
           rewrite (emit_other _ _ _ _ Hnot). unfold promiseState. now rewrite Epend.
        -- exists h. split; [|exact Ehp].
           apply emit_listeners_keep; [exact Hh |].
           intros Hin. now apply (Hnot h Hin).
  - right. exists o. split; [exact Ho |].
    intros p Hp. rewrite emit_settled; [now apply Hall |].
    now rewrite (Hall p Hp).
Qed.

(** [loadPage] creates a promise of its own and touches no other. *)
Lemma together_loadPage (env : Env) (assetPrefix : string) (k : string) (P : list nat)
    (W : World) (route : string) (p : nat) (W' : World) :
  loadPage env assetPrefix route W = Return (p, W') -> together k P W -> together k P W'.
Proof.
  intros (r & _ & -> & ->)%loadPage_Return [Hlen Hcase].
  set (W1 := set_promises (promises (runtime W) ++ [Pending]) W).
  set (p := length (promises (runtime W))).
  assert (Hold : forall q, q ∈ P ->
            promises (runtime (loadPageExecutor env assetPrefix p r W1)) !! q
            = promises (runtime W) !! q).
  { intros q Hq. specialize (Hlen q Hq).
    rewrite loadPageExecutor_promises by (unfold p; lia).
    unfold W1. cbn. now rewrite lookup_app_l. }
  split.
  - intros q Hq. rewrite loadPageExecutor_length. unfold W1. cbn.
    rewrite length_app. specialize (Hlen q Hq). lia.
  - destruct Hcase as [[Ha Hb] | (o & Ho & Hall)].
    + left. split.
      * intros k' h Hh Hp.
        destruct (loadPageExecutor_listeners env assetPrefix p r W1 k')
          as [E | (_ & _ & r2 & E)]; rewrite E in Hh.
        -- now apply (Ha k' h).
        -- apply elem_of_app in Hh as [Hh | Hh]; [now apply (Ha k' h) |].
           apply list_elem_of_singleton in Hh as ->. cbn in Hp.
           specialize (Hlen _ Hp). unfold p in Hlen. lia.
      * intros q Hq. destruct (Hb q Hq) as (Epend & h & Hh & Ehp).
        split; [now rewrite Hold |].
        exists h. split; [|exact Ehp].
        destruct (loadPageExecutor_listeners env assetPrefix p r W1 k)
          as [E | (_ & _ & r2 & E)]; rewrite E; [exact Hh |].
        apply elem_of_app. now left.
    + right. exists o. split; [exact Ho |].
      intros q Hq. unfold promiseState. rewrite Hold by assumption. now apply Hall.
Qed.

Section Invariants.
Context `{RouterUtils}.
Variables (env : Env) (buildId assetPrefix : string).

(** In every world a new loader can reach, listeners belong to promises. *)
Lemma wf_run (W : World) (evs : list Event) :
  wf W -> wf (run env buildId assetPrefix W evs).
Proof.
  apply run_preserves.
  - apply wf_quiet.
  - intros; now apply wf_emit.
  - intros; eapply wf_loadPage; eassumption.
Qed.

(** Promises that share their fate share it for ever. *)
Lemma together_run (k : string) (P : list nat) (W : World) (evs : list Event) :
  together k P W -> together k P (run env buildId assetPrefix W evs).
Proof.
  apply run_preserves.
  - intros; eapply together_quiet; eassumption.
  - intros; now apply together_emit.
  - intros; eapply together_loadPage; eassumption.
Qed.

End Invariants.

(** ** Calls of [loadPage] in a row *)

(** A call for a route the cache does not hold: a new pending promise and
    its listener under the route, and a load only if none is under way. *)
Lemma loadPage_uncached (env : Env) (assetPrefix route r : string) (W : World) :
  normalizeRoute route = Return r ->
  pageCache (this W) !! r = None ->
  exists r2 W',
    loadPage env assetPrefix route W = Return (length (promises (runtime W)), W') /\
    promises (runtime W') = promises (runtime W) ++ [Pending] /\
    pageRegisterEvents (this W') =
      <[ r := listeners W r ++ [Fire (length (promises (runtime W))) r2] ]>
        (pageRegisterEvents (this W)) /\
    pageCache (this W') = pageCache (this W) /\
    r ∈ loadingRoutes (this W') /\
    (r ∈ loadingRoutes (this W) ->
       reactions (runtime W') = reactions (runtime W) /\ document W' = document W) /\
    (r ∉ loadingRoutes (this W) -> issued env assetPrefix r W W').
Proof.
  intros Hn Hc. destruct (normalizeRoute_twice _ _ Hn) as [r2 Hr2].
  unfold loadPage. rewrite Hn. cbn [bind]. unfold loadPageExecutor. cbn. rewrite Hc.
  destruct (decide (r ∈ loadingRoutes (this W))) as [Hin|Hout].
  - exists r, (on r (Fire (length (promises (runtime W))) r)
                 (set_promises (promises (runtime W) ++ [Pending]) W)).
    do 4 (split; [reflexivity |]). split; [exact Hin |].
    split; [intros _; split; reflexivity | intros Hout; contradiction].
  - unfold issued. destruct (production env).
    + eexists r, _. do 4 (split; [reflexivity |]).
      split; [cbn; set_solver |].
      split; [intros Hin; contradiction | intros _; split; reflexivity].
    + rewrite Hr2. eexists r2, _. do 4 (split; [reflexivity |]).
      split; [cbn; set_solver |].
      split; [intros Hin; contradiction | intros _].
      do 2 (split; [reflexivity |]). exists r2. split; reflexivity.
Qed.

Lemma length_snoc {A} (l : list A) (x : A) : length (l ++ [x]) = S (length l).
Proof. rewrite length_app. cbn. lia. Qed.

Lemma waiting_equiv (k : string) (P P' : list nat) (W : World) :
  (forall x, x ∈ P' -> x ∈ P) -> waiting k P W -> waiting k P' W.
Proof.
  intros Hsub [Ha Hb]. split.
  - intros k' h Hh Hp. apply (Ha k' h Hh). now apply Hsub.
  - intros p Hp. apply Hb. now apply Hsub.
Qed.

(** The promise of such a call joins those that wait under the route. *)
Lemma waiting_loadPage (r r2 : string) (P : list nat) (W W' : World) :
  wf W -> waiting r P W ->
  promises (runtime W') = promises (runtime W) ++ [Pending] ->
  pageRegisterEvents (this W') =
    <[ r := listeners W r ++ [Fire (length (promises (runtime W))) r2] ]>
      (pageRegisterEvents (this W)) ->
  waiting r (length (promises (runtime W)) :: P) W'.
Proof.
  intros Hwf [Ha Hb] Ep Ee.
  assert (El : forall k, listeners W' k =
             if decide (k = r)
             then listeners W r ++ [Fire (length (promises (runtime W))) r2]
             else listeners W k).
  { intros k. unfold listeners at 1. rewrite Ee. case_decide as Hd.
    - subst. now rewrite lookup_insert_eq.
    - now rewrite lookup_insert_ne by congruence. }
  split.
  - intros k' h Hh Hp. rewrite El in Hh. case_decide as Hd; [exact Hd |].
    apply elem_of_cons in Hp as [Hp | Hp]; [|now apply (Ha k' h)].
    specialize (Hwf k' h Hh). lia.
  - intros p Hp. rewrite Ep, El, decide_True by reflexivity.
    apply elem_of_cons in Hp as [-> | Hp].
    + split; [now rewrite lookup_app_r, Nat.sub_diag by lia |].
      eexists. split; [apply elem_of_app; right; apply list_elem_of_singleton; reflexivity |].
      reflexivity.
    + destruct (Hb p Hp) as (Epend & h & Hh & Ehp). split.
      * rewrite lookup_app_l; [exact Epend | now apply lookup_lt_Some in Epend].
      * exists h. split; [apply elem_of_app; now left | exact Ehp].
Qed.

(** Calls while a load of the route is under way only add listeners. *)
Lemma loadPages_attach (env : Env) (assetPrefix route r : string) (n : nat) :
  normalizeRoute route = Return r ->
  forall (W : World) (P : list nat),
    pageCache (this W) !! r = None ->
    r ∈ loadingRoutes (this W) ->
    wf W -> waiting r P W ->
    exists W',
      loadPages env assetPrefix n route W
        = Return (seq (length (promises (runtime W))) n, W') /\
      reactions (runtime W') = reactions (runtime W) /\
      document W' = document W /\
      waiting r (seq (length (promises (runtime W))) n ++ P) W'.
Proof.
  intros Hn. induction n as [|n IH]; intros W P Hc Hl Hwf Hw.
  - exists W. do 3 (split; [reflexivity |]). exact Hw.
  - destruct (loadPage_uncached env assetPrefix route r W Hn Hc)
      as (r2 & W1 & E & Ep & Ee & Ecache & Hl1 & Hsame & _).
    destruct (Hsame Hl) as [Er Ed].
    pose proof (waiting_loadPage r r2 P W W1 Hwf Hw Ep Ee) as Hw1.
    pose proof (wf_loadPage _ _ _ _ _ _ E Hwf) as Hwf1.
    destruct (IH W1 _ ltac:(now rewrite Ecache) Hl1 Hwf1 Hw1) as (W2 & E2 & Er2 & Ed2 & Hw2).
    rewrite Ep, length_snoc in E2, Hw2.
    exists W2. cbn [loadPages]. rewrite E. cbn [bind]. rewrite E2. cbn [bind seq].
    split; [reflexivity |]. split; [congruence |]. split; [congruence |].
    eapply waiting_equiv; [|exact Hw2].
    intros x. rewrite !elem_of_app, !elem_of_cons. tauto.
Qed.

(** X22. In a world a new loader can reach, let a route have no cache entry
    and no load under way.  Then [n] calls of [loadPage] for it in a row, one
    at least, return [n] different promises and start one load of the route,
    not more: one call of [getDependencies] in production, one page script
    otherwise.  All [n] promises are pending, each with its listener under
    the route; whatever happens afterwards, at any time they are in the same
    state, all pending, all resolved with the same module or all rejected
    with the same error; a register event for the route settles every one
    of them with the outcome of that event, and so does a registration of the
    route: a module resolves them all with its default export, if that is
    truthy, or else with itself, as the page; a thrown truthy value rejects
    them all. *)
Theorem loadPage_concurrent :
  forall (R : RouterUtils) (env : Env) (buildId assetPrefix initialPage : string)
         (doc : Document) (win : Window) (evs0 : list Event) (route r : string) (n : nat),
    let W := run env buildId assetPrefix (newPageLoader initialPage doc win) evs0 in
    normalizeRoute route = Return r ->
    pageCache (this W) !! r = None ->
    r ∉ loadingRoutes (this W) ->
    1 <= n ->
    exists W',
      loadPages env assetPrefix n route W
        = Return (seq (length (promises (runtime W))) n, W') /\
      issued env assetPrefix r W W' /\
      (forall p, p ∈ seq (length (promises (runtime W))) n ->
         promiseState W' p = Pending /\
         exists h, h ∈ listeners W' r /\ fire_promise h = p) /\
      (forall evs p q,
         p ∈ seq (length (promises (runtime W))) n ->
         q ∈ seq (length (promises (runtime W))) n ->
         promiseState (run env buildId assetPrefix W' evs) p
         = promiseState (run env buildId assetPrefix W' evs) q) /\
      (forall evt p,
         p ∈ seq (length (promises (runtime W))) n ->
         promiseState (emit r evt W') p = outcome evt) /\
      (forall regFn p,
         p ∈ seq (length (promises (runtime W))) n ->
         promiseState (register r regFn W') p = outcome (entryOf regFn)) /\
      (forall m d p,
         get_default m = Return d ->
         p ∈ seq (length (promises (runtime W))) n ->
         promiseState (register r (Return m) W') p
         = Resolved (if truthy d then d else m) m) /\
      (forall e p,
         truthy e = true ->
         p ∈ seq (length (promises (runtime W))) n ->
         promiseState (register r (Throw e) W') p = Rejected e).
Proof.
  intros R env buildId assetPrefix initialPage doc win evs0 route r n W Hn Hc Hl Hpos.
  assert (Hwf : wf W) by apply wf_run, wf_newPageLoader.
  destruct n as [|n]; [lia |].
  destruct (loadPage_uncached env assetPrefix route r W Hn Hc)
    as (r2 & W1 & E & Ep & Ee & Ecache & Hl1 & _ & Hissue).
  specialize (Hissue Hl).
  assert (Hw0 : waiting r [] W).
  { split; [intros k' h _ Hp | intros p Hp]; now apply elem_of_nil in Hp. }
  pose proof (waiting_loadPage r r2 [] W W1 Hwf Hw0 Ep Ee) as Hw1.
  pose proof (wf_loadPage _ _ _ _ _ _ E Hwf) as Hwf1.
  destruct (loadPages_attach env assetPrefix route r n Hn W1 _
              ltac:(now rewrite Ecache) Hl1 Hwf1 Hw1) as (W2 & E2 & Er2 & Ed2 & Hw2).
  rewrite Ep, length_snoc in E2, Hw2.
  assert (Hw : waiting r (seq (length (promises (runtime W))) (S n)) W2).
  { eapply waiting_equiv; [|exact Hw2]. intros x. cbn [seq].
    rewrite elem_of_app, !elem_of_cons, elem_of_nil. tauto. }
  assert (Hreg : forall regFn p,
            p ∈ seq (length (promises (runtime W))) (S n) ->
            promiseState (register r regFn W2) p = outcome (entryOf regFn)).
  { intros regFn p Hp. destruct (proj2 Hw p Hp) as (Epend & h & Hh & <-).
    unfold register, entryOf.
    destruct (bind regFn _) as [pd|err]; now apply emit_pending. }
  exists W2. split; [|split; [|split; [|split; [|split; [|split; [|split]]]]]].
  - cbn [loadPages]. rewrite E. cbn [bind]. rewrite E2. reflexivity.
  - unfold issued in *. destruct (production env).
    + destruct Hissue as [A B]. split; congruence.
    + destruct Hissue as (A & B & r3 & C & D). split; [congruence |].
      split; [congruence |]. exists r3. split; [exact C | congruence].
  - intros p Hp. destruct (proj2 Hw p Hp) as [Epend Hh].
    split; [unfold promiseState; now rewrite Epend | exact Hh].
  - intros evs p q Hp Hq.
    apply (together_same r (seq (length (promises (runtime W))) (S n))); [|assumption ..].
    apply together_run. now apply waiting_together.
  - intros evt p Hp. destruct (proj2 Hw p Hp) as (Epend & h & Hh & <-).
    now apply emit_pending.
  - exact Hreg.
  - intros m d p Hd Hp. rewrite (Hreg _ p Hp). unfold entryOf. cbn [bind].
    now rewrite Hd.
  - intros e p He Hp. rewrite (Hreg _ p Hp). unfold entryOf, outcome. cbn. now rewrite He.
Qed.

(** Three calls for [/about] in a new production loader; the manifest does
    not know the route, and the first and the last promise end the same. *)
Lemma loadPage_concurrent_witness :
  exists W',
    loadPages Example.prodEnv "" 3 "/about" Example.world0 = Return ([0; 1; 2], W') /\
    issued Example.prodEnv "" "/about" Example.world0 W' /\
    promiseState (Example.runIn Example.prodEnv W'
                    [BuildManifestReady ∅; RunReaction 0]) 0
    = promiseState (Example.runIn Example.prodEnv W'
                    [BuildManifestReady ∅; RunReaction 0]) 2.
Proof.
  destruct (loadPage_concurrent SpecRouter.specRouter Example.prodEnv "build" ""
              "/" Example.emptyDocument Example.emptyWindow [] "/about" "/about" 3
              eq_refl eq_refl ltac:(vm_compute; set_solver) ltac:(lia))
    as (W' & E & Hi & _ & Hsame & _).
  exists W'. split; [exact E | split; [exact Hi |]].
  apply Hsame; cbn; set_solver.
Defined.

(** ** C1: calls of [loadPage] with events between them *)

(** C1, at the failing input.  In a build that is not a production build:
    [loadPage('/a//')], [loadPage('/a')], [loadPage('/a///')], and the script
    of the third call fails to load.  The call for [/a] was made while [/a]
    had no cache entry and no loading mark, and it injected the script of
    [/a].  The failure event of the third script is emitted under [/a/], where
    the listener of the first call is subscribed; that listener reads [/a],
    the route the second [normalizeRoute] of its call gave, and clears the
    loading mark of [/a].  The promise of the call for [/a] is still pending,
    with its listener and without cache entry, and the next [loadPage('/a')]
    injects the script of [/a] a second time. *)
Theorem loadPage_second_load_dev :
  let pageScript :=
    {| src := "/_next/static/pages/a.js"; type_module := false;
       script_crossOrigin := None; script_route := "/a" |} in
  let W0 := Example.runIn Example.devEnv Example.world0 [LoadPage "/a//"] in
  let W1 := Example.runIn Example.devEnv W0 [LoadPage "/a"] in
  let W2 := Example.runIn Example.devEnv W1 [LoadPage "/a///"; ScriptError 2] in
  (pageCache (this W0) !! "/a" = None /\ ("/a" ∉ loadingRoutes (this W0)) /\
   loadPage Example.devEnv "" "/a" W0 = Return (1, W1) /\
   scripts (document W1) = scripts (document W0) ++ [pageScript] /\
   listeners W1 "/a/" = [Fire 0 "/a"] /\ listeners W1 "/a" = [Fire 1 "/a"]) /\
  (promiseState W2 1 = Pending /\ listeners W2 "/a" = [Fire 1 "/a"] /\
   pageCache (this W2) !! "/a" = None /\ ("/a" ∉ loadingRoutes (this W2)) /\
   promiseState W2 0 = Rejected (pageLoadError "/_next/static/pages/a/.js")) /\
  exists W3,
    loadPage Example.devEnv "" "/a" W2 = Return (3, W3) /\
    scripts (document W3) = scripts (document W2) ++ [pageScript] /\
    map src (scripts (document W3))
    = ["/_next/static/pages/a.js"; "/_next/static/pages/a.js";
       "/_next/static/pages/a/.js"; "/_next/static/pages/a.js"] /\
    promiseState W3 1 = Pending /\ promiseState W3 3 = Pending.
Proof.
  intros pageScript W0 W1 W2.
  split; [|split].
  - split; [reflexivity |].
    split; [intros Hin; apply (bool_decide_pack _) in Hin; vm_compute in Hin; exact Hin |].
    repeat split.
  - do 3 (split; [reflexivity |]).
    split; [intros Hin; apply (bool_decide_pack _) in Hin; vm_compute in Hin; exact Hin |].
    reflexivity.
  - eexists. split; [vm_compute; reflexivity |]. repeat split.
Qed.

(** * Further properties *)

(** ** Routes and asset paths *)

Lemma indexSegment_nonempty_slash (a : string) :
  indexSegment a -> exists t, a = String "/" t.
Proof. intros [-> | [rest ->]]; eauto. Qed.

Lemma indexSegment_prepend (a : string) : indexSegment a -> indexSegment ("/index" +:+ a).
Proof.
  intros [t ->]%indexSegment_nonempty_slash. right. now exists t.
Qed.

(** X1. Different routes have different asset paths: the root takes [/index],
    and the routes that begin with the segment [/index] are moved out of its
    way. *)
Theorem getAssetPath_injective (a b : string) :
  getAssetPath a = getAssetPath b <-> a = b.
Proof.
  split; [|now intros ->].
  unfold getAssetPath.
  destruct (String.eqb_spec a "/") as [->|Ha], (String.eqb_spec b "/") as [->|Hb];
    [reflexivity | | |].
  - destruct (test reIndex b) eqn:Eb.
    + intros E. change "/index" with ("/index" +:+ "") in E at 1.
      apply (inj (String.append "/index")) in E. subst b.
      apply test_reIndex in Eb as [? | [? ?]]; discriminate.
    + intros <-. discriminate Eb.
  - destruct (test reIndex a) eqn:Ea.
    + intros E. change "/index" with ("/index" +:+ "") in E at 2.
      apply (inj (String.append "/index")) in E. subst a.
      apply test_reIndex in Ea as [? | [? ?]]; discriminate.
    + intros ->. discriminate Ea.
  - destruct (test reIndex a) eqn:Ea, (test reIndex b) eqn:Eb.
    + intros E. now apply (inj (String.append "/index")) in E.
    + intros E. apply test_reIndex, indexSegment_prepend in Ea.
      rewrite E in Ea. apply test_reIndex in Ea. congruence.
    + intros E. apply test_reIndex, indexSegment_prepend in Eb.
      rewrite <- E in Eb. apply test_reIndex in Eb. congruence.
    + easy.
Qed.

(** X2. What [normalizeRoute] returns begins with a slash and is its input,
    but for one trailing slash that it drops; it is the input itself exactly
    when the input is the root or does not end with a slash. *)
Theorem normalizeRoute_shape (s r : string) :
  normalizeRoute s = Return r ->
  startsWith r "/" = true /\
  (r = s \/ s = r +:+ "/") /\
  (r = s <-> (s = "/" \/ endsWith s "/" = false)).
Proof.
  intros Hn. destruct (normalizeRoute_Return _ _ Hn) as [t ->].
  destruct (decide (t = "")) as [->|Ht].
  { injection Hn as <-. repeat split; auto. }
  destruct (endsWith (String "/" t) "/") eqn:E1.
  - destruct (endsWith_inv _ _ E1) as [u Hu].
    assert (Hu0 : u <> "") by (intros ->; cbn in Hu; congruence).
    destruct (snoc_starts_slash u t Hu0 (eq_sym Hu)) as [u' Hu'].
    rewrite Hu, normalizeRoute_strip in Hn by assumption.
    rewrite Hu' in Hn. injection Hn as <-. rewrite Hu, <- Hu'.
    split; [rewrite Hu'; reflexivity |]. split; [now right |].
    split.
    + intros E. exfalso. now apply (append_nonempty_neq u "/").
    + intros [E | E]; [|discriminate].
      exfalso. rewrite <- Hu in E. injection E as E. contradiction.
  - rewrite normalizeRoute_fixed in Hn by assumption. injection Hn as <-.
    repeat split; auto.
Qed.

(** [/about/] loses its slash. *)
Lemma normalizeRoute_shape_witness :
  startsWith "/about" "/" = true /\ ("/about" = "/about/" \/ "/about/" = "/about" +:+ "/").
Proof.
  destruct (normalizeRoute_shape "/about/" "/about" eq_refl) as (A & B & _).
  split; [exact A | exact B].
Defined.

(** ** Prefetching *)

Lemma search_unfold (r : regex) (b : bool) (s : string) :
  search r b s =
  match rmatch r b s (fun _ rest => Some rest) with
  | Some rest => Some ("", rest)
  | None =>
      match s with
      | "" => None
      | String c s' =>
          match search r false s' with
          | Some (before, after) => Some (String c before, after)
          | None => None
          end
      end
  end.
Proof. destruct s; reflexivity. Qed.

Lemma search_lit_sound (p s before after : string) (b : bool) :
  search (lit p) b s = Some (before, after) -> s = before +:+ p +:+ after.
Proof.
  revert b before. induction s as [|c s IH]; intros b before;
    rewrite search_unfold, rmatch_lit.
  - destruct (stripPrefix p "") as [rest|] eqn:E; [|discriminate].
    intros [= <- <-]. now apply stripPrefix_Some in E.
  - destruct (stripPrefix p (String c s)) as [rest|] eqn:E.
    + intros [= <- <-]. now apply stripPrefix_Some in E.
    + destruct (search (lit p) false s) as [[b' a']|] eqn:Es; [|discriminate].
      intros [= <- <-]. cbn. f_equal. now apply (IH false).
Qed.

Lemma search_lit_complete (p a rest : string) (b : bool) :
  exists x, search (lit p) b (a +:+ p +:+ rest) = Some x.
Proof.
  revert b. induction a as [|c a IH]; intros b; rewrite search_unfold, rmatch_lit.
  - cbn [String.append]. rewrite stripPrefix_app. eauto.
  - destruct (stripPrefix p _); [eauto |].
    cbn [String.append]. destruct (IH false) as [[b' a'] ->]. eauto.
Qed.

(** [/p/.test(s)]: [p] occurs in [s]. *)
Lemma test_lit (p s : string) :
  test (lit p) s = true <-> exists a rest, s = a +:+ p +:+ rest.
Proof.
  unfold test. split.
  - destruct (search (lit p) true s) as [[b a]|] eqn:E; [|discriminate].
    intros _. exists b, a. now apply search_lit_sound in E.
  - intros (a & rest & ->). now destruct (search_lit_complete p a rest true) as [x ->].
Qed.

(** X4. [prefetch] does nothing at all, and does not even look at the route,
    exactly when there is a connection that asks to save data or whose
    effective type holds the text [2g]. *)
Theorem prefetch_slow_connection :
  forall (env : Env) (buildId assetPrefix route : string) (isDependency : bool) (W : World),
    (slowConnection W = true <->
       exists cn, connection (window W) = Some cn /\
                  (saveData cn = true \/
                   exists a rest, effectiveType cn = a +:+ "2g" +:+ rest)) /\
    (slowConnection W = true ->
       prefetch env buildId assetPrefix route isDependency W = Return W).
Proof.
  intros env buildId assetPrefix route isDependency W. split.
  - unfold slowConnection. destruct (connection (window W)) as [cn|].
    + rewrite orb_true_iff, test_lit. split.
      * intros Hs. now exists cn.
      * now intros (cn' & [= <-] & Hs).
    + split; [discriminate | now intros (cn & [=] & _)].
  - intros Hs. unfold prefetch. now rewrite Hs.
Qed.

(** A slow 2G connection, and a route that is not even valid. *)
Lemma prefetch_slow_connection_witness :
  prefetch Example.devEnv "build" "" "no-slash" false
    (set_connection (Some {| saveData := false; effectiveType := "slow-2g" |}) Example.world0)
  = Return (set_connection (Some {| saveData := false; effectiveType := "slow-2g" |})
              Example.world0).
Proof.
  apply (proj2 (prefetch_slow_connection Example.devEnv "build" "" "no-slash" false _)).
  reflexivity.
Defined.

Lemma hasScript_more (url : string) (W W' : World) (l : list ScriptEl) :
  scripts (document W') = scripts (document W) ++ l ->
  hasScript url W = true -> hasScript url W' = true.
Proof.
  unfold hasScript. intros ->. rewrite existsb_app.
  intros [-> ->]%andb_true_iff. reflexivity.
Qed.

(** X5. A call of [prefetch] that returns leaves [this], the window, the
    scripts, the promises and the emitted events as they are; it adds at most
    one link and queues at most one reaction.  On a connection that is not
    slow, in a build that is not a production build, for a route that is not
    a dependency and does not begin with a slash, it throws the invalid route
    error, and changes nothing. *)
Theorem prefetch_effects :
  forall (env : Env) (buildId assetPrefix route : string) (isDependency : bool) (W : World),
    (forall W',
        prefetch env buildId assetPrefix route isDependency W = Return W' ->
        this W' = this W /\ window W' = window W /\
        promises (runtime W') = promises (runtime W) /\
        emitted (runtime W') = emitted (runtime W) /\
        oneMoreLink W W' /\
        exists j, reactions (runtime W') = reactions (runtime W) ++ j /\ length j <= 1) /\
    (slowConnection W = false -> isDependency = false -> production env = false ->
     startsWith route "/" = false ->
     prefetch env buildId assetPrefix route isDependency W = Throw (invalidRouteError route)).
Proof.
  intros env buildId assetPrefix route isDependency W. split.
  - intros W'. unfold prefetch, oneMoreLink.
    destruct (slowConnection W).
    { intros [= <-]. repeat split; try (exists []; rewrite app_nil_r; split; [reflexivity | cbn; lia]). }
    destruct (prefetchUrl env buildId assetPrefix route isDependency) as [url|err];
      [|discriminate].
    cbn [bind]. destruct (hasLink _ _ W).
    { intros [= <-]. repeat split; try (exists []; rewrite app_nil_r; split; [reflexivity | cbn; lia]). }
    intros [= <-].
    destruct url as [u|]; [destruct (String.eqb u "") |];
      destruct (production env && negb isDependency); cbn;
      repeat split;
      first [ exists []; rewrite app_nil_r; split; [reflexivity | cbn; lia]
            | eexists [_]; split; [reflexivity | cbn; lia] ].
  - intros Hs -> Hp Hr. unfold prefetch, prefetchUrl. rewrite Hs, Hp. cbn [negb].
    now rewrite normalizeRoute_Throw by now apply startsWith_slash_false.
Qed.

(** A development build and a route without a slash: the call throws. *)
Lemma prefetch_effects_witness :
  prefetch Example.devEnv "build" "" "about" false Example.world0
  = Throw (invalidRouteError "about").
Proof.
  apply (proj2 (prefetch_effects Example.devEnv "build" "" "about" false Example.world0));
    reflexivity.
Defined.

(** X6. Prefetching is deduplicated through the document: after a [prefetch]
    of a dependency, or of a route in a build that is not a production build,
    the same call again changes nothing. *)
Theorem prefetch_twice :
  forall (env : Env) (buildId assetPrefix route : string) (isDependency : bool) (W W1 : World),
    production env = false \/ isDependency = true ->
    prefetch env buildId assetPrefix route isDependency W = Return W1 ->
    prefetch env buildId assetPrefix route isDependency W1 = Return W1.
Proof.
  intros env buildId assetPrefix route isDependency W W1 Hmode.
  assert (Hp : production env && negb isDependency = false)
    by (destruct Hmode as [-> | ->]; [reflexivity | apply andb_false_r]).
  unfold prefetch. rewrite Hp.
  destruct (slowConnection W) eqn:Hs; [intros [= <-]; now rewrite Hs |].
  destruct (prefetchUrl env buildId assetPrefix route isDependency) as [url|err];
    [|discriminate].
  cbn [bind]. destruct (hasLink _ _ W) eqn:Hl.
  { intros [= <-]. now rewrite Hs, Hl. }
  intros [= <-]. destruct url as [u|]; cbn [default from_option id] in *.
  - destruct (String.eqb_spec u "") as [->|Hu].
    + now rewrite Hs, Hl.
    + change (slowConnection (appendLink env u (relPrefetch env)
               (Some (if endsWith u ".css" then "style" else "script")) W))
        with (slowConnection W).
      now rewrite Hs, hasLink_appendLink.
  - now rewrite Hs, Hl.
Qed.

(** The bundle of [/about] in a development build is linked once. *)
Lemma prefetch_twice_witness :
  exists W1,
    prefetch Example.devEnv "build" "" "/about" false Example.world0 = Return W1 /\
    prefetch Example.devEnv "build" "" "/about" false W1 = Return W1 /\
    length (links (document W1)) = 1.
Proof.
  eexists. split; [reflexivity |]. split; [|reflexivity].
  apply (prefetch_twice Example.devEnv "build" "" "/about" false Example.world0 _
           (or_introl eq_refl) eq_refl).
Defined.

(** ** Injecting dependencies *)

Lemma endsWith_nonempty (d suf : string) : suf <> "" -> endsWith d suf = true -> d <> "".
Proof. intros Hs E ->. cbn in E. destruct suf; [congruence | discriminate]. Qed.

Lemma hasScript_loadScript (env : Env) (url route : string) (W : World) :
  url <> "" -> hasScript url (loadScript env url route W) = true.
Proof.
  intros Hu. unfold hasScript, loadScript. cbn.
  apply String.eqb_neq in Hu. rewrite Hu. cbn.
  rewrite existsb_app. cbn. rewrite startsWith_refl. cbn. apply orb_true_r.
Qed.

Lemma injectDependency_more (env : Env) (route d : string) (W : World) :
  (exists l, scripts (document (injectDependency env route d W)) = scripts (document W) ++ l) /\
  (exists l, links (document (injectDependency env route d W)) = links (document W) ++ l).
Proof.
  unfold injectDependency.
  destruct (endsWith d ".js" && negb (hasScript d W));
    match goal with |- context [if ?c then _ else _] => destruct c end; cbn;
    split; first [ exists []; now rewrite app_nil_r | eexists [_]; reflexivity ].
Qed.

Lemma injectDependency_done (env : Env) (route d : string) (W : World) :
  (endsWith d ".js" = true -> hasScript d (injectDependency env route d W) = true) /\
  (endsWith d ".css" = true -> hasLink "stylesheet" d (injectDependency env route d W) = true).
Proof.
  unfold injectDependency. split; intros E; rewrite E; cbn [andb].
  - set (W1 := if negb (hasScript d W) then loadScript env d route W else W).
    assert (H1 : hasScript d W1 = true).
    { unfold W1. destruct (hasScript d W) eqn:Es; [exact Es |].
      apply hasScript_loadScript. eapply endsWith_nonempty; [|exact E]. discriminate. }
    destruct (endsWith d ".css" && negb (hasLink "stylesheet" d W1)); exact H1.
  - set (W1 := if endsWith d ".js" && negb (hasScript d W)
               then loadScript env d route W else W).
    destruct (hasLink "stylesheet" d W1) eqn:El; [exact El |].
    cbn [negb]. apply hasLink_appendLink. eapply endsWith_nonempty; [|exact E]. discriminate.
Qed.

Lemma injectDependency_noop (env : Env) (route d : string) (W : World) :
  (endsWith d ".js" = true -> hasScript d W = true) ->
  (endsWith d ".css" = true -> hasLink "stylesheet" d W = true) ->
  injectDependency env route d W = W.
Proof.
  intros Hjs Hcss. unfold injectDependency.
  destruct (endsWith d ".js"); [rewrite Hjs by reflexivity |]; cbn [andb negb];
    (destruct (endsWith d ".css"); [rewrite Hcss by reflexivity |]); reflexivity.
Qed.

Lemma injectDependencies_more (env : Env) (route : string) (deps : list string) (W : World) :
  (exists l, scripts (document (injectDependencies env route deps W))
             = scripts (document W) ++ l) /\
  (exists l, links (document (injectDependencies env route deps W))
             = links (document W) ++ l).
Proof.
  revert W. induction deps as [|d deps IH]; intros W.
  - split; exists []; now rewrite app_nil_r.
  - destruct (injectDependency_more env route d W) as [[l1 E1] [l2 E2]].
    destruct (IH (injectDependency env route d W)) as [[l3 E3] [l4 E4]].
    cbn. fold (injectDependencies env route deps (injectDependency env route d W)).
    split; [exists (l1 ++ l3) | exists (l2 ++ l4)]; rewrite app_assoc; congruence.
Qed.

Lemma injectDependencies_injected (env : Env) (route : string) (deps : list string) (W : World) :
  injected deps (injectDependencies env route deps W).
Proof.
  revert W. induction deps as [|d deps IH]; intros W d' Hd'.
  - now apply elem_of_nil in Hd'.
  - cbn. fold (injectDependencies env route deps (injectDependency env route d W)).
    apply elem_of_cons in Hd' as [-> | Hd']; [|now apply IH].
    destruct (injectDependency_done env route d W) as [Hjs Hcss].
    destruct (injectDependencies_more env route deps (injectDependency env route d W))
      as [[l1 E1] [l2 E2]].
    split; intros E.
    + eapply hasScript_more; [exact E1 | now apply Hjs].
    + eapply hasLink_more; [exact E2 | now apply Hcss].
Qed.

Lemma injectDependencies_noop (env : Env) (route : string) (deps : list string) (W : World) :
  injected deps W -> injectDependencies env route deps W = W.
Proof.
  induction deps as [|d deps IH]; intros Hi; [reflexivity |].
  cbn. fold (injectDependencies env route deps (injectDependency env route d W)).
  destruct (Hi d) as [Hjs Hcss]; [apply elem_of_cons; now left |].
  rewrite injectDependency_noop by assumption.
  apply IH. intros d' Hd'. apply Hi. apply elem_of_cons. now right.
Qed.

(** X7. The reaction of [loadPage] to the dependencies of a route leaves the
    document with an element for each of its scripts and style sheets, and
    touches neither the cache nor the listeners nor the promises; run again
    on the same dependencies, for whatever route, it adds nothing: an element
    is injected once. *)
Theorem injectDependencies_idempotent :
  forall (R : RouterUtils) (env : Env) (buildId assetPrefix route route' : string)
         (deps : list string) (W : World),
    runJob env buildId assetPrefix (InjectDependencies deps route) W
      = Some (injectDependencies env route deps W) /\
    injected deps (injectDependencies env route deps W) /\
    calm W (injectDependencies env route deps W) /\
    injectDependencies env route' deps (injectDependencies env route deps W)
      = injectDependencies env route deps W.
Proof.
  intros R env buildId assetPrefix route route' deps W.
  split; [reflexivity |]. split; [apply injectDependencies_injected |].
  split; [apply injectDependencies_calm |].
  apply injectDependencies_noop, injectDependencies_injected.
Qed.

(** ** Prefetching data *)

(** X8. For a route that is not dynamic, [prefetchData] queues one reaction;
    when the SSG manifest is there, the reaction does nothing for a route the
    manifest does not hold, and for one it holds it injects, unless a
    prefetch link already starts with it, one link, to be fetched, for the
    asset prefix, [/_next/data/], the build id, the asset path of the route
    and [.json].  Run again, the reaction adds nothing. *)
Theorem prefetchData_static :
  forall (R : RouterUtils) (env : Env) (buildId assetPrefix href asPath route : string)
         (s : gset string) (W : World),
    normalizeRoute (pathname (parse href)) = Return route ->
    isDynamicRoute route = false ->
    let dataHref := assetPrefix +:+ "/_next/data/" +:+ buildId +:+ getAssetPath route +:+ ".json" in
    let W1 := prefetchDataThen env buildId assetPrefix s href asPath route W in
    prefetchData href asPath W = Return (schedule (PrefetchDataThen href asPath route) W) /\
    (route ∉ s -> W1 = W) /\
    (hasLink (relPrefetch env) dataHref W = true -> W1 = W) /\
    (route ∈ s -> hasLink (relPrefetch env) dataHref W = false ->
       W1 = appendLink env dataHref (relPrefetch env) (Some "fetch") W) /\
    prefetchDataThen env buildId assetPrefix s href asPath route W1 = W1.
Proof.
  intros R env buildId assetPrefix href asPath route s W Hn Hd dataHref W1.
  assert (Hg : getDataHref assetPrefix buildId href asPath = Return dataHref).
  { unfold getDataHref. rewrite Hn. cbn [bind]. now rewrite Hd. }
  assert (Hne : String.eqb dataHref "" = false).
  { apply String.eqb_neq. unfold dataHref. apply append_nonempty_r. discriminate. }
  assert (E : forall W0, prefetchDataThen env buildId assetPrefix s href asPath route W0 =
              if decide (route ∈ s) then
                if hasLink (relPrefetch env) dataHref W0 then W0
                else appendLink env dataHref (relPrefetch env) (Some "fetch") W0
              else W0).
  { intros W0. unfold prefetchDataThen. now rewrite Hg, Hne. }
  split; [unfold prefetchData; now rewrite Hn |].
  unfold W1. rewrite !E. destruct (decide (route ∈ s)) as [Hin|Hout].
  - destruct (hasLink (relPrefetch env) dataHref W) eqn:Hl.
    + repeat split; try easy. now rewrite Hl.
    + repeat split; try easy.
      rewrite hasLink_appendLink; [reflexivity |]. now apply String.eqb_neq.
  - repeat split; easy.
Qed.

(** The data of [/about], listed in the SSG manifest, is linked. *)
Lemma prefetchData_static_witness :
  prefetchDataThen (H := SpecRouter.specRouter) Example.prodEnv "build" "" {[ "/about" ]}
    "/about" "/about" "/about" Example.world0
  = appendLink Example.prodEnv "/_next/data/build/about.json" "prefetch" (Some "fetch")
      Example.world0.
Proof.
  apply (proj1 (proj2 (proj2 (proj2
           (prefetchData_static SpecRouter.specRouter Example.prodEnv "build" "" "/about"
              "/about" "/about" {[ "/about" ]} Example.world0 eq_refl eq_refl))))).
  - apply elem_of_singleton. reflexivity.
  - reflexivity.
Defined.

(** ** Promises and listeners in the worlds a loader reaches *)

Lemma loadPage_old_promises (env : Env) (assetPrefix route : string) (W : World)
    (q : nat) (W' : World) (p : nat) :
  loadPage env assetPrefix route W = Return (q, W') ->
  p < length (promises (runtime W)) ->
  promises (runtime W') !! p = promises (runtime W) !! p.
Proof.
  intros (r & _ & -> & ->)%loadPage_Return Hp.
  rewrite loadPageExecutor_promises by lia. cbn. now rewrite lookup_app_l.
Qed.

Lemma loadPage_old_listeners (env : Env) (assetPrefix route : string) (W : World)
    (q : nat) (W' : World) (k : string) (h : Listener) :
  loadPage env assetPrefix route W = Return (q, W') ->
  h ∈ listeners W k -> h ∈ listeners W' k.
Proof.
  intros (r & _ & -> & ->)%loadPage_Return Hh.
  destruct (loadPageExecutor_listeners env assetPrefix (length (promises (runtime W))) r
              (set_promises (promises (runtime W) ++ [Pending]) W) k)
    as [E | (_ & _ & r2 & E)]; rewrite E; [exact Hh |].
  apply elem_of_app. now left.
Qed.

Lemma attached_fire (h : Listener) (evt : PageData) (W : World) :
  attached W -> attached (fire h evt W).
Proof.
  intros Ha p Hp.
  assert (Hne : p <> fire_promise h).
  { intros ->. pose proof (promiseState_fire h evt W (fire_promise h)) as E.
    unfold promiseState at 1 in E. rewrite Hp in E. cbn in E.
    case_decide as Hd.
    - now apply (outcome_not_pending evt).
    - apply Hd. split; [reflexivity |].
      unfold promiseState in E.
      destruct (promises (runtime W) !! fire_promise h) as [o|] eqn:El.
      + cbn in E. now subst.
      + apply lookup_lt_Some in Hp. rewrite fire_length in Hp.
        apply lookup_ge_None in El. lia. }
  assert (Hold : promises (runtime W) !! p = Some Pending).
  { unfold fire in Hp. rewrite promises_settle in Hp. cbn in Hp. rewrite off_runtime in Hp.
    destruct (promises (runtime W) !! fire_promise h) as [[| |]|]; try assumption.
    now rewrite list_lookup_insert_ne in Hp by congruence. }
  destruct (Ha p Hold) as (k & h' & Hh' & Ep).
  exists k, h'. split; [|exact Ep].
  rewrite listeners_fire. case_decide; [|exact Hh'].
  apply elem_of_remove_first_ne; [exact Hh' | congruence].
Qed.

Lemma attached_fireAll (L : list Listener) (evt : PageData) (W : World) :
  attached W -> attached (fireAll L evt W).
Proof.
  revert W. induction L as [|h L IH]; intros W Ha; [exact Ha |].
  cbn. fold (fireAll L evt (fire h evt W)). now apply IH, attached_fire.
Qed.

Lemma attached_loadPage (env : Env) (assetPrefix route : string) (W : World)
    (q : nat) (W' : World) :
  loadPage env assetPrefix route W = Return (q, W') -> attached W -> attached W'.
Proof.
  intros El Ha p Hp.
  destruct (loadPage_Return _ _ _ _ _ _ El) as (r & Hn & Eq & EW).
  destruct (decide (p = q)) as [->|Hne].
  - destruct (pageCache (this W) !! r) as [d|] eqn:Hc.
    + rewrite (loadPage_from_cache env assetPrefix route r W d Hn Hc) in El.
      injection El as _ <-. cbn in Hp. rewrite Eq, lookup_app_r, Nat.sub_diag in Hp by lia.
      cbn in Hp. destruct (truthy (error d)); discriminate.
    + destruct (loadPage_uncached env assetPrefix route r W Hn Hc)
        as (r2 & W2 & El2 & _ & Ee & _).
      rewrite El in El2. injection El2 as _ <-.
      exists r, (Fire (length (promises (runtime W))) r2). split; [|now rewrite Eq].
      unfold listeners at 1. rewrite Ee, lookup_insert_eq. cbn.
      apply elem_of_app. right. now apply list_elem_of_singleton.
  - assert (Hlt : p < length (promises (runtime W))).
    { apply lookup_lt_Some in Hp. rewrite EW, loadPageExecutor_length in Hp. cbn in Hp.
      rewrite length_snoc in Hp. lia. }
    rewrite (loadPage_old_promises _ _ _ _ _ _ p El Hlt) in Hp.
    destruct (Ha p Hp) as (k & h & Hh & Ep).
    exists k, h. split; [|exact Ep]. eapply loadPage_old_listeners; eassumption.
Qed.

(** X10. No promise is forgotten: in every world a new loader reaches, each
    promise of [loadPage] that is still pending has its listener subscribed
    to the register events. *)
Theorem pending_promise_has_listener :
  forall (R : RouterUtils) (env : Env) (buildId assetPrefix initialPage : string)
         (doc : Document) (win : Window) (evs : list Event) (p : nat),
    let W := run env buildId assetPrefix (newPageLoader initialPage doc win) evs in
    promises (runtime W) !! p = Some Pending ->
    exists k h, h ∈ listeners W k /\ fire_promise h = p.
Proof.
  intros R env buildId assetPrefix initialPage doc win evs p W.
  revert p. change (attached W). unfold W.
  apply run_preserves.
  - intros W1 W2 Hq Ha p Hp. pose proof Hq as [_ Ep]. rewrite Ep in Hp.
    destruct (Ha p Hp) as (k & h & Hh & E). exists k, h.
    now rewrite (quiet_listeners _ _ _ Hq).
  - intros W1 k evt Ha. rewrite emit_fireAll. apply attached_fireAll.
    intros p Hp. destruct (Ha p Hp) as (k' & h & Hh & E). now exists k', h.
  - intros W1 route q W2 El Ha. eapply attached_loadPage; eassumption.
  - intros p Hp. cbn in Hp. discriminate.
Qed.

(** Two calls for a route, then the registration of another route. *)
Lemma pending_promise_has_listener_witness :
  exists k h,
    h ∈ listeners (Example.runIn Example.devEnv Example.world0
                     [LoadPage "/a"; LoadPage "/a/"; RegisterPage "/b" (Return JNull)]) k /\
    fire_promise h = 1.
Proof.
  apply (pending_promise_has_listener SpecRouter.specRouter Example.devEnv "build" "" "/"
           Example.emptyDocument Example.emptyWindow
           [LoadPage "/a"; LoadPage "/a/"; RegisterPage "/b" (Return JNull)] 1).
  reflexivity.
Defined.

(** ** Listeners and loading marks *)

Lemma still_refl (W : World) : still W W.
Proof. repeat split. Qed.

Lemma still_trans (W1 W2 W3 : World) : still W1 W2 -> still W2 W3 -> still W1 W3.
Proof. intros (A1 & B1 & C1) (A2 & B2 & C2). repeat split; congruence. Qed.

Lemma still_listeners (W W' : World) (k : string) : still W W' -> listeners W' k = listeners W k.
Proof. intros (E & _ & _). unfold listeners. now rewrite E. Qed.

Lemma injectDependencies_still (env : Env) (route : string) (deps : list string) (W : World) :
  still W (injectDependencies env route deps W).
Proof.
  revert W. induction deps as [|d deps IH]; intros W; [apply still_refl |].
  cbn. fold (injectDependencies env route deps (injectDependency env route d W)).
  eapply still_trans; [|apply IH].
  unfold injectDependency.
  destruct (endsWith d ".js" && negb (hasScript d W));
    match goal with |- context [if ?c then _ else _] => destruct c end;
    repeat split.
Qed.

Lemma prefetch_still (env : Env) (buildId assetPrefix route : string) (isDependency : bool)
    (W W' : World) :
  prefetch env buildId assetPrefix route isDependency W = Return W' -> still W W'.
Proof.
  unfold prefetch. destruct (slowConnection W); [intros [= <-]; apply still_refl |].
  destruct (prefetchUrl env buildId assetPrefix route isDependency) as [url|err]; [|discriminate].
  cbn [bind]. destruct (hasLink _ _ W); [intros [= <-]; apply still_refl |].
  intros [= <-].
  destruct url as [u|]; [destruct (String.eqb u "") |];
    destruct (production env && negb isDependency); repeat split.
Qed.

Lemma prefetchAll_still (env : Env) (buildId assetPrefix : string) (urls : list string)
    (W : World) :
  still W (prefetchAll env buildId assetPrefix urls W).
Proof.
  revert W. induction urls as [|u urls IH]; intros W; [apply still_refl |].
  cbn [prefetchAll].
  destruct (prefetch env buildId assetPrefix u true W) as [W1|err] eqn:E; [|apply still_refl].
  eapply still_trans; [eapply prefetch_still; exact E | apply IH].
Qed.

Section PreservedStill.
Context `{RouterUtils}.
Variables (env : Env) (buildId assetPrefix : string).
Variable Q : World -> Prop.
Hypothesis Q_still : forall W W', still W W' -> Q W -> Q W'.
Hypothesis Q_emit : forall W k evt, Q W -> Q (emit k evt W).
Hypothesis Q_loadPage :
  forall W route p W', loadPage env assetPrefix route W = Return (p, W') -> Q W -> Q W'.

Lemma register_preserves_still (route : string) (regFn : completion JsVal) (W : World) :
  Q W -> Q (register route regFn W).
Proof.
  intros HQ. unfold register.
  destruct (bind regFn _) as [pd|err]; apply Q_emit;
    (eapply Q_still; [|exact HQ]); repeat split.
Qed.

Lemma runJob_preserves_still (j : Job) (W W' : World) :
  runJob env buildId assetPrefix j W = Some W' -> Q W -> Q W'.
Proof.
  intros E HQ.
  destruct j as [route use | deps route | urls | href asPath route]; cbn [runJob] in E.
  - destruct (buildManifest (window W)) as [m|]; [|discriminate].
    unfold getDependenciesThen in E.
    destruct (m !! route); [|destruct (inherited route)]; injection E as <-.
    + eapply Q_still; [|exact HQ]. repeat split.
    + exact HQ.
    + eapply Q_still; [|apply Q_emit; exact HQ]. repeat split.
  - injection E as <-. eapply Q_still; [|exact HQ]. apply injectDependencies_still.
  - injection E as <-. eapply Q_still; [|exact HQ]. apply prefetchAll_still.
  - destruct (ssgManifest (window W)) as [ssg|]; [|discriminate]. injection E as <-.
    eapply Q_still; [|exact HQ]. unfold prefetchDataThen.
    destruct (decide (route ∈ ssg)); [|apply still_refl].
    destruct (getDataHref assetPrefix buildId href asPath) as [d|err]; [|apply still_refl].
    destruct (String.eqb d ""); [apply still_refl |].
    destruct (hasLink _ d W); [apply still_refl | repeat split].
Qed.

(** What silent changes, a broadcast and [loadPage] keep of the listeners,
    the loading marks and the promises, every event keeps. *)
Lemma step_preserves_still (W : World) (ev : Event) :
  Q W -> Q (step env buildId assetPrefix W ev).
Proof.
  intros HQ.
  destruct ev as [route | route regFn | route dep | href asPath | i | i | m | s | cn
                 | status | i status]; cbn [step].
  - destruct (loadPage env assetPrefix route W) as [[p W']|err] eqn:E; [|exact HQ].
    eapply Q_loadPage; eassumption.
  - unfold registerPage. destruct (negb (production env) && hotBusy W).
    + eapply Q_still; [|exact HQ]. repeat split.
    + now apply register_preserves_still.
  - destruct (prefetch env buildId assetPrefix route dep W) as [W'|err] eqn:E; [|exact HQ].
    eapply Q_still; [|exact HQ]. eapply prefetch_still, E.
  - destruct (prefetchData href asPath W) as [W'|err] eqn:E; [|exact HQ].
    eapply Q_still; [|exact HQ]. unfold prefetchData in E.
    destruct (normalizeRoute _); [|discriminate]. injection E as <-. repeat split.
  - destruct (scripts (document W) !! i); [|exact HQ]. now apply Q_emit.
  - destruct (reactions (runtime W) !! i) as [j|]; [|exact HQ].
    destruct (runJob _ _ _ j _) as [W'|] eqn:E; [|exact HQ].
    eapply runJob_preserves_still; [exact E |].
    eapply Q_still; [|exact HQ]. repeat split.
  - destruct (buildManifest (window W)); [exact HQ |].
    eapply Q_still; [|exact HQ]. repeat split.
  - destruct (ssgManifest (window W)); [exact HQ |].
    eapply Q_still; [|exact HQ]. repeat split.
  - eapply Q_still; [|exact HQ]. repeat split.
  - destruct (hotStatus (window W)); [|exact HQ].
    eapply Q_still; [|exact HQ]. repeat split.
  - unfold hotCheck. destruct (hotHandlers (window W) !! i) as [[route regFn]|]; [|exact HQ].
    destruct (String.eqb status "idle"); [|exact HQ].
    apply register_preserves_still. eapply Q_still; [|exact HQ]. repeat split.
Qed.

Lemma run_preserves_still (W : World) (evs : list Event) :
  Q W -> Q (run env buildId assetPrefix W evs).
Proof.
  revert W. induction evs as [|ev evs IH]; intros W HQ; [exact HQ |].
  rewrite run_cons. apply IH. now apply step_preserves_still.
Qed.

End PreservedStill.

Lemma loadingRoutes_fire (h : Listener) (evt : PageData) (W : World) :
  loadingRoutes (this (fire h evt W)) = loadingRoutes (this W) ∖ {[ fire_route h ]}.
Proof. unfold fire. rewrite settle_this. cbn. now rewrite off_loadingRoutes. Qed.

Lemma remove_first_head (h : Listener) (l : list Listener) : remove_first h (h :: l) = l.
Proof. cbn. now rewrite decide_True. Qed.

(** The broadcast to the listeners of a key, all subscribed under the route
    they read: none is left, and the other keys are not touched. *)
Lemma fireAll_keyed_clears (k : string) (L : list Listener) (evt : PageData) (W : World) :
  (forall h, h ∈ L -> fire_route h = k) ->
  listeners W k = L ->
  listeners (fireAll L evt W) k = [].
Proof.
  revert W. induction L as [|h L IH]; intros W Hk El; [exact El |].
  cbn. fold (fireAll L evt (fire h evt W)). apply IH.
  - intros h' Hh'. apply Hk. apply elem_of_cons. now right.
  - rewrite listeners_fire, El, decide_True; [apply remove_first_head |].
    symmetry. apply Hk. apply elem_of_cons. now left.
Qed.

Lemma fireAll_keyed_other (k k' : string) (L : list Listener) (evt : PageData) (W : World) :
  (forall h, h ∈ L -> fire_route h = k) ->
  k' <> k ->
  listeners (fireAll L evt W) k' = listeners W k'.
Proof.
  revert W. induction L as [|h L IH]; intros W Hk Hne; [reflexivity |].
  cbn. fold (fireAll L evt (fire h evt W)). rewrite IH.
  - rewrite listeners_fire, decide_False; [reflexivity |].
    rewrite (Hk h); [exact Hne | apply elem_of_cons; now left].
  - intros h' Hh'. apply Hk. apply elem_of_cons. now right.
  - exact Hne.
Qed.

Lemma fireAll_keyed_loading (k : string) (L : list Listener) (evt : PageData) (W : World)
    (x : string) :
  (forall h, h ∈ L -> fire_route h = k) ->
  x ∈ loadingRoutes (this (fireAll L evt W)) <->
  x ∈ loadingRoutes (this W) /\ (L = [] \/ x <> k).
Proof.
  revert W. induction L as [|h L IH]; intros W Hk.
  - cbn. intuition.
  - cbn. fold (fireAll L evt (fire h evt W)). rewrite IH.
    + rewrite loadingRoutes_fire, (Hk h) by (apply elem_of_cons; now left).
      rewrite elem_of_difference, elem_of_singleton.
      split; [intros [[A B] _]; split; [exact A | now right] |].
      intros [A [B | B]]; [discriminate | split; [split; assumption | now right]].
    + intros h' Hh'. apply Hk. apply elem_of_cons. now right.
Qed.

Lemma listeners_set_emitted (l : list (string * PageData)) (W : World) (k : string) :
  listeners (set_emitted l W) k = listeners W k.
Proof. reflexivity. Qed.

(** In production [loadPage] subscribes its listener under the route the
    listener reads, and marks the route. *)
Lemma loadPage_production (env : Env) (assetPrefix route : string) (W : World)
    (q : nat) (W' : World) :
  production env = true ->
  loadPage env assetPrefix route W = Return (q, W') ->
  (forall x, x ∈ loadingRoutes (this W) -> x ∈ loadingRoutes (this W')) /\
  ((forall k, listeners W' k = listeners W k) \/
   exists r, r ∈ loadingRoutes (this W') /\
             forall k, listeners W' k =
                       if decide (k = r) then listeners W r ++ [Fire q r] else listeners W k).
Proof.
  intros Hprod (r & _ & -> & ->)%loadPage_Return.
  unfold loadPageExecutor. cbn. rewrite Hprod.
  destruct (pageCache (this W) !! r) as [d|].
  - split.
    + intros x Hx. destruct (truthy (error d)); now rewrite settle_this.
    + left. intros k. unfold listeners. destruct (truthy (error d)); now rewrite settle_this.
  - destruct (decide (r ∈ loadingRoutes (this W))) as [Hin|Hout].
    + split; [easy |]. right. exists r. split; [exact Hin |].
      intros k. now rewrite listeners_on.
    + split; [cbn; set_solver |]. right. exists r. split; [cbn; set_solver |].
      intros k.
      change (listeners (getDependencies r ForLoadPage _) k)
        with (listeners (on r (Fire (length (promises (runtime W))) r)
                           (set_promises (promises (runtime W) ++ [Pending]) W)) k).
      now rewrite listeners_on.
Qed.

Lemma keyed_marked_emit (W : World) (k : string) (evt : PageData) :
  keyed W /\ marked W -> keyed (emit k evt W) /\ marked (emit k evt W).
Proof.
  intros [Hk Hm].
  assert (HL : forall h, h ∈ listeners W k -> fire_route h = k) by (intros h; apply Hk).
  split.
  - intros k' h Hh%emit_listeners_sub. now apply Hk.
  - intros k' Hne. rewrite emit_fireAll in *.
    destruct (decide (k' = k)) as [->|Hkk].
    + exfalso. apply Hne. now apply fireAll_keyed_clears.
    + rewrite (fireAll_keyed_other k k') in Hne by assumption.
      apply (proj2 (fireAll_keyed_loading k _ evt _ k' HL)).
      split; [now apply Hm | now right].
Qed.

Lemma keyed_marked_loadPage (env : Env) (assetPrefix route : string) (W : World)
    (q : nat) (W' : World) :
  production env = true ->
  loadPage env assetPrefix route W = Return (q, W') ->
  keyed W /\ marked W -> keyed W' /\ marked W'.
Proof.
  intros Hprod El [Hk Hm].
  destruct (loadPage_production env assetPrefix route W q W' Hprod El)
    as [Hsub [Hsame | (r & Hr & Hl)]].
  - split.
    + intros k h Hh. rewrite Hsame in Hh. now apply Hk.
    + intros k Hne. rewrite Hsame in Hne. now apply Hsub, Hm.
  - split.
    + intros k h Hh. rewrite Hl in Hh. case_decide as Hd; [|now apply Hk].
      subst k. apply elem_of_app in Hh as [Hh | Hh]; [now apply Hk |].
      now apply list_elem_of_singleton in Hh as ->.
    + intros k Hne. rewrite Hl in Hne. case_decide as Hd; [now subst |].
      now apply Hsub, Hm.
Qed.

Section Production.
Context `{RouterUtils}.
Variables (env : Env) (buildId assetPrefix : string).
Hypothesis Hprod : production env = true.

Lemma keyed_marked_run (W : World) (evs : list Event) :
  keyed W /\ marked W ->
  keyed (run env buildId assetPrefix W evs) /\ marked (run env buildId assetPrefix W evs).
Proof.
  apply (run_preserves_still env buildId assetPrefix (fun W0 => keyed W0 /\ marked W0)).
  - intros W1 W2 Hs [Hk Hm]. pose proof Hs as (_ & El & _). split.
    + intros k h Hh. rewrite (still_listeners _ _ _ Hs) in Hh. now apply Hk.
    + intros k Hne. rewrite (still_listeners _ _ _ Hs) in Hne. rewrite El. now apply Hm.
  - intros W1 k evt. apply keyed_marked_emit.
  - intros W1 route p W2 El. now apply (keyed_marked_loadPage env assetPrefix route W1 p W2).
Qed.

Lemma keyed_marked_reachable (initialPage : string) (doc : Document) (win : Window)
    (evs : list Event) :
  keyed (run env buildId assetPrefix (newPageLoader initialPage doc win) evs) /\
  marked (run env buildId assetPrefix (newPageLoader initialPage doc win) evs).
Proof.
  apply keyed_marked_run. split.
  - intros k h Hh. unfold listeners in Hh. cbn in Hh. rewrite lookup_empty in Hh.
    now apply elem_of_nil in Hh.
  - intros k Hne. exfalso. apply Hne. unfold listeners. cbn. now rewrite lookup_empty.
Qed.

End Production.

(** X11. In a production build, in every world a new loader reaches, each
    listener is subscribed under the route its [fire] reads, and a route that
    has listeners is marked as loading.  A register event for a route then
    unsubscribes every listener of the route and leaves those of the other
    routes; it clears the loading mark of the route when the route had a
    listener, and no other mark. *)
Theorem production_register_events :
  forall (R : RouterUtils) (env : Env) (buildId assetPrefix initialPage : string)
         (doc : Document) (win : Window) (evs : list Event),
    production env = true ->
    let W := run env buildId assetPrefix (newPageLoader initialPage doc win) evs in
    keyed W /\ marked W /\
    forall k evt,
      listeners (emit k evt W) k = [] /\
      (forall k', k' <> k -> listeners (emit k evt W) k' = listeners W k') /\
      (listeners W k <> [] -> k ∉ loadingRoutes (this (emit k evt W))) /\
      (forall x, x <> k ->
         (x ∈ loadingRoutes (this (emit k evt W)) <-> x ∈ loadingRoutes (this W))).
Proof.
  intros R env buildId assetPrefix initialPage doc win evs Hprod W.
  destruct (keyed_marked_reachable env buildId assetPrefix Hprod initialPage doc win evs)
    as [Hk Hm].
  fold W in Hk, Hm. split; [exact Hk |]. split; [exact Hm |].
  intros k evt. rewrite emit_fireAll.
  assert (HL : forall h, h ∈ listeners W k -> fire_route h = k) by (intros h; apply Hk).
  split; [now apply fireAll_keyed_clears |].
  split; [intros k' Hne; now rewrite (fireAll_keyed_other k k') |].
  split.
  - intros Hne Hin. apply (fireAll_keyed_loading k _ evt _ k HL) in Hin as [_ [E | E]];
      [now apply Hne | now apply E].
  - intros x Hx. rewrite (fireAll_keyed_loading k _ evt _ x HL). cbn. intuition.
Qed.

(** Two calls for [/about], then an event for it. *)
Lemma production_register_events_witness :
  let W := Example.runIn Example.prodEnv Example.world0 [LoadPage "/about"; LoadPage "/about/"] in
  let evt := entryOf (Return Example.moduleA) in
  listeners (emit "/about" evt W) "/about" = [] /\
  ("/about" ∉ loadingRoutes (this (emit "/about" evt W))).
Proof.
  intros W evt.
  destruct (production_register_events SpecRouter.specRouter Example.prodEnv "build" "" "/"
              Example.emptyDocument Example.emptyWindow [LoadPage "/about"; LoadPage "/about/"]
              eq_refl) as (_ & _ & He).
  destruct (He "/about" evt) as (A & _ & B & _).
  split; [exact A |]. apply B. intros E. vm_compute in E. discriminate E.
Defined.

(** X12. In a production build, while a route has a listener, [loadPage] of
    that route starts no load, whatever happened since the listener was
    subscribed: it queues no reaction and injects no element, and only
    returns one more promise. *)
Theorem loadPage_no_second_load :
  forall (R : RouterUtils) (env : Env) (buildId assetPrefix initialPage : string)
         (doc : Document) (win : Window) (evs : list Event) (route r : string),
    production env = true ->
    let W := run env buildId assetPrefix (newPageLoader initialPage doc win) evs in
    normalizeRoute route = Return r ->
    listeners W r <> [] ->
    exists W',
      loadPage env assetPrefix route W = Return (length (promises (runtime W)), W') /\
      reactions (runtime W') = reactions (runtime W) /\
      document W' = document W /\
      length (promises (runtime W')) = S (length (promises (runtime W))).
Proof.
  intros R env buildId assetPrefix initialPage doc win evs route r Hprod W Hn Hl.
  destruct (keyed_marked_reachable env buildId assetPrefix Hprod initialPage doc win evs)
    as [_ Hm].
  fold W in Hm. specialize (Hm r Hl).
  destruct (pageCache (this W) !! r) as [d|] eqn:Hc.
  - eexists. split; [apply (loadPage_from_cache _ _ _ _ _ _ Hn Hc) |].
    repeat split. cbn. apply length_snoc.
  - destruct (loadPage_uncached env assetPrefix route r W Hn Hc)
      as (r2 & W' & E & Ep & _ & _ & _ & Hsame & _).
    destruct (Hsame Hm) as [Er Ed].
    exists W'. repeat split; try assumption. rewrite Ep. apply length_snoc.
Qed.

(** A call for [/about], a prefetch and the manifest in between, and a second
    call. *)
Lemma loadPage_no_second_load_witness :
  let W := Example.runIn Example.prodEnv Example.world0
             [LoadPage "/about"; Prefetch "/b" false; BuildManifestReady ∅; RunReaction 1] in
  exists W', loadPage Example.prodEnv "" "/about/" W = Return (1, W') /\
             reactions (runtime W') = reactions (runtime W).
Proof.
  intros W.
  destruct (loadPage_no_second_load SpecRouter.specRouter Example.prodEnv "build" "" "/"
              Example.emptyDocument Example.emptyWindow
              [LoadPage "/about"; Prefetch "/b" false; BuildManifestReady ∅; RunReaction 1]
              "/about/" "/about" eq_refl eq_refl)
    as (W' & E & Er & _); [intros E; vm_compute in E; discriminate E |].
  exists W'. split; [exact E | exact Er].
Defined.

(** X13. In a production build the failure of a script is not cached: the
    [onerror] of a script rejects the pending listeners of its route with the
    page load error of the script's URL, writes nothing to the cache,
    unsubscribes the listeners and clears the loading mark, so that the next
    [loadPage] of a route without cache entry starts a new load. *)
Theorem script_error_retry :
  forall (R : RouterUtils) (env : Env) (buildId assetPrefix initialPage : string)
         (doc : Document) (win : Window) (evs : list Event) (i : nat) (s : ScriptEl),
    production env = true ->
    let W := run env buildId assetPrefix (newPageLoader initialPage doc win) evs in
    let W' := step env buildId assetPrefix W (ScriptError i) in
    scripts (document W) !! i = Some s ->
    listeners W (script_route s) <> [] ->
    (forall h, h ∈ listeners W (script_route s) ->
               promises (runtime W) !! fire_promise h = Some Pending ->
               promiseState W' (fire_promise h) = Rejected (pageLoadError (src s))) /\
    pageCache (this W') = pageCache (this W) /\
    listeners W' (script_route s) = [] /\
    (script_route s ∉ loadingRoutes (this W')) /\
    (forall route,
        normalizeRoute route = Return (script_route s) ->
        pageCache (this W) !! script_route s = None ->
        exists W'',
          loadPage env assetPrefix route W' = Return (length (promises (runtime W')), W'') /\
          issued env assetPrefix (script_route s) W' W'').
Proof.
  intros R env buildId assetPrefix initialPage doc win evs i s Hprod W W' Hs Hl.
  destruct (keyed_marked_reachable env buildId assetPrefix Hprod initialPage doc win evs)
    as [Hk _].
  fold W in Hk.
  assert (EW : W' = emit (script_route s)
                 {| error := pageLoadError (src s); page := JUndefined; mod_ := JUndefined |} W).
  { unfold W'. cbn [step]. now rewrite Hs. }
  assert (HL : forall h, h ∈ listeners W (script_route s) -> fire_route h = script_route s)
    by (intros h; apply Hk).
  assert (Hout : script_route s ∉ loadingRoutes (this W')).
  { rewrite EW, emit_fireAll. intros Hin.
    apply (fireAll_keyed_loading (script_route s) _ _ _ _ HL) in Hin as [_ [E | E]];
      [now apply Hl | now apply E]. }
  split; [|split; [|split; [|split]]].
  - intros h Hh Hp. rewrite EW. now rewrite (emit_pending _ _ _ _ Hh Hp).
  - rewrite EW. apply emit_pageCache.
  - rewrite EW, emit_fireAll. now apply fireAll_keyed_clears.
  - exact Hout.
  - intros route Hn Hc.
    assert (Hc' : pageCache (this W') !! script_route s = None)
      by now rewrite EW, emit_pageCache.
    destruct (loadPage_uncached env assetPrefix route _ W' Hn Hc')
      as (r2 & W'' & E & _ & _ & _ & _ & _ & Hissue).
    exists W''. split; [exact E | now apply Hissue].
Qed.

(** The chunk of [/about] fails to load; the next call asks for the
    dependencies again. *)
Lemma script_error_retry_witness :
  let W := Example.runIn Example.prodEnv Example.world0
             [LoadPage "/about";
              BuildManifestReady {[ "/about" := ["static/chunks/about.js"] ]};
              RunReaction 0; RunReaction 0] in
  let W' := Example.stepIn Example.prodEnv W (ScriptError 0) in
  promiseState W' 0 = Rejected (pageLoadError "/_next/static/chunks/about.js") /\
  exists W'', loadPage Example.prodEnv "" "/about" W' = Return (1, W'') /\
              issued Example.prodEnv "" "/about" W' W''.
Proof.
  intros W W'.
  destruct (script_error_retry SpecRouter.specRouter Example.prodEnv "build" "" "/"
              Example.emptyDocument Example.emptyWindow
              [LoadPage "/about";
               BuildManifestReady {[ "/about" := ["static/chunks/about.js"] ]};
               RunReaction 0; RunReaction 0] 0
              {| src := "/_next/static/chunks/about.js"; type_module := false;
                 script_crossOrigin := None; script_route := "/about" |}
              eq_refl)
    as (Hrej & _ & _ & _ & Hretry);
    [vm_compute; reflexivity | intros E; vm_compute in E; discriminate E |].
  split.
  - apply (Hrej (Fire 0 "/about")); [vm_compute; left | reflexivity].
  - apply (Hretry "/about"); reflexivity.
Defined.

(** ** Registering pages *)

Lemma register_listeners_pending (route : string) (regFn : completion JsVal) (W : World)
    (h : Listener) :
  h ∈ listeners W route ->
  promises (runtime W) !! fire_promise h = Some Pending ->
  promiseState (register route regFn W) (fire_promise h) = outcome (entryOf regFn).
Proof.
  intros Hh Hp. unfold register, entryOf.
  destruct (bind regFn _) as [pd|err]; now apply emit_pending.
Qed.

Lemma registerPage_now (env : Env) (route : string) (regFn : completion JsVal) (W : World) :
  production env = true \/ hotBusy W = false ->
  registerPage env route regFn W = register route regFn W.
Proof.
  intros Hnow. unfold registerPage.
  destruct Hnow as [-> | ->]; [reflexivity | now rewrite andb_false_r].
Qed.

(** X14. A registration that is not put off, and then [loadPage] of the
    route, in whatever spelling normalises to it: the promise is settled at
    once with what the registration gave, and nothing is loaded.  A module is
    resolved with its [default] as the page when that is truthy and with
    itself otherwise; a module that is [null] or [undefined] is a TypeError;
    a thrown truthy value is the rejection. *)
Theorem registerPage_then_loadPage :
  forall (env : Env) (assetPrefix route r : string) (regFn : completion JsVal) (W : World),
    normalizeRoute route = Return r ->
    production env = true \/ hotBusy W = false ->
    let W1 := registerPage env r regFn W in
    pageCache (this W1) !! r = Some (entryOf regFn) /\
    (exists W2,
        loadPage env assetPrefix route W1 = Return (length (promises (runtime W1)), W2) /\
        promiseState W2 (length (promises (runtime W1))) = outcome (entryOf regFn) /\
        this W2 = this W1 /\ document W2 = document W1 /\
        reactions (runtime W2) = reactions (runtime W1)) /\
    (forall m d, regFn = Return m -> get_default m = Return d ->
                 outcome (entryOf regFn) = Resolved (if truthy d then d else m) m) /\
    (forall m, regFn = Return m -> m = JNull \/ m = JUndefined ->
               outcome (entryOf regFn) = Rejected JTypeError) /\
    (forall e, regFn = Throw e -> truthy e = true -> outcome (entryOf regFn) = Rejected e).
Proof.
  intros env assetPrefix route r regFn W Hn Hnow W1.
  assert (Hc : pageCache (this W1) !! r = Some (entryOf regFn)).
  { unfold W1. rewrite registerPage_now, register_pageCache by assumption.
    apply lookup_insert_eq. }
  split; [exact Hc |]. split; [|split; [|split]].
  - eexists. split; [apply (loadPage_from_cache _ _ _ _ _ _ Hn Hc) |].
    split; [|repeat split].
    unfold promiseState. cbn. now rewrite lookup_app_r, Nat.sub_diag by lia.
  - intros m d -> Hd. unfold entryOf. cbn [bind]. rewrite Hd. reflexivity.
  - intros m -> [-> | ->]; reflexivity.
  - intros e -> He. unfold entryOf, outcome. cbn. now rewrite He.
Qed.

(** A module with a default export, registered as [/a] and loaded as [/a/]. *)
Lemma registerPage_then_loadPage_witness :
  exists W2,
    loadPage Example.prodEnv "" "/a/"
      (registerPage Example.prodEnv "/a" (Return (JObject 1 (JObject 2 JUndefined)))
         Example.world0)
    = Return (0, W2) /\
    promiseState W2 0 = Resolved (JObject 2 JUndefined) (JObject 1 (JObject 2 JUndefined)).
Proof.
  destruct (registerPage_then_loadPage Example.prodEnv "" "/a/" "/a"
              (Return (JObject 1 (JObject 2 JUndefined))) Example.world0
              eq_refl (or_introl eq_refl)) as (_ & (W2 & E & Hp & _) & _).
  exists W2. split; [exact E | exact Hp].
Defined.

(** X15. A function that throws a falsy value is a failure for the cache and
    a success for the promises: the entry holds the thrown value as its
    error, but the listeners of the route are resolved, and so is every later
    [loadPage], with an undefined page and module. *)
Theorem registerPage_falsy_error :
  forall (env : Env) (assetPrefix route r : string) (e : JsVal) (W : World),
    truthy e = false ->
    normalizeRoute route = Return r ->
    production env = true \/ hotBusy W = false ->
    let W1 := registerPage env r (Throw e) W in
    pageCache (this W1) !! r = Some {| error := e; page := JUndefined; mod_ := JUndefined |} /\
    (forall h, h ∈ listeners W r ->
               promises (runtime W) !! fire_promise h = Some Pending ->
               promiseState W1 (fire_promise h) = Resolved JUndefined JUndefined) /\
    exists W2,
      loadPage env assetPrefix route W1 = Return (length (promises (runtime W1)), W2) /\
      promiseState W2 (length (promises (runtime W1))) = Resolved JUndefined JUndefined.
Proof.
  intros env assetPrefix route r e W He Hn Hnow W1.
  assert (Ho : outcome (entryOf (Throw e)) = Resolved JUndefined JUndefined).
  { unfold entryOf, outcome. cbn. now rewrite He. }
  assert (Hc : pageCache (this W1) !! r = Some (entryOf (Throw e))).
  { unfold W1. rewrite registerPage_now, register_pageCache by assumption.
    apply lookup_insert_eq. }
  split; [exact Hc |]. split.
  - intros h Hh Hp. unfold W1. rewrite registerPage_now by assumption.
    now rewrite (register_listeners_pending _ _ _ _ Hh Hp).
  - eexists. split; [apply (loadPage_from_cache _ _ _ _ _ _ Hn Hc) |].
    unfold promiseState. cbn. rewrite lookup_app_r, Nat.sub_diag by lia. cbn.
    now rewrite He.
Qed.

(** [throw undefined] *)
Lemma registerPage_falsy_error_witness :
  exists W2,
    loadPage Example.prodEnv "" "/a"
      (registerPage Example.prodEnv "/a" (Throw JUndefined) Example.world0) = Return (0, W2) /\
    promiseState W2 0 = Resolved JUndefined JUndefined.
Proof.
  destruct (registerPage_falsy_error Example.prodEnv "" "/a" "/a" JUndefined Example.world0
              eq_refl eq_refl (or_introl eq_refl)) as (_ & _ & W2 & E & Hp).
  exists W2. split; [exact E | exact Hp].
Defined.

Lemma set_hotHandlers_same (W : World) : set_hotHandlers (hotHandlers (window W)) W = W.
Proof. destruct W as [t d [] r]. reflexivity. Qed.

Lemma set_hotHandlers_twice (l l' : list (string * completion JsVal)) (W : World) :
  set_hotHandlers l (set_hotHandlers l' W) = set_hotHandlers l W.
Proof. reflexivity. Qed.

(** X16. In a build that is not a production build, while [module.hot] is
    there and not idle, [registerPage] registers nothing: it only leaves a
    status handler.  Called with a status that is not [idle] the handler does
    nothing; called with [idle] it removes itself and the result is the world
    an immediate registration would have given.  In a production build the
    registration is never put off. *)
Theorem registerPage_deferred :
  forall (env : Env) (route : string) (regFn : completion JsVal) (W : World),
    (production env = true -> registerPage env route regFn W = register route regFn W) /\
    (production env = false -> hotBusy W = true ->
       let W1 := registerPage env route regFn W in
       let i := length (hotHandlers (window W)) in
       this W1 = this W /\ runtime W1 = runtime W /\ document W1 = document W /\
       hotHandlers (window W1) = hotHandlers (window W) ++ [(route, regFn)] /\
       (forall status, String.eqb status "idle" = false -> hotCheck i status W1 = W1) /\
       hotCheck i "idle" W1 = register route regFn W).
Proof.
  intros env route regFn W. split.
  - intros Hp. apply registerPage_now. now left.
  - intros Hp Hb W1 i.
    assert (EW : W1 = set_hotHandlers (hotHandlers (window W) ++ [(route, regFn)]) W).
    { unfold W1, registerPage. now rewrite Hp, Hb. }
    assert (El : hotHandlers (window W1) !! i = Some (route, regFn)).
    { rewrite EW. cbn. unfold i. now rewrite lookup_app_r, Nat.sub_diag by lia. }
    rewrite EW in *. do 4 (split; [reflexivity |]). split.
    + intros status Hs. unfold hotCheck. now rewrite El, Hs.
    + unfold hotCheck. rewrite El.
      change (String.eqb "idle" "idle") with true. cbn [hotHandlers window set_hotHandlers with_window].
      unfold i. rewrite delete_middle, app_nil_r, set_hotHandlers_twice.
      now rewrite set_hotHandlers_same.
Qed.

(** A page registered while webpack checks for updates. *)
Lemma registerPage_deferred_witness :
  let W := set_hotStatus (Some "check") Example.world0 in
  hotCheck 0 "idle" (registerPage Example.devEnv "/a" (Return Example.moduleA) W)
  = register "/a" (Return Example.moduleA) W.
Proof.
  intros W.
  apply (proj2 (registerPage_deferred Example.devEnv "/a" (Return Example.moduleA) W)
           eq_refl eq_refl).
Defined.

(** ** A new loader *)

Lemma newPageLoader_loading (initialPage : string) (doc : Document) (win : Window) (r : string) :
  r ∈ loadingRoutes (this (newPageLoader initialPage doc win)) <->
  r = "/_app" \/ (r = initialPage /\ initialPage <> "/_error").
Proof.
  cbn. destruct (String.eqb_spec initialPage "/_error") as [E|E].
  - rewrite elem_of_singleton. split; [now left | intros [?|[_ ?]]; [assumption | contradiction]].
  - rewrite elem_of_union, !elem_of_singleton. split.
    + intros [?|?]; [now left | now right].
    + intros [?|[? _]]; [now left | now right].
Qed.

(** X17. A new loader takes [/_app], and the initial page unless that is
    [/_error], to be on their way with the initial html: [loadPage] of one of
    them only waits, it queues nothing and adds no element; of any other route
    it starts a load.  Either way the promise is pending, and a registration
    of the route settles it with what the registration gives. *)
Theorem newPageLoader_initial_pages :
  forall (env : Env) (assetPrefix initialPage route r : string)
         (doc : Document) (win : Window),
    normalizeRoute route = Return r ->
    let W := newPageLoader initialPage doc win in
    exists W1,
      loadPage env assetPrefix route W = Return (0, W1) /\
      promiseState W1 0 = Pending /\
      (forall regFn, promiseState (register r regFn W1) 0 = outcome (entryOf regFn)) /\
      (r = "/_app" \/ (r = initialPage /\ initialPage <> "/_error") ->
         reactions (runtime W1) = [] /\ document W1 = doc) /\
      (r <> "/_app" -> (r <> initialPage \/ initialPage = "/_error") ->
         issued env assetPrefix r W W1).
Proof.
  intros env assetPrefix initialPage route r doc win Hn W.
  destruct (loadPage_uncached env assetPrefix route r W Hn (lookup_empty r))
    as (r2 & W1 & E & Hp & Hl & _ & _ & Hin & Hout).
  exists W1. split; [exact E |].
  assert (Hh : Fire 0 r2 ∈ listeners W1 r).
  { unfold listeners. rewrite Hl, lookup_insert_eq. cbn. apply elem_of_app. right.
    apply elem_of_cons. now left. }
  split; [unfold promiseState; now rewrite Hp |]. split; [|split].
  - intros regFn. apply (register_listeners_pending r regFn W1 (Fire 0 r2) Hh).
    cbn. now rewrite Hp.
  - intros Hr. apply Hin. now apply newPageLoader_loading.
  - intros H1 H2. apply Hout. intros Hr.
    apply newPageLoader_loading in Hr as [?|[? ?]]; [contradiction | destruct H2; contradiction].
Qed.

(** The initial page [/about], asked for with a trailing slash. *)
Lemma newPageLoader_initial_pages_witness :
  exists W1,
    loadPage Example.prodEnv "" "/about/"
      (newPageLoader "/about" Example.emptyDocument Example.emptyWindow) = Return (0, W1) /\
    reactions (runtime W1) = [] /\
    promiseState (register "/about" (Return Example.moduleA) W1) 0
    = outcome (entryOf (Return Example.moduleA)).
Proof.
  destruct (newPageLoader_initial_pages Example.prodEnv "" "/about" "/about/" "/about"
              Example.emptyDocument Example.emptyWindow eq_refl)
    as (W1 & E & _ & Hreg & Hin & _).
  exists W1. split; [exact E |]. split; [|apply Hreg].
  apply Hin. right. split; [reflexivity | discriminate].
Defined.

(** ** Two trailing slashes *)

Lemma normalizeRoute_two_slashes (x : string) :
  startsWith x "/" = true -> endsWith x "/" = false ->
  normalizeRoute (x +:+ "//") = Return (x +:+ "/") /\
  normalizeRoute (x +:+ "/") = Return x /\
  x +:+ "/" <> x.
Proof.
  intros [t ->]%startsWith_slash He. split; [|split].
  - change "//" with ("/" +:+ "/"). rewrite <- append_assoc.
    rewrite normalizeRoute_strip by (cbn; discriminate). reflexivity.
  - rewrite normalizeRoute_strip by discriminate. reflexivity.
  - intros E. rewrite <- E, endsWith_app in He. discriminate.
Qed.

(** X18. In a build that is not a production build, [loadPage] of a route
    written with two trailing slashes subscribes under the route with one
    slash, but the listener and the script read the route with none, to which
    the second [normalizeRoute] takes it.  So neither an error of the script
    nor a registration of the page under the route with no slash reaches the
    promise: it stays pending. *)
Theorem loadPage_two_slashes_dev :
  forall (env : Env) (assetPrefix x : string) (W : World),
    production env = false ->
    startsWith x "/" = true -> endsWith x "/" = false ->
    wf W ->
    pageCache (this W) !! (x +:+ "/") = None ->
    (x +:+ "/") ∉ loadingRoutes (this W) ->
    let p := length (promises (runtime W)) in
    let s := {| src := assetPrefix +:+ "/_next/static/pages" +:+ encodeURI (getAssetPath x)
                       +:+ ".js";
                type_module := modernBuild env && hasNoModule env;
                script_crossOrigin := crossOrigin env;
                script_route := x |} in
    exists W1,
      loadPage env assetPrefix (x +:+ "//") W = Return (p, W1) /\
      listeners W1 (x +:+ "/") = listeners W (x +:+ "/") ++ [Fire p x] /\
      scripts (document W1) = scripts (document W) ++ [s] /\
      promiseState (scriptError s W1) p = Pending /\
      (forall regFn, promiseState (register x regFn W1) p = Pending).
Proof.
  intros env assetPrefix x W Hprod Hs He Hwf Hc Hl p s.
  destruct (normalizeRoute_two_slashes x Hs He) as (N2 & N1 & Hne).
  eexists. split.
  { unfold loadPage. rewrite N2. cbn [bind]. unfold loadPageExecutor.
    cbn [this set_promises with_runtime pageCache]. rewrite Hc.
    rewrite decide_False by exact Hl. rewrite Hprod, N1. reflexivity. }
  set (W0 := set_promises (promises (runtime W) ++ [Pending]) W).
  assert (Hlx : forall W', pageRegisterEvents (this W') =
                   <[ x +:+ "/" := listeners W (x +:+ "/") ++ [Fire p x] ]>
                     (pageRegisterEvents (this W)) ->
                 promises (runtime W') = promises (runtime W) ++ [Pending] ->
                 forall evt, promiseState (emit x evt W') p = Pending).
  { intros W' El Ep evt. rewrite emit_other.
    - unfold promiseState. rewrite Ep. unfold p.
      now rewrite lookup_app_r, Nat.sub_diag by lia.
    - intros h Hh. unfold listeners in Hh. rewrite El in Hh.
      rewrite lookup_insert_ne in Hh by exact Hne.
      specialize (Hwf x h Hh). unfold p. lia. }
  split; [|split; [|split]].
  - unfold listeners at 1. cbn. now rewrite lookup_insert_eq.
  - reflexivity.
  - unfold scriptError. cbn [script_route s]. apply Hlx; reflexivity.
  - intros regFn. unfold register.
    destruct (bind regFn _) as [pd|err]; apply Hlx; reflexivity.
Qed.

(** [loadPage('/a//')] in a new loader. *)
Lemma loadPage_two_slashes_dev_witness :
  exists W1,
    loadPage Example.devEnv "" "/a//" Example.world0 = Return (0, W1) /\
    promiseState (register "/a" (Return Example.moduleA) W1) 0 = Pending.
Proof.
  destruct (loadPage_two_slashes_dev Example.devEnv "" "/a" Example.world0
              eq_refl eq_refl eq_refl) as (W1 & E & _ & _ & _ & Hreg).
  - intros k h Hh. vm_compute in Hh. apply elem_of_nil in Hh. destruct Hh.
  - vm_compute. reflexivity.
  - intros Hin. vm_compute in Hin. set_solver.
  - exists W1. split; [exact E | apply Hreg].
Defined.

(** ** From [loadPage] to the elements, in production *)

Lemma injectDependency_runtime (env : Env) (route d : string) (W : World) :
  runtime (injectDependency env route d W) = runtime W.
Proof.
  unfold injectDependency.
  destruct (endsWith d ".js" && negb (hasScript d W));
    match goal with |- context [if ?c then _ else _] => destruct c end; reflexivity.
Qed.

Lemma injectDependencies_runtime (env : Env) (route : string) (deps : list string) (W : World) :
  runtime (injectDependencies env route deps W) = runtime W.
Proof.
  revert W. induction deps as [|d deps IH]; intros W; [reflexivity |].
  cbn. fold (injectDependencies env route deps (injectDependency env route d W)).
  now rewrite IH, injectDependency_runtime.
Qed.

Lemma injectDependency_scripts (env : Env) (route d : string) (W : World) (s : ScriptEl) :
  s ∈ scripts (document (injectDependency env route d W)) ->
  s ∈ scripts (document W) \/ (script_route s = route /\ src s = d).
Proof.
  unfold injectDependency.
  destruct (endsWith d ".js" && negb (hasScript d W));
    match goal with |- context [if ?c then _ else _] => destruct c end; cbn;
    rewrite ?elem_of_app, ?list_elem_of_singleton;
    (intros [Hs | ->]; [now left | right; split; reflexivity]) || (intros Hs; now left).
Qed.

Lemma injectDependencies_scripts (env : Env) (route : string) (deps : list string)
    (W : World) (s : ScriptEl) :
  s ∈ scripts (document (injectDependencies env route deps W)) ->
  s ∈ scripts (document W) \/ (script_route s = route /\ src s ∈ deps).
Proof.
  revert W. induction deps as [|d deps IH]; intros W Hs; [now left |].
  cbn in Hs. fold (injectDependencies env route deps (injectDependency env route d W)) in Hs.
  apply IH in Hs as [Hs | [Hr Hd]].
  - apply injectDependency_scripts in Hs as [Hs | [Hr ->]]; [now left |].
    right. split; [exact Hr | apply elem_of_cons; now left].
  - right. split; [exact Hr | apply elem_of_cons; now right].
Qed.

(** X19. In a production build, [loadPage] of a route that is neither cached
    nor loading queues one reaction, which waits for the build manifest.  When
    the manifest is there and lists the route, that reaction and the one it
    queues leave an element in the document for every script and style sheet
    of the route, each under the asset prefix and [/_next/]; every script that
    was added reports its errors to the route; the queue is as it was before
    the call, and the promise is still pending: only a registration or an
    error settles it. *)
Theorem loadPage_production_pipeline :
  forall (R : RouterUtils) (env : Env) (buildId assetPrefix route r : string)
         (m : gmap string (list string)) (urls : list string) (W : World),
    production env = true ->
    normalizeRoute route = Return r ->
    pageCache (this W) !! r = None ->
    (r ∉ loadingRoutes (this W)) ->
    m !! r = Some urls ->
    let n := length (reactions (runtime W)) in
    let p := length (promises (runtime W)) in
    let deps := map (fun url => assetPrefix +:+ "/_next/" +:+ encodeURI url) urls in
    exists W1,
      loadPage env assetPrefix route W = Return (p, W1) /\
      (buildManifest (window W) = None ->
         run env buildId assetPrefix W1 [RunReaction n] = W1) /\
      (buildManifest (window W) = None \/ buildManifest (window W) = Some m ->
         let W3 := run env buildId assetPrefix W1
                     [BuildManifestReady m; RunReaction n; RunReaction n] in
         injected deps W3 /\
         (forall s, s ∈ scripts (document W3) ->
                    s ∈ scripts (document W) \/ (script_route s = r /\ src s ∈ deps)) /\
         reactions (runtime W3) = reactions (runtime W) /\
         calm W1 W3 /\
         promiseState W3 p = Pending).
Proof.
  intros R env buildId assetPrefix route r m urls W Hprod Hn Hc Hl Hm n p deps.
  eexists. split.
  { unfold loadPage. rewrite Hn. cbn [bind]. unfold loadPageExecutor.
    cbn [this set_promises with_runtime pageCache]. rewrite Hc.
    rewrite decide_False by exact Hl. rewrite Hprod. reflexivity. }
  set (W0 := set_loading _ _).
  set (j := GetDependenciesThen r ForLoadPage).
  assert (E1 : reactions (runtime (getDependencies r ForLoadPage W0))
               = reactions (runtime W) ++ [j]) by reflexivity.
  split.
  - intros Hb. rewrite run_cons. unfold n.
    rewrite (step_RunReaction_last R env buildId assetPrefix _ _ _ E1).
    cbn [runJob j]. change (buildManifest (window _)) with (buildManifest (window W)).
    rewrite Hb. reflexivity.
  - intros Hb W3.
    set (V := step env buildId assetPrefix (getDependencies r ForLoadPage W0)
                (BuildManifestReady m)).
    assert (HV : buildManifest (window V) = Some m /\
                 this V = this W0 /\ document V = document W /\
                 runtime V = runtime (getDependencies r ForLoadPage W0)).
    { unfold V. cbn [step].
      change (window (getDependencies r ForLoadPage W0)) with (window W).
      destruct Hb as [Hb | Hb]; rewrite Hb; repeat split; assumption. }
    destruct HV as (Hwin & Ht & Hd & Hr).
    assert (E2 : reactions (runtime V) = reactions (runtime W) ++ [j]) by now rewrite Hr.
    set (B := set_reactions (reactions (runtime W)) V).
    assert (E3 : W3 = injectDependencies env r deps B).
    { unfold W3. rewrite !run_cons. fold V. unfold n.
      rewrite (step_RunReaction_last R env buildId assetPrefix _ _ _ E2).
      cbn [runJob j]. change (buildManifest (window (set_reactions _ V)))
        with (buildManifest (window V)). rewrite Hwin.
      unfold getDependenciesThen. rewrite Hm. fold deps.
      rewrite (step_RunReaction_last R env buildId assetPrefix _ (reactions (runtime W))
                 (InjectDependencies deps r)) by reflexivity.
      reflexivity. }
    assert (EB : pageCache (this B) = pageCache (this W0) /\
                 pageRegisterEvents (this B) = pageRegisterEvents (this W0) /\
                 promises (runtime B) = promises (runtime W) ++ [Pending]).
    { unfold B. cbn [this set_reactions with_runtime runtime promises]. rewrite Ht, Hr.
      repeat split. }
    destruct EB as (B1 & B2 & B3).
    destruct (injectDependencies_calm env r deps B) as (C1 & C2 & C3).
    fold (injectDependencies env r deps B) in C1, C2, C3.
    rewrite E3. split; [apply injectDependencies_injected |]. split; [|split; [|split]].
    + intros s Hs. apply injectDependencies_scripts in Hs as [Hs | Hs]; [left | now right].
      change (document B) with (document V) in Hs. now rewrite Hd in Hs.
    + now rewrite injectDependencies_runtime.
    + unfold calm. rewrite C1, C2, C3, B1, B2, B3. repeat split.
    + unfold promiseState. rewrite C3, B3. unfold p.
      now rewrite lookup_app_r, Nat.sub_diag by lia.
Qed.

(** A route with a script and a style sheet, asked for before the manifest is
    there. *)
Lemma loadPage_production_pipeline_witness :
  let m : gmap string (list string) := {[ "/a" := ["static/a.js"; "static/a.css"] ]} in
  exists W1,
    loadPage Example.prodEnv "" "/a" Example.world0 = Return (0, W1) /\
    injected ["/_next/static/a.js"; "/_next/static/a.css"]
      (Example.runIn Example.prodEnv W1 [BuildManifestReady m; RunReaction 0; RunReaction 0]) /\
    promiseState
      (Example.runIn Example.prodEnv W1 [BuildManifestReady m; RunReaction 0; RunReaction 0]) 0
    = Pending.
Proof.
  intros m.
  destruct (loadPage_production_pipeline SpecRouter.specRouter Example.prodEnv "build" ""
              "/a" "/a" m ["static/a.js"; "static/a.css"] Example.world0
              eq_refl eq_refl eq_refl) as (W1 & E & _ & H3).
  - intros Hin. vm_compute in Hin. set_solver.
  - vm_compute. reflexivity.
  - exists W1. split; [exact E |].
    destruct (H3 (or_introl eq_refl)) as (Hi & _ & _ & _ & Hp).
    split; [exact Hi | exact Hp].
Defined.

(** ** From [prefetch] to the links, in production *)

(** X20. In a production build [prefetch] of a route, on a connection that
    is not slow, adds no link of its own: it queues a reaction that waits for
    the build manifest, under the route as it was given.  When the manifest is
    there and lists the route, that reaction and the one it queues leave a
    prefetch link for every dependency of the route, [as] a style for a style
    sheet and a script otherwise; no script is added, and the loader and the
    promises are as they were.  A link whose address begins with [undefined]
    keeps all of it from happening. *)
Theorem prefetch_production_pipeline :
  forall (R : RouterUtils) (env : Env) (buildId assetPrefix route : string)
         (m : gmap string (list string)) (urls : list string) (W : World),
    production env = true ->
    slowConnection W = false ->
    m !! route = Some urls ->
    buildManifest (window W) = None \/ buildManifest (window W) = Some m ->
    let n := length (reactions (runtime W)) in
    let deps := map (fun url => assetPrefix +:+ "/_next/" +:+ encodeURI url) urls in
    (hasLink (relPrefetch env) "undefined" W = true ->
       prefetch env buildId assetPrefix route false W = Return W) /\
    (hasLink (relPrefetch env) "undefined" W = false ->
       exists W1,
         prefetch env buildId assetPrefix route false W = Return W1 /\
         document W1 = document W /\
         let W3 := run env buildId assetPrefix W1
                     [BuildManifestReady m; RunReaction n; RunReaction n] in
         (forall d, d ∈ deps -> hasLink (relPrefetch env) d W3 = true) /\
         (exists l, links (document W3) = links (document W) ++ l /\
            forall x, x ∈ l ->
              rel x = relPrefetch env /\ href x ∈ deps /\
              as_ x = Some (if endsWith (href x) ".css" then "style" else "script")) /\
         scripts (document W3) = scripts (document W) /\
         this W3 = this W /\ runtime W3 = runtime W).
Proof.
  intros R env buildId assetPrefix route m urls W Hprod Hs Hm Hb n deps.
  assert (Hpre : forall b, hasLink (relPrefetch env) "undefined" W = b ->
            prefetch env buildId assetPrefix route false W =
            Return (if b then W else getDependencies route ForPrefetch W)).
  { intros b Hu. unfold prefetch, prefetchUrl. rewrite Hs, Hprod.
    cbn [negb bind default from_option id andb]. rewrite Hu. now destruct b. }
  split; [intros Hu; exact (Hpre true Hu) |].
  intros Hu. eexists. split; [exact (Hpre false Hu) |]. split; [reflexivity |].
  exact (prefetchDependencies_run R env buildId assetPrefix route m urls W Hs Hm Hb).
Qed.

(** A route with a script and a style sheet, prefetched before the manifest is
    there. *)
Lemma prefetch_production_pipeline_witness :
  let m : gmap string (list string) := {[ "/a" := ["static/a.js"; "static/a.css"] ]} in
  exists W1,
    prefetch Example.prodEnv "build" "" "/a" false Example.world0 = Return W1 /\
    map href
      (links (document (Example.runIn Example.prodEnv W1
                          [BuildManifestReady m; RunReaction 0; RunReaction 0])))
    = ["/_next/static/a.js"; "/_next/static/a.css"] /\
    hasLink "prefetch" "/_next/static/a.css"
      (Example.runIn Example.prodEnv W1 [BuildManifestReady m; RunReaction 0; RunReaction 0])
    = true.
Proof.
  intros m.
  destruct (proj2 (prefetch_production_pipeline SpecRouter.specRouter Example.prodEnv "build" ""
              "/a" m ["static/a.js"; "static/a.css"] Example.world0
              eq_refl eq_refl eq_refl (or_introl eq_refl)) eq_refl) as (W1 & E & _ & H3).
  exists W1. split; [exact E |]. destruct H3 as (Hl & _).
  split; [injection E as <-; vm_compute; reflexivity |].
  apply (Hl "/_next/static/a.css"). apply elem_of_cons. right. apply elem_of_cons. now left.
Defined.

(** ** The shape of a data href *)

(** X21. When the pathname [parse] gives for the href does not begin with a
    slash, [getDataHref] throws the invalid route error, and so does
    [prefetchData], which then queues nothing.  What [getDataHref] returns is
    the empty string, and then the route is dynamic, or the asset prefix,
    [/_next/data/], the build id, the asset path of some route and [.json];
    for a route that is not dynamic that route is the normalised pathname, and
    the path shown in the browser plays no part. *)
Theorem getDataHref_shape :
  forall (R : RouterUtils) (assetPrefix buildId href asPath : string),
    let p := pathname (parse href) in
    (startsWith p "/" = false ->
       getDataHref assetPrefix buildId href asPath = Throw (invalidRouteError p) /\
       forall W, prefetchData href asPath W = Throw (invalidRouteError p)) /\
    (forall d, getDataHref assetPrefix buildId href asPath = Return d ->
       exists route,
         normalizeRoute p = Return route /\
         (d = "" \/ exists slug, d = assetPrefix +:+ "/_next/data/" +:+ buildId
                                     +:+ getAssetPath slug +:+ ".json") /\
         (d = "" -> isDynamicRoute route = true) /\
         (isDynamicRoute route = false ->
            d = assetPrefix +:+ "/_next/data/" +:+ buildId +:+ getAssetPath route +:+ ".json" /\
            forall asPath', getDataHref assetPrefix buildId href asPath' = Return d)).
Proof.
  intros R assetPrefix buildId href asPath p.
  assert (Hne : forall slug, getHrefForSlug assetPrefix buildId slug <> "").
  { intros slug. unfold getHrefForSlug. apply append_nonempty_r. discriminate. }
  unfold getDataHref, prefetchData. fold p.
  destruct (startsWith p "/") eqn:Es.
  - apply startsWith_slash in Es as [t Et]. rewrite Et.
    destruct (normalizeRoute_slash_Return t) as [route Hr]. rewrite Hr. cbn [bind].
    split; [discriminate |].
    intros d Hd. exists route. split; [reflexivity |].
    destruct (isDynamicRoute route) eqn:Edyn.
    + injection Hd as <-.
      destruct (String.eqb_spec (interpolateRoute route (pathname (parse asPath))
                                   (query (parse href))) "") as [E|E].
      * split; [now left |]. split; [reflexivity | discriminate].
      * split; [right; eexists; reflexivity |].
        split; [|discriminate]. intros E'. now apply Hne in E'.
    + injection Hd as <-. split; [right; eexists; reflexivity |].
      split; [intros E'; now apply Hne in E' |].
      intros _. split; [reflexivity |]. intros asPath'. reflexivity.
  - rewrite normalizeRoute_Throw by now apply startsWith_slash_false.
    cbn [bind]. split; [intros _; split; [reflexivity | intros W; reflexivity] |].
    intros d Hd. discriminate Hd.
Qed.

(** ** Calls of [loadPage] with events between them, in production *)

Lemma promiseState_lookup (W : World) (p : nat) :
  promiseState W p <> Pending -> p < length (promises (runtime W)).
Proof.
  unfold promiseState. intros Hp.
  destruct (promises (runtime W) !! p) eqn:E; [now apply lookup_lt_Some in E |].
  now contradict Hp.
Qed.

(** A promise that is settled stays as it is. *)
Lemma run_settled (R : RouterUtils) (env : Env) (buildId assetPrefix : string)
    (W : World) (evs : list Event) (p : nat) :
  promiseState W p <> Pending ->
  promiseState (run env buildId assetPrefix W evs) p = promiseState W p.
Proof.
  intros Hp.
  apply (run_preserves env buildId assetPrefix
           (fun W' => promiseState W' p = promiseState W p)); [| | |reflexivity].
  - intros W1 W2 Hq E. now rewrite (quiet_promiseState _ _ _ Hq).
  - intros W1 k evt E. rewrite emit_settled; [exact E | now rewrite E].
  - intros W1 route q W2 El E. rewrite <- E. unfold promiseState.
    rewrite (loadPage_old_promises _ _ _ _ _ _ p El); [reflexivity |].
    apply promiseState_lookup. now rewrite E.
Qed.

(** A registration of the route settles the promise that waits under it. *)
Lemma registration_settles (R : RouterUtils) (env : Env) (buildId assetPrefix r : string)
    (p : nat) (W : World) (ev : Event) (regFn : completion JsVal) :
  waiting r [p] W ->
  registration env W ev = Some (r, regFn) ->
  promiseState (step env buildId assetPrefix W ev) p = outcome (entryOf regFn).
Proof.
  intros [_ Hw] Hreg.
  destruct (Hw p) as (Epend & h & Hh & <-); [apply elem_of_cons; now left |].
  destruct ev as [route | route regFn' | route dep | href asPath | i | i | m | s | cn
                 | status | i status]; cbn [registration] in Hreg; try discriminate Hreg.
  - cbn [step]. unfold registerPage.
    destruct (negb (production env) && hotBusy W); [discriminate Hreg |].
    injection Hreg as -> ->. now apply register_listeners_pending.
  - cbn [step]. unfold hotCheck.
    destruct (hotHandlers (window W) !! i) as [[route regFn']|]; [|discriminate Hreg].
    destruct (String.eqb status "idle"); [|discriminate Hreg].
    injection Hreg as -> ->. now apply register_listeners_pending.
Qed.

(** While the promise of a call is pending, it waits under the route, and the
    route has no cache entry. *)
Lemma pending_uncached_run (R : RouterUtils) (env : Env) (buildId assetPrefix r : string)
    (p : nat) (evs : list Event) :
  forall W,
    waiting r [p] W ->
    pageCache (this W) !! r = None ->
    promiseState (run env buildId assetPrefix W evs) p = Pending ->
    waiting r [p] (run env buildId assetPrefix W evs) /\
    pageCache (this (run env buildId assetPrefix W evs)) !! r = None.
Proof.
  induction evs as [|ev evs IH]; intros W Hw Hc Hp; [now split |].
  rewrite run_cons in *.
  set (W1 := step env buildId assetPrefix W ev) in *.
  assert (Ht : together r [p] W1).
  { apply (together_run env buildId assetPrefix r [p] W [ev]). now apply waiting_together. }
  assert (Hp1 : promiseState W1 p = Pending).
  { destruct (decide (promiseState W1 p = Pending)) as [E|Hne]; [exact E |].
    rewrite (run_settled R env buildId assetPrefix W1 evs p Hne) in Hp. contradiction. }
  assert (Hw1 : waiting r [p] W1).
  { destruct Ht as [_ [Hw1 | (o & Ho & Hall)]]; [exact Hw1 |].
    exfalso. apply Ho. rewrite <- (Hall p), Hp1; [reflexivity | apply elem_of_cons; now left]. }
  apply IH; [exact Hw1 | | exact Hp].
  unfold W1. rewrite step_pageCache.
  destruct (registration env W ev) as [[route regFn]|] eqn:Hreg; [|exact Hc].
  destruct (decide (route = r)) as [->|Hne]; [|now rewrite lookup_insert_ne].
  exfalso. apply (outcome_not_pending (entryOf regFn)).
  rewrite <- (registration_settles R env buildId assetPrefix r p W ev regFn Hw Hreg).
  exact Hp1.
Qed.

(** X23. In a production build, in a world a new loader can reach, let a
    route have no cache entry and no load under way.  [loadPage] for it
    starts one load.  Whatever happens then, as long as the promise of that
    call is pending, another [loadPage] for the route queues nothing and adds
    no element: it returns a promise that is pending too, and from then on
    the two promises are at any time in the same state; a registration of
    the route settles both with what it gives. *)
Theorem loadPage_interleaved_production :
  forall (R : RouterUtils) (env : Env) (buildId assetPrefix initialPage : string)
         (doc : Document) (win : Window) (evs0 : list Event) (route r : string),
    production env = true ->
    let W0 := run env buildId assetPrefix (newPageLoader initialPage doc win) evs0 in
    let p := length (promises (runtime W0)) in
    normalizeRoute route = Return r ->
    pageCache (this W0) !! r = None ->
    (r ∉ loadingRoutes (this W0)) ->
    exists W1,
      loadPage env assetPrefix route W0 = Return (p, W1) /\
      issued env assetPrefix r W0 W1 /\
      forall evs,
        let W2 := run env buildId assetPrefix W1 evs in
        let q := length (promises (runtime W2)) in
        promiseState W2 p = Pending ->
        exists W3,
          loadPage env assetPrefix route W2 = Return (q, W3) /\
          reactions (runtime W3) = reactions (runtime W2) /\
          document W3 = document W2 /\
          p <> q /\
          promiseState W3 q = Pending /\
          (forall evs', promiseState (run env buildId assetPrefix W3 evs') p
                        = promiseState (run env buildId assetPrefix W3 evs') q) /\
          (forall regFn, promiseState (register r regFn W3) p = outcome (entryOf regFn) /\
                         promiseState (register r regFn W3) q = outcome (entryOf regFn)).
Proof.
  intros R env buildId assetPrefix initialPage doc win evs0 route r Hprod W0 p Hn Hc Hl.
  assert (Hwf : wf W0) by apply wf_run, wf_newPageLoader.
  destruct (loadPage_uncached env assetPrefix route r W0 Hn Hc)
    as (r2 & W1 & E & Ep & Ee & Ecache & _ & _ & Hissue).
  assert (Hw0 : waiting r [] W0).
  { split; [intros k' h _ Hp | intros p' Hp]; now apply elem_of_nil in Hp. }
  pose proof (waiting_loadPage r r2 [] W0 W1 Hwf Hw0 Ep Ee) as Hw1. fold p in Hw1.
  pose proof (wf_loadPage _ _ _ _ _ _ E Hwf) as Hwf1.
  exists W1. split; [exact E |]. split; [now apply Hissue |].
  intros evs W2 q Hp2.
  destruct (pending_uncached_run R env buildId assetPrefix r p evs W1 Hw1
              ltac:(now rewrite Ecache) Hp2) as [Hw2 Hc2].
  fold W2 in Hw2, Hc2.
  assert (Hwf2 : wf W2) by now apply wf_run.
  assert (Hreach : W2 = run env buildId assetPrefix (newPageLoader initialPage doc win)
                          (evs0 ++ LoadPage route :: evs)).
  { rewrite run_app, run_cons. fold W0. cbn [step]. now rewrite E. }
  assert (Hm : marked W2).
  { rewrite Hreach. apply (keyed_marked_reachable env buildId assetPrefix Hprod). }
  assert (Hl2 : r ∈ loadingRoutes (this W2)).
  { apply Hm. destruct (proj2 Hw2 p) as (_ & h & Hh & _); [apply elem_of_cons; now left |].
    intros E0. rewrite E0 in Hh. now apply elem_of_nil in Hh. }
  destruct (loadPage_uncached env assetPrefix route r W2 Hn Hc2)
    as (r3 & W3 & E3 & Ep3 & Ee3 & _ & _ & Hsame & _).
  destruct (Hsame Hl2) as [Er Ed].
  pose proof (waiting_loadPage r r3 [p] W2 W3 Hwf2 Hw2 Ep3 Ee3) as Hw3. fold q in Hw3.
  assert (Hin : forall x, x = p \/ x = q -> x ∈ [q; p]).
  { intros x [-> | ->]; rewrite !elem_of_cons; tauto. }
  exists W3. split; [exact E3 |]. split; [exact Er |]. split; [exact Ed |].
  split; [|split; [|split]].
  - destruct (proj2 Hw2 p) as (Epend & _); [apply elem_of_cons; now left |].
    apply lookup_lt_Some in Epend. unfold q. lia.
  - destruct (proj2 Hw3 q (Hin q (or_intror eq_refl))) as (Epend & _).
    unfold promiseState. now rewrite Epend.
  - intros evs'. apply (together_same r [q; p]); [| apply Hin; now left | apply Hin; now right].
    apply together_run. now apply waiting_together.
  - intros regFn. split.
    + destruct (proj2 Hw3 p (Hin p (or_introl eq_refl))) as (Epend & h & Hh & <-).
      now apply register_listeners_pending.
    + destruct (proj2 Hw3 q (Hin q (or_intror eq_refl))) as (Epend & h & Hh & <-).
      now apply register_listeners_pending.
Qed.

(** A call for [/about], a prefetch, the manifest and a reaction, and a second
    call: nothing more is queued, and a registration resolves both promises. *)
Lemma loadPage_interleaved_production_witness :
  let W2 := Example.runIn Example.prodEnv Example.world0
              [LoadPage "/about"; Prefetch "/b" false;
               BuildManifestReady {[ "/about" := ["static/a.js"] ]}; RunReaction 0] in
  exists W3,
    loadPage Example.prodEnv "" "/about/" W2 = Return (1, W3) /\
    reactions (runtime W3) = reactions (runtime W2) /\
    promiseState (register "/about" (Return Example.moduleA) W3) 0
    = promiseState (register "/about" (Return Example.moduleA) W3) 1.
Proof.
  intros W2.
  destruct (loadPage_interleaved_production SpecRouter.specRouter Example.prodEnv "build" ""
              "/" Example.emptyDocument Example.emptyWindow [] "/about/" "/about"
              eq_refl eq_refl eq_refl) as (W1 & E & _ & Hnext).
  { intros Hin. apply (bool_decide_pack _) in Hin. vm_compute in Hin. exact Hin. }
  injection E as <-.
  destruct (Hnext [Prefetch "/b" false;
                   BuildManifestReady {[ "/about" := ["static/a.js"] ]}; RunReaction 0])
    as (W3 & E3 & Er & _ & _ & _ & _ & Hreg); [vm_compute; reflexivity |].
  exists W3. split; [exact E3 |]. split; [exact Er |].
  destruct (Hreg (Return Example.moduleA)) as [Hp Hq].
  exact (eq_trans Hp (eq_sym Hq)).
Defined.
